(** * Audio visualizer (Tauri): the UI layer of [frontend/src/App.svelte]
    and the command surface it drives.

    The development embeds the script block of [App.svelte] shallowly:

    - JavaScript numbers that the code compares, clamps and combines are
      finite IEEE doubles, hence rationals; they are modelled as [Q]
      ([Math.min], [Math.max], [Math.abs], [Math.floor] and the
      comparisons are exact on finite doubles).  [+ - * /] are taken
      without rounding where a property does not depend on it; where one
      does, the function has a second model with a rounding after every
      operation ([Double], [Rounded]), and [binary64] is the rounding of
      doubles.  Array indices, lengths and channel counts are [nat].
    - The module-level [let] variables of the component form one record,
      [UI]; every synchronous function of the script is a function on
      that record.
    - [invoke], [open] and [save] are requests to the host; an [async]
      function is a computation in a small state-and-exception monad that
      logs every request it issues, so that "what was invoked, with which
      arguments, in which order" is a property of the log.  While such a
      function waits, other handlers of the component may run; what they
      do to the variables is part of the host.
    - The browser's Web Audio implementation enters through
      [createBuffer], which takes its arguments or throws.
    - The engine behind the command surface (decoder, spectrogram, exporter)
      is native code that is not part of the front end; where a property is
      about the engine itself, the engine is modelled from its specification
      and the definitions say so.
    - The playback buffer holds the samples rounded to float32
      ([float32]). *)

From Stdlib Require Import QArith Qminmax Qround Qabs Qpower Lqa ZArith Lia List Ascii String.
From stdpp Require Import base list strings gmap.
Import ListNotations.

Open Scope Q_scope.

(** ** JavaScript numbers *)

Module Math.
Definition min (a b : Q) : Q := Qmin a b.
Definition max (a b : Q) : Q := Qmax a b.
Definition abs (a : Q) : Q := Qabs a.
Definition floor (a : Q) : Z := Qfloor a.
End Math.

(** [a < b] as the boolean test of an [if]. *)
Definition ltb (a b : Q) : bool := negb (Qle_bool b a).
Definition leb (a b : Q) : bool := Qle_bool a b.
Definition gtb (a b : Q) : bool := ltb b a.
Definition geb (a b : Q) : bool := leb b a.

(** ** Binary floating point

    [Binary.round prec emin q] is the number nearest to [q] among the
    binary floating-point numbers with [prec] digits and least normal
    exponent [emin], the one with the even last digit when two are
    equally near: the rounding that follows every [+ - * /] of doubles
    ([binary64]) and every store into a [Float32Array] ([binary32]).
    The numbers below [2^emin] are evenly spaced (subnormal).  The
    exponent has no upper limit here: where the source gives an infinity
    (from [2^1024] on for doubles), this rounding gives the number. *)
Module Binary.

(** The integer nearest to [q], the even one of two. *)
Definition rne (q : Q) : Z :=
  let f := Qfloor q in
  match Qcompare (q - inject_Z f) (1 # 2) with
  | Lt => f
  | Gt => (f + 1)%Z
  | Eq => if Z.even f then f else (f + 1)%Z
  end.

(** For [0 < a], the exponent [e] with [2^e <= a < 2^(e+1)]. *)
Definition ilog2 (a : Q) : Z :=
  let e := (Z.log2 (Qnum a) - Z.log2 (Z.pos (Qden a)))%Z in
  if Qle_bool (2 ^ e) a then e else (e - 1)%Z.

(** The distance of neighbouring numbers around [a], for [0 < a]. *)
Definition ulp (prec emin : Z) (a : Q) : Q :=
  2 ^ (Z.max (ilog2 a) emin - (prec - 1)).

Definition round (prec emin : Z) (q : Q) : Q :=
  let q := Qred q in
  if Qeq_bool q 0 then 0
  else
    let a := Qabs q in
    let m := Qred (inject_Z (rne (a / ulp prec emin a)) * ulp prec emin a) in
    if Qle_bool 0 q then m else - m.
End Binary.

Definition binary64 : Q -> Q := Binary.round 53 (-1022).
Definition binary32 : Q -> Q := Binary.round 24 (-126).

(** ** Records exchanged with the command surface (App.svelte, lines 11-38) *)

Module AudioInfo.
Record t := mk { duration : Q; sample_rate : Z; channels : nat }.
End AudioInfo.

Module SpectrogramData.
Record t := mk { data : list (list Q); times : list Q; max_freq : Q }.
End SpectrogramData.

Module ForensicData.
Record t := mk {
  enf_present : bool;
  enf_strength_db : Q;
  grid_freq : Q;
  splice_times : list Q;
  snr_db : Q;
  dynamic_range_db : Q;
  has_clipping : bool;
  clipped_count : nat
}.
End ForensicData.

Module AudioSamples.
Record t := mk { samples : list Q; sample_rate : Z; channels : nat }.
End AudioSamples.

(** The interface declarations themselves, as the TypeScript source
    writes them: field name and declared type, in order. *)
Inductive ts_type := TNumber | TBoolean | TArray (elt : ts_type).

Definition interface := list (string * ts_type).

Definition AudioInfo_decl : interface :=
  [("duration", TNumber); ("sample_rate", TNumber); ("channels", TNumber)]%string.

Definition SpectrogramData_decl : interface :=
  [("data", TArray (TArray TNumber)); ("times", TArray TNumber);
   ("max_freq", TNumber)]%string.

Definition ForensicData_decl : interface :=
  [("enf_present", TBoolean); ("enf_strength_db", TNumber);
   ("grid_freq", TNumber); ("splice_times", TArray TNumber);
   ("snr_db", TNumber); ("dynamic_range_db", TNumber);
   ("has_clipping", TBoolean); ("clipped_count", TNumber)]%string.

Definition AudioSamples_decl : interface :=
  [("samples", TArray TNumber); ("sample_rate", TNumber);
   ("channels", TNumber)]%string.

Definition field_names (i : interface) : list string := map fst i.

(** The commands of the surface, and the interface each result is read
    through: the type argument of [invoke<T>] at its call site.
    [export_audio] is invoked without one. *)
Inductive command :=
  load_audio | compute_spectrogram | analyze_forensics | get_audio_samples
  | export_audio.

Definition invoke_result_type (c : command) : option interface :=
  match c with
  | load_audio => Some AudioInfo_decl
  | compute_spectrogram => Some SpectrogramData_decl
  | analyze_forensics => Some ForensicData_decl
  | get_audio_samples => Some AudioSamples_decl
  | export_audio => None
  end.

(** ** The playback buffer (Web Audio [AudioBuffer]) *)

(** An element of a [Float32Array]: a number, NaN, which is what a
    store of [undefined] leaves there, or an infinity. *)
Inductive f32 := Fnum (q : Q) | Fnan | Finf (negative : bool).

Definition f32_zero : f32 := Fnum 0.

(** The store of a number into a [Float32Array]: the number is rounded
    to the nearest float32, to an infinity when that is beyond the
    largest of them (from [2^128 - 2^103] on in magnitude). *)
Definition float32 (q : Q) : f32 :=
  let r := binary32 q in
  if Qle_bool (2 ^ 128) (Qabs r) then Finf (negb (Qle_bool 0 q)) else Fnum r.

(** [channelData[i] = v] where [v] is the result of indexing a number
    array: out of range the index expression is [undefined]. *)
Definition to_f32 (v : option Q) : f32 :=
  match v with Some q => float32 q | None => Fnan end.

Module AudioBuffer.
Record t := mk {
  numberOfChannels : nat;
  length : nat;
  sampleRate : Z;
  channelData : list (list f32)
}.
End AudioBuffer.

(** A call that returns a value or throws; also a settled promise,
    fulfilled with a value or rejected with a reason. *)
Inductive result (A : Type) := Ok (a : A) | Err (e : string).
Arguments Ok {A} a.
Arguments Err {A} e.

(** The Web Audio implementation of the browser is not part of the
    repository; [createAudioBuffer] depends on it through [createBuffer]
    alone.  [supports channels length sampleRate] says whether
    [createBuffer] takes its arguments: an implementation refuses a
    channel count of zero or above its limit, a length of zero, and a
    rate outside of its range.  [not_supported] is the exception it then
    throws, as [String(e)] shows it. *)
Module AudioContext.
Record t := mk {
  supports : nat -> nat -> Z -> bool;
  not_supported : string
}.

(** The least that an implementation has to support: up to 32 channels
    and rates from 8000 Hz to 96000 Hz. *)
Definition least : t := {|
  supports := fun channels len sample_rate =>
    (1 <=? channels)%nat && (channels <=? 32)%nat && (1 <=? len)%nat
    && (8000 <=? sample_rate)%Z && (sample_rate <=? 96000)%Z;
  not_supported := "NotSupportedError"
|}.
End AudioContext.

(** [audioContext.createBuffer(channels, length, sampleRate)]: one
    zero-filled [Float32Array] of [length] frames per channel, or the
    exception. *)
Definition createBuffer (audioContext : AudioContext.t)
    (channels len : nat) (sample_rate : Z) : result AudioBuffer.t :=
  if AudioContext.supports audioContext channels len sample_rate then
    Ok (AudioBuffer.mk channels len sample_rate
          (replicate channels (replicate len f32_zero)))
  else Err (AudioContext.not_supported audioContext).

(** The inner loop of [createAudioBuffer] (lines 646-648):
    [for (i = 0; i < numSamples; i++) channelData[i] = data[i * channels + ch]].
    A typed-array store outside the array is dropped, as is the list
    update. *)
Definition fillChannel (data : list Q) (channels ch numSamples : nat)
    (channelData : list f32) : list f32 :=
  foldl (fun cd i => <[i := to_f32 (data !! (i * channels + ch)%nat)]> cd)
        channelData (seq 0 numSamples).

(** The outer loop (lines 644-649).  [getChannelData(ch)] hands out the
    buffer's own array, so the stores of the inner loop land in the
    buffer: the filled channel is written back at [ch]. *)
Definition fillBuffer (data : list Q) (channels numSamples : nat)
    (chans : list (list f32)) : list (list f32) :=
  foldl (fun b ch =>
           match b !! ch with
           | Some channelData =>
               <[ch := fillChannel data channels ch numSamples channelData]> b
           | None => b
           end)
        chans (seq 0 channels).

(** Lines 639-649 of [createAudioBuffer]: the buffer built from the
    result of [get_audio_samples].  With [channels = 0] the quotient
    [data.length / channels] is infinite or not a number, which
    [createBuffer] receives as the length 0; the quotient of natural
    numbers is 0 there as well. *)
Definition buildAudioBuffer (audioContext : AudioContext.t)
    (samples : AudioSamples.t) : result AudioBuffer.t :=
  let data := AudioSamples.samples samples in
  let sample_rate := AudioSamples.sample_rate samples in
  let channels := AudioSamples.channels samples in
  let numSamples := (List.length data / channels)%nat in
  match createBuffer audioContext channels numSamples sample_rate with
  | Ok audioBuffer =>
      Ok (AudioBuffer.mk (AudioBuffer.numberOfChannels audioBuffer)
                         (AudioBuffer.length audioBuffer)
                         (AudioBuffer.sampleRate audioBuffer)
                         (fillBuffer data channels numSamples
                            (AudioBuffer.channelData audioBuffer)))
  | Err e => Err e
  end.

(** ** Component state: the module-level [let] variables (lines 40-238)

    The variables that hold Web Audio graph nodes, canvas bitmaps and
    lookup tables are left out: no function below branches on them.
    [ctx] records whether the 2-D context was obtained. *)

Module Canvas.
(* [width], [height]: the canvas size; [rect_left], [rect_top]: the
   origin of its bounding client rectangle. *)
Record t := mk { width : Q; height : Q; rect_left : Q; rect_top : Q }.
End Canvas.

Inductive filter_kind := highpass | lowpass.

Record UI := mkUI {
  canvas : option Canvas.t;
  ctx : bool;
  audioInfo : option AudioInfo.t;
  spectrogramData : option SpectrogramData.t;
  forensicData : option ForensicData.t;
  filePath : string;
  loading : bool;
  loadingStage : string;
  error : string;
  maxFreq : Q;
  audioBuffer : option AudioBuffer.t;
  isPlaying : bool;
  dynamicsLow : Q;
  dynamicsHigh : Q;
  saturationAmount : Q;
  currentTime : Q;
  pausedAt : Q;
  selectionStart : option Q;
  selectionEnd : option Q;
  isSelecting : bool;
  exportLoading : bool;
  highPassFreq : Q;
  lowPassFreq : Q;
  draggingFilter : option filter_kind;
  filterHover : option filter_kind;
  spectrogramNeedsRedraw : bool;
  cachedMinDb : Q;
  cachedMaxDb : Q
}.

(** Assignment to one variable: every other variable keeps its value. *)
Definition set_canvas (v : option Canvas.t) (u : UI) : UI :=
  let 'mkUI _ ctx_ audioInfo_ spectrogramData_ forensicData_ filePath_
      loading_ loadingStage_ error_ maxFreq_ audioBuffer_ isPlaying_
      dynamicsLow_ dynamicsHigh_ saturationAmount_ currentTime_ pausedAt_
      selectionStart_ selectionEnd_ isSelecting_ exportLoading_ highPassFreq_
      lowPassFreq_ draggingFilter_ filterHover_ spectrogramNeedsRedraw_
      cachedMinDb_ cachedMaxDb_ := u in
  mkUI v ctx_ audioInfo_ spectrogramData_ forensicData_ filePath_ loading_
    loadingStage_ error_ maxFreq_ audioBuffer_ isPlaying_ dynamicsLow_
    dynamicsHigh_ saturationAmount_ currentTime_ pausedAt_ selectionStart_
    selectionEnd_ isSelecting_ exportLoading_ highPassFreq_ lowPassFreq_
    draggingFilter_ filterHover_ spectrogramNeedsRedraw_ cachedMinDb_
    cachedMaxDb_.
Definition set_ctx (v : bool) (u : UI) : UI :=
  let 'mkUI canvas_ _ audioInfo_ spectrogramData_ forensicData_ filePath_
      loading_ loadingStage_ error_ maxFreq_ audioBuffer_ isPlaying_
      dynamicsLow_ dynamicsHigh_ saturationAmount_ currentTime_ pausedAt_
      selectionStart_ selectionEnd_ isSelecting_ exportLoading_ highPassFreq_
      lowPassFreq_ draggingFilter_ filterHover_ spectrogramNeedsRedraw_
      cachedMinDb_ cachedMaxDb_ := u in
  mkUI canvas_ v audioInfo_ spectrogramData_ forensicData_ filePath_ loading_
    loadingStage_ error_ maxFreq_ audioBuffer_ isPlaying_ dynamicsLow_
    dynamicsHigh_ saturationAmount_ currentTime_ pausedAt_ selectionStart_
    selectionEnd_ isSelecting_ exportLoading_ highPassFreq_ lowPassFreq_
    draggingFilter_ filterHover_ spectrogramNeedsRedraw_ cachedMinDb_
    cachedMaxDb_.
Definition set_audioInfo (v : option AudioInfo.t) (u : UI) : UI :=
  let 'mkUI canvas_ ctx_ _ spectrogramData_ forensicData_ filePath_ loading_
      loadingStage_ error_ maxFreq_ audioBuffer_ isPlaying_ dynamicsLow_
      dynamicsHigh_ saturationAmount_ currentTime_ pausedAt_ selectionStart_
      selectionEnd_ isSelecting_ exportLoading_ highPassFreq_ lowPassFreq_
      draggingFilter_ filterHover_ spectrogramNeedsRedraw_ cachedMinDb_
      cachedMaxDb_ := u in
  mkUI canvas_ ctx_ v spectrogramData_ forensicData_ filePath_ loading_
    loadingStage_ error_ maxFreq_ audioBuffer_ isPlaying_ dynamicsLow_
    dynamicsHigh_ saturationAmount_ currentTime_ pausedAt_ selectionStart_
    selectionEnd_ isSelecting_ exportLoading_ highPassFreq_ lowPassFreq_
    draggingFilter_ filterHover_ spectrogramNeedsRedraw_ cachedMinDb_
    cachedMaxDb_.
Definition set_spectrogramData (v : option SpectrogramData.t) (u : UI) : UI :=
  let 'mkUI canvas_ ctx_ audioInfo_ _ forensicData_ filePath_ loading_
      loadingStage_ error_ maxFreq_ audioBuffer_ isPlaying_ dynamicsLow_
      dynamicsHigh_ saturationAmount_ currentTime_ pausedAt_ selectionStart_
      selectionEnd_ isSelecting_ exportLoading_ highPassFreq_ lowPassFreq_
      draggingFilter_ filterHover_ spectrogramNeedsRedraw_ cachedMinDb_
      cachedMaxDb_ := u in
  mkUI canvas_ ctx_ audioInfo_ v forensicData_ filePath_ loading_
    loadingStage_ error_ maxFreq_ audioBuffer_ isPlaying_ dynamicsLow_
    dynamicsHigh_ saturationAmount_ currentTime_ pausedAt_ selectionStart_
    selectionEnd_ isSelecting_ exportLoading_ highPassFreq_ lowPassFreq_
    draggingFilter_ filterHover_ spectrogramNeedsRedraw_ cachedMinDb_
    cachedMaxDb_.
Definition set_forensicData (v : option ForensicData.t) (u : UI) : UI :=
  let 'mkUI canvas_ ctx_ audioInfo_ spectrogramData_ _ filePath_ loading_
      loadingStage_ error_ maxFreq_ audioBuffer_ isPlaying_ dynamicsLow_
      dynamicsHigh_ saturationAmount_ currentTime_ pausedAt_ selectionStart_
      selectionEnd_ isSelecting_ exportLoading_ highPassFreq_ lowPassFreq_
      draggingFilter_ filterHover_ spectrogramNeedsRedraw_ cachedMinDb_
      cachedMaxDb_ := u in
  mkUI canvas_ ctx_ audioInfo_ spectrogramData_ v filePath_ loading_
    loadingStage_ error_ maxFreq_ audioBuffer_ isPlaying_ dynamicsLow_
    dynamicsHigh_ saturationAmount_ currentTime_ pausedAt_ selectionStart_
    selectionEnd_ isSelecting_ exportLoading_ highPassFreq_ lowPassFreq_
    draggingFilter_ filterHover_ spectrogramNeedsRedraw_ cachedMinDb_
    cachedMaxDb_.
Definition set_filePath (v : string) (u : UI) : UI :=
  let 'mkUI canvas_ ctx_ audioInfo_ spectrogramData_ forensicData_ _ loading_
      loadingStage_ error_ maxFreq_ audioBuffer_ isPlaying_ dynamicsLow_
      dynamicsHigh_ saturationAmount_ currentTime_ pausedAt_ selectionStart_
      selectionEnd_ isSelecting_ exportLoading_ highPassFreq_ lowPassFreq_
      draggingFilter_ filterHover_ spectrogramNeedsRedraw_ cachedMinDb_
      cachedMaxDb_ := u in
  mkUI canvas_ ctx_ audioInfo_ spectrogramData_ forensicData_ v loading_
    loadingStage_ error_ maxFreq_ audioBuffer_ isPlaying_ dynamicsLow_
    dynamicsHigh_ saturationAmount_ currentTime_ pausedAt_ selectionStart_
    selectionEnd_ isSelecting_ exportLoading_ highPassFreq_ lowPassFreq_
    draggingFilter_ filterHover_ spectrogramNeedsRedraw_ cachedMinDb_
    cachedMaxDb_.
Definition set_loading (v : bool) (u : UI) : UI :=
  let 'mkUI canvas_ ctx_ audioInfo_ spectrogramData_ forensicData_ filePath_ _
      loadingStage_ error_ maxFreq_ audioBuffer_ isPlaying_ dynamicsLow_
      dynamicsHigh_ saturationAmount_ currentTime_ pausedAt_ selectionStart_
      selectionEnd_ isSelecting_ exportLoading_ highPassFreq_ lowPassFreq_
      draggingFilter_ filterHover_ spectrogramNeedsRedraw_ cachedMinDb_
      cachedMaxDb_ := u in
  mkUI canvas_ ctx_ audioInfo_ spectrogramData_ forensicData_ filePath_ v
    loadingStage_ error_ maxFreq_ audioBuffer_ isPlaying_ dynamicsLow_
    dynamicsHigh_ saturationAmount_ currentTime_ pausedAt_ selectionStart_
    selectionEnd_ isSelecting_ exportLoading_ highPassFreq_ lowPassFreq_
    draggingFilter_ filterHover_ spectrogramNeedsRedraw_ cachedMinDb_
    cachedMaxDb_.
Definition set_loadingStage (v : string) (u : UI) : UI :=
  let 'mkUI canvas_ ctx_ audioInfo_ spectrogramData_ forensicData_ filePath_
      loading_ _ error_ maxFreq_ audioBuffer_ isPlaying_ dynamicsLow_
      dynamicsHigh_ saturationAmount_ currentTime_ pausedAt_ selectionStart_
      selectionEnd_ isSelecting_ exportLoading_ highPassFreq_ lowPassFreq_
      draggingFilter_ filterHover_ spectrogramNeedsRedraw_ cachedMinDb_
      cachedMaxDb_ := u in
  mkUI canvas_ ctx_ audioInfo_ spectrogramData_ forensicData_ filePath_
    loading_ v error_ maxFreq_ audioBuffer_ isPlaying_ dynamicsLow_
    dynamicsHigh_ saturationAmount_ currentTime_ pausedAt_ selectionStart_
    selectionEnd_ isSelecting_ exportLoading_ highPassFreq_ lowPassFreq_
    draggingFilter_ filterHover_ spectrogramNeedsRedraw_ cachedMinDb_
    cachedMaxDb_.
Definition set_error (v : string) (u : UI) : UI :=
  let 'mkUI canvas_ ctx_ audioInfo_ spectrogramData_ forensicData_ filePath_
      loading_ loadingStage_ _ maxFreq_ audioBuffer_ isPlaying_ dynamicsLow_
      dynamicsHigh_ saturationAmount_ currentTime_ pausedAt_ selectionStart_
      selectionEnd_ isSelecting_ exportLoading_ highPassFreq_ lowPassFreq_
      draggingFilter_ filterHover_ spectrogramNeedsRedraw_ cachedMinDb_
      cachedMaxDb_ := u in
  mkUI canvas_ ctx_ audioInfo_ spectrogramData_ forensicData_ filePath_
    loading_ loadingStage_ v maxFreq_ audioBuffer_ isPlaying_ dynamicsLow_
    dynamicsHigh_ saturationAmount_ currentTime_ pausedAt_ selectionStart_
    selectionEnd_ isSelecting_ exportLoading_ highPassFreq_ lowPassFreq_
    draggingFilter_ filterHover_ spectrogramNeedsRedraw_ cachedMinDb_
    cachedMaxDb_.
Definition set_maxFreq (v : Q) (u : UI) : UI :=
  let 'mkUI canvas_ ctx_ audioInfo_ spectrogramData_ forensicData_ filePath_
      loading_ loadingStage_ error_ _ audioBuffer_ isPlaying_ dynamicsLow_
      dynamicsHigh_ saturationAmount_ currentTime_ pausedAt_ selectionStart_
      selectionEnd_ isSelecting_ exportLoading_ highPassFreq_ lowPassFreq_
      draggingFilter_ filterHover_ spectrogramNeedsRedraw_ cachedMinDb_
      cachedMaxDb_ := u in
  mkUI canvas_ ctx_ audioInfo_ spectrogramData_ forensicData_ filePath_
    loading_ loadingStage_ error_ v audioBuffer_ isPlaying_ dynamicsLow_
    dynamicsHigh_ saturationAmount_ currentTime_ pausedAt_ selectionStart_
    selectionEnd_ isSelecting_ exportLoading_ highPassFreq_ lowPassFreq_
    draggingFilter_ filterHover_ spectrogramNeedsRedraw_ cachedMinDb_
    cachedMaxDb_.
Definition set_audioBuffer (v : option AudioBuffer.t) (u : UI) : UI :=
  let 'mkUI canvas_ ctx_ audioInfo_ spectrogramData_ forensicData_ filePath_
      loading_ loadingStage_ error_ maxFreq_ _ isPlaying_ dynamicsLow_
      dynamicsHigh_ saturationAmount_ currentTime_ pausedAt_ selectionStart_
      selectionEnd_ isSelecting_ exportLoading_ highPassFreq_ lowPassFreq_
      draggingFilter_ filterHover_ spectrogramNeedsRedraw_ cachedMinDb_
      cachedMaxDb_ := u in
  mkUI canvas_ ctx_ audioInfo_ spectrogramData_ forensicData_ filePath_
    loading_ loadingStage_ error_ maxFreq_ v isPlaying_ dynamicsLow_
    dynamicsHigh_ saturationAmount_ currentTime_ pausedAt_ selectionStart_
    selectionEnd_ isSelecting_ exportLoading_ highPassFreq_ lowPassFreq_
    draggingFilter_ filterHover_ spectrogramNeedsRedraw_ cachedMinDb_
    cachedMaxDb_.
Definition set_isPlaying (v : bool) (u : UI) : UI :=
  let 'mkUI canvas_ ctx_ audioInfo_ spectrogramData_ forensicData_ filePath_
      loading_ loadingStage_ error_ maxFreq_ audioBuffer_ _ dynamicsLow_
      dynamicsHigh_ saturationAmount_ currentTime_ pausedAt_ selectionStart_
      selectionEnd_ isSelecting_ exportLoading_ highPassFreq_ lowPassFreq_
      draggingFilter_ filterHover_ spectrogramNeedsRedraw_ cachedMinDb_
      cachedMaxDb_ := u in
  mkUI canvas_ ctx_ audioInfo_ spectrogramData_ forensicData_ filePath_
    loading_ loadingStage_ error_ maxFreq_ audioBuffer_ v dynamicsLow_
    dynamicsHigh_ saturationAmount_ currentTime_ pausedAt_ selectionStart_
    selectionEnd_ isSelecting_ exportLoading_ highPassFreq_ lowPassFreq_
    draggingFilter_ filterHover_ spectrogramNeedsRedraw_ cachedMinDb_
    cachedMaxDb_.
Definition set_dynamicsLow (v : Q) (u : UI) : UI :=
  let 'mkUI canvas_ ctx_ audioInfo_ spectrogramData_ forensicData_ filePath_
      loading_ loadingStage_ error_ maxFreq_ audioBuffer_ isPlaying_ _
      dynamicsHigh_ saturationAmount_ currentTime_ pausedAt_ selectionStart_
      selectionEnd_ isSelecting_ exportLoading_ highPassFreq_ lowPassFreq_
      draggingFilter_ filterHover_ spectrogramNeedsRedraw_ cachedMinDb_
      cachedMaxDb_ := u in
  mkUI canvas_ ctx_ audioInfo_ spectrogramData_ forensicData_ filePath_
    loading_ loadingStage_ error_ maxFreq_ audioBuffer_ isPlaying_ v
    dynamicsHigh_ saturationAmount_ currentTime_ pausedAt_ selectionStart_
    selectionEnd_ isSelecting_ exportLoading_ highPassFreq_ lowPassFreq_
    draggingFilter_ filterHover_ spectrogramNeedsRedraw_ cachedMinDb_
    cachedMaxDb_.
Definition set_dynamicsHigh (v : Q) (u : UI) : UI :=
  let 'mkUI canvas_ ctx_ audioInfo_ spectrogramData_ forensicData_ filePath_
      loading_ loadingStage_ error_ maxFreq_ audioBuffer_ isPlaying_
      dynamicsLow_ _ saturationAmount_ currentTime_ pausedAt_ selectionStart_
      selectionEnd_ isSelecting_ exportLoading_ highPassFreq_ lowPassFreq_
      draggingFilter_ filterHover_ spectrogramNeedsRedraw_ cachedMinDb_
      cachedMaxDb_ := u in
  mkUI canvas_ ctx_ audioInfo_ spectrogramData_ forensicData_ filePath_
    loading_ loadingStage_ error_ maxFreq_ audioBuffer_ isPlaying_
    dynamicsLow_ v saturationAmount_ currentTime_ pausedAt_ selectionStart_
    selectionEnd_ isSelecting_ exportLoading_ highPassFreq_ lowPassFreq_
    draggingFilter_ filterHover_ spectrogramNeedsRedraw_ cachedMinDb_
    cachedMaxDb_.
Definition set_saturationAmount (v : Q) (u : UI) : UI :=
  let 'mkUI canvas_ ctx_ audioInfo_ spectrogramData_ forensicData_ filePath_
      loading_ loadingStage_ error_ maxFreq_ audioBuffer_ isPlaying_
      dynamicsLow_ dynamicsHigh_ _ currentTime_ pausedAt_ selectionStart_
      selectionEnd_ isSelecting_ exportLoading_ highPassFreq_ lowPassFreq_
      draggingFilter_ filterHover_ spectrogramNeedsRedraw_ cachedMinDb_
      cachedMaxDb_ := u in
  mkUI canvas_ ctx_ audioInfo_ spectrogramData_ forensicData_ filePath_
    loading_ loadingStage_ error_ maxFreq_ audioBuffer_ isPlaying_
    dynamicsLow_ dynamicsHigh_ v currentTime_ pausedAt_ selectionStart_
    selectionEnd_ isSelecting_ exportLoading_ highPassFreq_ lowPassFreq_
    draggingFilter_ filterHover_ spectrogramNeedsRedraw_ cachedMinDb_
    cachedMaxDb_.
Definition set_currentTime (v : Q) (u : UI) : UI :=
  let 'mkUI canvas_ ctx_ audioInfo_ spectrogramData_ forensicData_ filePath_
      loading_ loadingStage_ error_ maxFreq_ audioBuffer_ isPlaying_
      dynamicsLow_ dynamicsHigh_ saturationAmount_ _ pausedAt_ selectionStart_
      selectionEnd_ isSelecting_ exportLoading_ highPassFreq_ lowPassFreq_
      draggingFilter_ filterHover_ spectrogramNeedsRedraw_ cachedMinDb_
      cachedMaxDb_ := u in
  mkUI canvas_ ctx_ audioInfo_ spectrogramData_ forensicData_ filePath_
    loading_ loadingStage_ error_ maxFreq_ audioBuffer_ isPlaying_
    dynamicsLow_ dynamicsHigh_ saturationAmount_ v pausedAt_ selectionStart_
    selectionEnd_ isSelecting_ exportLoading_ highPassFreq_ lowPassFreq_
    draggingFilter_ filterHover_ spectrogramNeedsRedraw_ cachedMinDb_
    cachedMaxDb_.
Definition set_pausedAt (v : Q) (u : UI) : UI :=
  let 'mkUI canvas_ ctx_ audioInfo_ spectrogramData_ forensicData_ filePath_
      loading_ loadingStage_ error_ maxFreq_ audioBuffer_ isPlaying_
      dynamicsLow_ dynamicsHigh_ saturationAmount_ currentTime_ _
      selectionStart_ selectionEnd_ isSelecting_ exportLoading_ highPassFreq_
      lowPassFreq_ draggingFilter_ filterHover_ spectrogramNeedsRedraw_
      cachedMinDb_ cachedMaxDb_ := u in
  mkUI canvas_ ctx_ audioInfo_ spectrogramData_ forensicData_ filePath_
    loading_ loadingStage_ error_ maxFreq_ audioBuffer_ isPlaying_
    dynamicsLow_ dynamicsHigh_ saturationAmount_ currentTime_ v
    selectionStart_ selectionEnd_ isSelecting_ exportLoading_ highPassFreq_
    lowPassFreq_ draggingFilter_ filterHover_ spectrogramNeedsRedraw_
    cachedMinDb_ cachedMaxDb_.
Definition set_selectionStart (v : option Q) (u : UI) : UI :=
  let 'mkUI canvas_ ctx_ audioInfo_ spectrogramData_ forensicData_ filePath_
      loading_ loadingStage_ error_ maxFreq_ audioBuffer_ isPlaying_
      dynamicsLow_ dynamicsHigh_ saturationAmount_ currentTime_ pausedAt_ _
      selectionEnd_ isSelecting_ exportLoading_ highPassFreq_ lowPassFreq_
      draggingFilter_ filterHover_ spectrogramNeedsRedraw_ cachedMinDb_
      cachedMaxDb_ := u in
  mkUI canvas_ ctx_ audioInfo_ spectrogramData_ forensicData_ filePath_
    loading_ loadingStage_ error_ maxFreq_ audioBuffer_ isPlaying_
    dynamicsLow_ dynamicsHigh_ saturationAmount_ currentTime_ pausedAt_ v
    selectionEnd_ isSelecting_ exportLoading_ highPassFreq_ lowPassFreq_
    draggingFilter_ filterHover_ spectrogramNeedsRedraw_ cachedMinDb_
    cachedMaxDb_.
Definition set_selectionEnd (v : option Q) (u : UI) : UI :=
  let 'mkUI canvas_ ctx_ audioInfo_ spectrogramData_ forensicData_ filePath_
      loading_ loadingStage_ error_ maxFreq_ audioBuffer_ isPlaying_
      dynamicsLow_ dynamicsHigh_ saturationAmount_ currentTime_ pausedAt_
      selectionStart_ _ isSelecting_ exportLoading_ highPassFreq_ lowPassFreq_
      draggingFilter_ filterHover_ spectrogramNeedsRedraw_ cachedMinDb_
      cachedMaxDb_ := u in
  mkUI canvas_ ctx_ audioInfo_ spectrogramData_ forensicData_ filePath_
    loading_ loadingStage_ error_ maxFreq_ audioBuffer_ isPlaying_
    dynamicsLow_ dynamicsHigh_ saturationAmount_ currentTime_ pausedAt_
    selectionStart_ v isSelecting_ exportLoading_ highPassFreq_ lowPassFreq_
    draggingFilter_ filterHover_ spectrogramNeedsRedraw_ cachedMinDb_
    cachedMaxDb_.
Definition set_isSelecting (v : bool) (u : UI) : UI :=
  let 'mkUI canvas_ ctx_ audioInfo_ spectrogramData_ forensicData_ filePath_
      loading_ loadingStage_ error_ maxFreq_ audioBuffer_ isPlaying_
      dynamicsLow_ dynamicsHigh_ saturationAmount_ currentTime_ pausedAt_
      selectionStart_ selectionEnd_ _ exportLoading_ highPassFreq_
      lowPassFreq_ draggingFilter_ filterHover_ spectrogramNeedsRedraw_
      cachedMinDb_ cachedMaxDb_ := u in
  mkUI canvas_ ctx_ audioInfo_ spectrogramData_ forensicData_ filePath_
    loading_ loadingStage_ error_ maxFreq_ audioBuffer_ isPlaying_
    dynamicsLow_ dynamicsHigh_ saturationAmount_ currentTime_ pausedAt_
    selectionStart_ selectionEnd_ v exportLoading_ highPassFreq_ lowPassFreq_
    draggingFilter_ filterHover_ spectrogramNeedsRedraw_ cachedMinDb_
    cachedMaxDb_.
Definition set_exportLoading (v : bool) (u : UI) : UI :=
  let 'mkUI canvas_ ctx_ audioInfo_ spectrogramData_ forensicData_ filePath_
      loading_ loadingStage_ error_ maxFreq_ audioBuffer_ isPlaying_
      dynamicsLow_ dynamicsHigh_ saturationAmount_ currentTime_ pausedAt_
      selectionStart_ selectionEnd_ isSelecting_ _ highPassFreq_ lowPassFreq_
      draggingFilter_ filterHover_ spectrogramNeedsRedraw_ cachedMinDb_
      cachedMaxDb_ := u in
  mkUI canvas_ ctx_ audioInfo_ spectrogramData_ forensicData_ filePath_
    loading_ loadingStage_ error_ maxFreq_ audioBuffer_ isPlaying_
    dynamicsLow_ dynamicsHigh_ saturationAmount_ currentTime_ pausedAt_
    selectionStart_ selectionEnd_ isSelecting_ v highPassFreq_ lowPassFreq_
    draggingFilter_ filterHover_ spectrogramNeedsRedraw_ cachedMinDb_
    cachedMaxDb_.
Definition set_highPassFreq (v : Q) (u : UI) : UI :=
  let 'mkUI canvas_ ctx_ audioInfo_ spectrogramData_ forensicData_ filePath_
      loading_ loadingStage_ error_ maxFreq_ audioBuffer_ isPlaying_
      dynamicsLow_ dynamicsHigh_ saturationAmount_ currentTime_ pausedAt_
      selectionStart_ selectionEnd_ isSelecting_ exportLoading_ _ lowPassFreq_
      draggingFilter_ filterHover_ spectrogramNeedsRedraw_ cachedMinDb_
      cachedMaxDb_ := u in
  mkUI canvas_ ctx_ audioInfo_ spectrogramData_ forensicData_ filePath_
    loading_ loadingStage_ error_ maxFreq_ audioBuffer_ isPlaying_
    dynamicsLow_ dynamicsHigh_ saturationAmount_ currentTime_ pausedAt_
    selectionStart_ selectionEnd_ isSelecting_ exportLoading_ v lowPassFreq_
    draggingFilter_ filterHover_ spectrogramNeedsRedraw_ cachedMinDb_
    cachedMaxDb_.
Definition set_lowPassFreq (v : Q) (u : UI) : UI :=
  let 'mkUI canvas_ ctx_ audioInfo_ spectrogramData_ forensicData_ filePath_
      loading_ loadingStage_ error_ maxFreq_ audioBuffer_ isPlaying_
      dynamicsLow_ dynamicsHigh_ saturationAmount_ currentTime_ pausedAt_
      selectionStart_ selectionEnd_ isSelecting_ exportLoading_ highPassFreq_
      _ draggingFilter_ filterHover_ spectrogramNeedsRedraw_ cachedMinDb_
      cachedMaxDb_ := u in
  mkUI canvas_ ctx_ audioInfo_ spectrogramData_ forensicData_ filePath_
    loading_ loadingStage_ error_ maxFreq_ audioBuffer_ isPlaying_
    dynamicsLow_ dynamicsHigh_ saturationAmount_ currentTime_ pausedAt_
    selectionStart_ selectionEnd_ isSelecting_ exportLoading_ highPassFreq_ v
    draggingFilter_ filterHover_ spectrogramNeedsRedraw_ cachedMinDb_
    cachedMaxDb_.
Definition set_draggingFilter (v : option filter_kind) (u : UI) : UI :=
  let 'mkUI canvas_ ctx_ audioInfo_ spectrogramData_ forensicData_ filePath_
      loading_ loadingStage_ error_ maxFreq_ audioBuffer_ isPlaying_
      dynamicsLow_ dynamicsHigh_ saturationAmount_ currentTime_ pausedAt_
      selectionStart_ selectionEnd_ isSelecting_ exportLoading_ highPassFreq_
      lowPassFreq_ _ filterHover_ spectrogramNeedsRedraw_ cachedMinDb_
      cachedMaxDb_ := u in
  mkUI canvas_ ctx_ audioInfo_ spectrogramData_ forensicData_ filePath_
    loading_ loadingStage_ error_ maxFreq_ audioBuffer_ isPlaying_
    dynamicsLow_ dynamicsHigh_ saturationAmount_ currentTime_ pausedAt_
    selectionStart_ selectionEnd_ isSelecting_ exportLoading_ highPassFreq_
    lowPassFreq_ v filterHover_ spectrogramNeedsRedraw_ cachedMinDb_
    cachedMaxDb_.
Definition set_filterHover (v : option filter_kind) (u : UI) : UI :=
  let 'mkUI canvas_ ctx_ audioInfo_ spectrogramData_ forensicData_ filePath_
      loading_ loadingStage_ error_ maxFreq_ audioBuffer_ isPlaying_
      dynamicsLow_ dynamicsHigh_ saturationAmount_ currentTime_ pausedAt_
      selectionStart_ selectionEnd_ isSelecting_ exportLoading_ highPassFreq_
      lowPassFreq_ draggingFilter_ _ spectrogramNeedsRedraw_ cachedMinDb_
      cachedMaxDb_ := u in
  mkUI canvas_ ctx_ audioInfo_ spectrogramData_ forensicData_ filePath_
    loading_ loadingStage_ error_ maxFreq_ audioBuffer_ isPlaying_
    dynamicsLow_ dynamicsHigh_ saturationAmount_ currentTime_ pausedAt_
    selectionStart_ selectionEnd_ isSelecting_ exportLoading_ highPassFreq_
    lowPassFreq_ draggingFilter_ v spectrogramNeedsRedraw_ cachedMinDb_
    cachedMaxDb_.
Definition set_spectrogramNeedsRedraw (v : bool) (u : UI) : UI :=
  let 'mkUI canvas_ ctx_ audioInfo_ spectrogramData_ forensicData_ filePath_
      loading_ loadingStage_ error_ maxFreq_ audioBuffer_ isPlaying_
      dynamicsLow_ dynamicsHigh_ saturationAmount_ currentTime_ pausedAt_
      selectionStart_ selectionEnd_ isSelecting_ exportLoading_ highPassFreq_
      lowPassFreq_ draggingFilter_ filterHover_ _ cachedMinDb_ cachedMaxDb_ := u in
  mkUI canvas_ ctx_ audioInfo_ spectrogramData_ forensicData_ filePath_
    loading_ loadingStage_ error_ maxFreq_ audioBuffer_ isPlaying_
    dynamicsLow_ dynamicsHigh_ saturationAmount_ currentTime_ pausedAt_
    selectionStart_ selectionEnd_ isSelecting_ exportLoading_ highPassFreq_
    lowPassFreq_ draggingFilter_ filterHover_ v cachedMinDb_ cachedMaxDb_.
Definition set_cachedMinDb (v : Q) (u : UI) : UI :=
  let 'mkUI canvas_ ctx_ audioInfo_ spectrogramData_ forensicData_ filePath_
      loading_ loadingStage_ error_ maxFreq_ audioBuffer_ isPlaying_
      dynamicsLow_ dynamicsHigh_ saturationAmount_ currentTime_ pausedAt_
      selectionStart_ selectionEnd_ isSelecting_ exportLoading_ highPassFreq_
      lowPassFreq_ draggingFilter_ filterHover_ spectrogramNeedsRedraw_ _
      cachedMaxDb_ := u in
  mkUI canvas_ ctx_ audioInfo_ spectrogramData_ forensicData_ filePath_
    loading_ loadingStage_ error_ maxFreq_ audioBuffer_ isPlaying_
    dynamicsLow_ dynamicsHigh_ saturationAmount_ currentTime_ pausedAt_
    selectionStart_ selectionEnd_ isSelecting_ exportLoading_ highPassFreq_
    lowPassFreq_ draggingFilter_ filterHover_ spectrogramNeedsRedraw_ v
    cachedMaxDb_.
Definition set_cachedMaxDb (v : Q) (u : UI) : UI :=
  let 'mkUI canvas_ ctx_ audioInfo_ spectrogramData_ forensicData_ filePath_
      loading_ loadingStage_ error_ maxFreq_ audioBuffer_ isPlaying_
      dynamicsLow_ dynamicsHigh_ saturationAmount_ currentTime_ pausedAt_
      selectionStart_ selectionEnd_ isSelecting_ exportLoading_ highPassFreq_
      lowPassFreq_ draggingFilter_ filterHover_ spectrogramNeedsRedraw_
      cachedMinDb_ _ := u in
  mkUI canvas_ ctx_ audioInfo_ spectrogramData_ forensicData_ filePath_
    loading_ loadingStage_ error_ maxFreq_ audioBuffer_ isPlaying_
    dynamicsLow_ dynamicsHigh_ saturationAmount_ currentTime_ pausedAt_
    selectionStart_ selectionEnd_ isSelecting_ exportLoading_ highPassFreq_
    lowPassFreq_ draggingFilter_ filterHover_ spectrogramNeedsRedraw_
    cachedMinDb_ v.

(** The initial values of the declarations. *)
Definition initial_UI : UI := {|
  canvas := None; ctx := false;
  audioInfo := None; spectrogramData := None; forensicData := None;
  filePath := ""; loading := false; loadingStage := ""; error := "";
  maxFreq := 8000;
  audioBuffer := None; isPlaying := false;
  dynamicsLow := -100; dynamicsHigh := 0;
  saturationAmount := 3 # 10;
  currentTime := 0; pausedAt := 0;
  selectionStart := None; selectionEnd := None;
  isSelecting := false; exportLoading := false;
  highPassFreq := 100; lowPassFreq := 8000;
  draggingFilter := None; filterHover := None;
  spectrogramNeedsRedraw := true;
  cachedMinDb := 0; cachedMaxDb := 0
|}.

(** ** The host: dialogs and the command surface *)

Module DialogFilter.
Record t := mk { name : string; extensions : list string }.
End DialogFilter.

Module OpenOptions.
Record t := mk { multiple : bool; filters : list DialogFilter.t }.
End OpenOptions.

Module SaveOptions.
Record t := mk { filters : list DialogFilter.t; defaultPath : string }.
End SaveOptions.

(** What the component needs from its environment.  [W] is the state of
    everything outside the component (the dialogs' user, the engine).
    While a function waits for an answer, the user goes on using the
    window, and the handlers that run in the meantime may assign to any
    variable of the component: [host_meanwhile w u] is the component
    state they leave, from the state [u] at the [await], when the answer
    arrives in the world [w].  [host_audioContext] is the Web Audio
    implementation of the browser. *)
Class Host (W : Type) := {
  host_audioContext : AudioContext.t;
  host_meanwhile : W -> UI -> UI;
  host_open : OpenOptions.t -> W -> option string * W;
  host_save : SaveOptions.t -> W -> option string * W;
  host_load_audio : string -> W -> result AudioInfo.t * W;
  host_compute_spectrogram : Q -> W -> result SpectrogramData.t * W;
  host_analyze_forensics : W -> result ForensicData.t * W;
  host_get_audio_samples : W -> result AudioSamples.t * W;
  host_export_audio : string -> Q -> Q -> W -> result unit * W
}.

(** The requests a function issues, as written at the call site: the
    options object of a dialog, or a command name with its argument
    object. *)
Inductive arg := ArgStr (s : string) | ArgNum (q : Q).

Inductive request :=
  | ReqOpen (o : OpenOptions.t)
  | ReqSave (o : SaveOptions.t)
  | ReqInvoke (c : command) (args : list (string * arg)).

#[global] Instance command_eq_dec : EqDecision command.
Proof. solve_decision. Defined.


(** ** Asynchronous functions

    A computation reads and writes the component state, talks to the
    host, and either returns or throws; next to its outcome and the
    state it leaves, it yields the requests it issued, in order.
    Assignments made before a throw stay made, as in JavaScript.  Between
    two [await]s a function runs alone; at an [await] other handlers may
    run and change the component state ([host_meanwhile]). *)

Record St (W : Type) := mkSt { ui : UI; world : W }.
Arguments mkSt {W} ui world.
Arguments ui {W} s.
Arguments world {W} s.

Inductive outcome (A : Type) := Return (a : A) | Throw (e : string).
Arguments Return {A} a.
Arguments Throw {A} e.

Definition M (W A : Type) : Type := St W -> outcome A * St W * list request.

(** The requests issued before a continuation come first. *)
Definition prepend {W A} (l : list request)
    (r : outcome A * St W * list request) : outcome A * St W * list request :=
  let '(o, s, l') := r in (o, s, l ++ l').

#[global] Instance M_ret W : MRet (M W) := fun A a s => (Return a, s, []).

#[global] Instance M_bind W : MBind (M W) := fun A B f m s =>
  match m s with
  | (Return a, s', l) => prepend l (f a s')
  | (Throw e, s', l) => (Throw e, s', l)
  end.

(** [try { body } catch (e) { handler }] *)
Definition try_catch {W A} (body : M W A) (handler : string -> M W A) : M W A :=
  fun s => match body s with
           | (Return a, s', l) => (Return a, s', l)
           | (Throw e, s', l) => prepend l (handler e s')
           end.

(** Read a variable; assign to a variable (or run a synchronous function
    of the component for its effect on the variables). *)
Definition read {W A} (f : UI -> A) : M W A := fun s => (Return (f (ui s)), s, []).
Definition assign {W} (f : UI -> UI) : M W unit :=
  fun s => (Return tt, mkSt (f (ui s)) (world s), []).

(** [throw e]; also a call of the platform that throws. *)
Definition throw {W A} (e : string) : M W A := fun s => (Throw e, s, []).

(** One interaction with the host: issue the request, let the host
    answer and move on, and resume in the component state that the
    handlers run in the meantime have left; a rejection is thrown at the
    [await]. *)
Definition ask {W A} (meanwhile : W -> UI -> UI) (r : request)
    (h : W -> option A * W) : M W (option A) :=
  fun s => let '(a, w) := h (world s) in
           (Return a, mkSt (meanwhile w (ui s)) w, [r]).

Definition await {W A} (meanwhile : W -> UI -> UI) (r : request)
    (h : W -> result A * W) : M W A :=
  fun s => let '(a, w) := h (world s) in
           match a with
           | Ok v => (Return v, mkSt (meanwhile w (ui s)) w, [r])
           | Err e => (Throw e, mkSt (meanwhile w (ui s)) w, [r])
           end.

(** The three components of a run. *)
Definition outcome_of {W A} (m : M W A) (s : St W) : outcome A := fst (fst (m s)).
Definition state_after {W A} (m : M W A) (s : St W) : St W := snd (fst (m s)).
Definition issued {W A} (m : M W A) (s : St W) : list request := snd (m s).

Section Requests.
Context {W : Type} `{Host W}.

Definition open (o : OpenOptions.t) : M W (option string) :=
  ask host_meanwhile (ReqOpen o) (host_open o).

Definition save (o : SaveOptions.t) : M W (option string) :=
  ask host_meanwhile (ReqSave o) (host_save o).

Definition invoke_load_audio (path : string) : M W AudioInfo.t :=
  await host_meanwhile (ReqInvoke load_audio [("path", ArgStr path)]%string)
        (host_load_audio path).

Definition invoke_compute_spectrogram (maxFreq : Q) : M W SpectrogramData.t :=
  await host_meanwhile (ReqInvoke compute_spectrogram [("maxFreq", ArgNum maxFreq)]%string)
        (host_compute_spectrogram maxFreq).

Definition invoke_analyze_forensics : M W ForensicData.t :=
  await host_meanwhile (ReqInvoke analyze_forensics []) host_analyze_forensics.

Definition invoke_get_audio_samples : M W AudioSamples.t :=
  await host_meanwhile (ReqInvoke get_audio_samples []) host_get_audio_samples.

Definition invoke_export_audio (outputPath : string) (startTime endTime : Q)
    : M W unit :=
  await host_meanwhile (ReqInvoke export_audio
           [("outputPath", ArgStr outputPath); ("startTime", ArgNum startTime);
            ("endTime", ArgNum endTime)]%string)
        (host_export_audio outputPath startTime endTime).
End Requests.

(** A string in a condition: the empty string is falsy. *)
Definition truthy (s : string) : bool :=
  match s with EmptyString => false | _ => true end.

(** ** Rendering (lines 1132-1252): what it does to the component state *)

(** The two pixel loops, in [drawSpectrogram] (lines 1152-1159) and in
    [renderSpectrogramToCache] (lines 1217-1236), walk the same index
    space: every frame [i < numFrames], every bin [j < numBins], reading
    [data[i][j]].  [loopReads] lists what those reads return, in loop
    order; [None] is [undefined]. *)
Definition readCell (data : list (list Q)) (i j : nat) : option Q :=
  frame ← data !! i; frame !! j.

Definition loopReads (data : list (list Q)) (numFrames numBins : nat)
    : list (option Q) :=
  i ← seq 0 numFrames; j ← seq 0 numBins; [readCell data i j].

(** The running minimum and maximum of lines 1151-1158.  [None] is the
    initial [Infinity] (for the minimum) or [-Infinity] (for the
    maximum); a comparison with [undefined] is false. *)
Definition scanStep (acc : option Q * option Q) (val : option Q)
    : option Q * option Q :=
  let '(minDb, maxDb) := acc in
  match val with
  | None => (minDb, maxDb)
  | Some v =>
      let maxDb' := match maxDb with
                    | None => Some v
                    | Some m => if gtb v m then Some v else Some m
                    end in
      let minDb' := match minDb with
                    | None => Some v
                    | Some m => if ltb v m then Some v else Some m
                    end in
      (minDb', maxDb')
  end.

Definition scanMinMax (data : list (list Q)) (numFrames numBins : nat)
    : option Q * option Q :=
  foldl scanStep (None, None) (loopReads data numFrames numBins).

(** Line 1225: the index into the colour table for one value, and line
    1228: whether the value lies in the dynamics range.  For
    [undefined] the index is NaN and nothing is looked up. *)
Definition lutIndex (val cachedMinDb dbRangeInv : Q) : Z :=
  (Z.max 0 (Z.min 255 (Math.floor ((val - cachedMinDb) * dbRangeInv))) * 3)%Z.

Definition renderSpectrogramToCache (u : UI) (data : list (list Q))
    (numFrames numBins : nat) : list (option (Z * bool)) :=
  let dbRange := cachedMaxDb u - cachedMinDb u in
  let dbRangeInv := if gtb dbRange 0 then 255 / dbRange else 0 in
  map (fun r => val ← r;
                Some (lutIndex val (cachedMinDb u) dbRangeInv,
                      geb val (dynamicsLow u) && leb val (dynamicsHigh u)))
      (loopReads data numFrames numBins).

Definition numBins_of (data : list (list Q)) : nat :=
  match data !! 0%nat with Some frame => List.length frame | None => 0%nat end.

Definition drawSpectrogram (u : UI) : UI :=
  match ctx u, spectrogramData u, canvas u with
  | true, Some sd, Some _ =>
      let data := SpectrogramData.data sd in
      let numFrames := List.length data in
      let numBins := numBins_of data in
      if (numFrames =? 0)%nat then u
      else if (numBins =? 0)%nat then u
      else
        let u1 :=
          if Qeq_bool (cachedMinDb u) 0 && Qeq_bool (cachedMaxDb u) 0 then
            match scanMinMax data numFrames numBins with
            | (Some minDb, Some maxDb) =>
                set_cachedMaxDb maxDb (set_cachedMinDb minDb u)
            | _ => u
            end
          else u in
        set_spectrogramNeedsRedraw false u1
  | _, _, _ => u
  end.

(** ** Playback control (lines 544-650 and 787-801) *)

Definition stopAudio (u : UI) : UI :=
  let u := set_isPlaying false u in
  let u := set_currentTime 0 u in
  let u := set_pausedAt 0 u in
  match spectrogramData u with Some _ => drawSpectrogram u | None => u end.

(** The audio graph set up in lines 545-637 is left out; the assignment
    to [audioBuffer] happens once [createBuffer] has returned, and not at
    all when it throws. *)
Section Playback.
Context {W : Type} `{Host W}.

Definition createAudioBuffer (samples : AudioSamples.t) : M W unit :=
  match buildAudioBuffer host_audioContext samples with
  | Ok audioBuffer_ => assign (set_audioBuffer (Some audioBuffer_))
  | Err e => throw e
  end.
End Playback.

(** ** The saturation curve (lines 330-341) *)

(** The body of the loop for index [i], and the function with the table
    size [samples] as an argument; the source fixes it to 44100. *)
Definition saturationSample (k : Q) (samples i : nat) : Q :=
  let x := (inject_Z (Z.of_nat i) * 2) / inject_Z (Z.of_nat samples) - 1 in
  ((1 + k) * x) / (1 + k * Math.abs x).

Definition makeSaturationCurve_of (samples : nat) (amount : Q) : list f32 :=
  let curve := replicate samples f32_zero in
  let k := amount * 50 in
  foldl (fun curve i => <[i := Fnum (saturationSample k samples i)]> curve)
        curve (seq 0 samples).

Definition makeSaturationCurve (amount : Q) : list f32 :=
  makeSaturationCurve_of (Z.to_nat 44100) amount.

(** ** The saturation curve in rounded arithmetic

    The same function with a rounding after every operation on numbers,
    as in binary64 arithmetic, and a second rounding at the store into
    the [Float32Array].  The rounding functions are arbitrary here;
    [ieee_like] collects the properties of IEEE round-to-nearest that
    matter: it is monotone, odd and idempotent, it leaves 0 and 1 alone,
    and between -64 and 64 it moves a number by no more than [2^-46]
    (half a unit in the last place of a binary64 number below 64 is at
    most [2^-48]).  The product [i * 2] of two small integers is exact. *)

Module Rounded.

Record arith := mk_arith { rnd : Q -> Q; rnd32 : Q -> Q }.

(** Exact arithmetic: no rounding at all. *)
Definition exact : arith := mk_arith (fun q => q) (fun q => q).

Definition half_ulp : Q := 1 # 70368744177664.

Record ieee_like (fp : arith) : Prop := {
  rnd_monotone : forall a b, a <= b -> rnd fp a <= rnd fp b;
  rnd_error : forall a,
    -64 <= a <= 64 -> a - half_ulp <= rnd fp a <= a + half_ulp;
  rnd_odd : forall a, rnd fp (- a) == - rnd fp a;
  rnd_idempotent : forall a, rnd fp (rnd fp a) == rnd fp a;
  rnd_0 : rnd fp 0 == 0;
  rnd_1 : rnd fp 1 == 1;
  rnd32_monotone : forall a b, a <= b -> rnd32 fp a <= rnd32 fp b;
  rnd32_1 : rnd32 fp 1 == 1;
  rnd32_m1 : rnd32 fp (-1) == -1
}.

(** [x = (i * 2) / samples - 1] *)
Definition abscissa (fp : arith) (samples i : nat) : Q :=
  rnd fp (rnd fp ((inject_Z (Z.of_nat i) * 2) / inject_Z (Z.of_nat samples)) - 1).

(** [((1 + k) * x) / (1 + k * Math.abs(x))], before the division is
    rounded. *)
Definition quotient (fp : arith) (k x : Q) : Q :=
  rnd fp (rnd fp (1 + k) * x) / rnd fp (1 + rnd fp (k * Math.abs x)).

Definition saturationSample (fp : arith) (k : Q) (samples i : nat) : Q :=
  rnd32 fp (rnd fp (quotient fp k (abscissa fp samples i))).

Definition makeSaturationCurve (fp : arith) (amount : Q) : list f32 :=
  let samples := Z.to_nat 44100 in
  let curve := replicate samples f32_zero in
  let k := rnd fp (amount * 50) in
  foldl (fun curve i => <[i := Fnum (saturationSample fp k samples i)]> curve)
        curve (seq 0 samples).

End Rounded.

(** ** Import (lines 418-497) *)

Definition audio_extensions : list string :=
  ["wav"; "mp3"; "flac"; "ogg"; "m4a"]%string.

Definition loadAudio_options : OpenOptions.t :=
  OpenOptions.mk false [DialogFilter.mk "Audio" audio_extensions].

Section ImportAudio.
Context {W : Type} `{Host W}.

Definition loadAudio : M W unit :=
  try_catch
    (selected ← open loadAudio_options;
     match selected with
     | Some path =>
         if truthy path then
           assign (set_filePath path);;
           assign (set_loading true);;
           assign (set_loadingStage "Opening file...");;
           assign (set_error "");;
           assign stopAudio;;
           assign (set_loadingStage "Decoding audio...");;
           filePath_ ← read filePath;
           info ← invoke_load_audio filePath_;
           assign (set_audioInfo (Some info));;
           assign (set_loadingStage "Computing spectrogram...");;
           assign (set_cachedMinDb 0);;
           assign (set_cachedMaxDb 0);;
           assign (set_spectrogramNeedsRedraw true);;
           maxFreq_ ← read maxFreq;
           spec ← invoke_compute_spectrogram maxFreq_;
           assign (set_spectrogramData (Some spec));;
           assign (set_loadingStage "Running forensic analysis...");;
           forensic ← invoke_analyze_forensics;
           assign (set_forensicData (Some forensic));;
           assign (set_loadingStage "Preparing playback...");;
           samples ← invoke_get_audio_samples;
           createAudioBuffer samples;;
           assign drawSpectrogram;;
           cachedMinDb_ ← read cachedMinDb;
           assign (set_dynamicsLow cachedMinDb_);;
           cachedMaxDb_ ← read cachedMaxDb;
           assign (set_dynamicsHigh cachedMaxDb_);;
           assign (set_loading false)
         else mret tt
     | None => mret tt
     end)
    (fun e => assign (set_error e);; assign (set_loading false)).
End ImportAudio.

(** ** Export (lines 499-542) *)

(** [filePath.split('/').pop()]: what follows the last slash. *)
Fixpoint basename_from (acc : string) (s : string) : string :=
  match s with
  | EmptyString => acc
  | String c rest =>
      if Ascii.eqb c ("/"%char : Ascii.ascii) then basename_from rest rest
      else basename_from acc rest
  end.

Definition basename (s : string) : string := basename_from s s.

(** [.replace(/\.[^.]+$/, '')]: drop a final dot followed by one or more
    characters that are not dots. *)
Fixpoint has_dot (s : string) : bool :=
  match s with
  | EmptyString => false
  | String c rest => Ascii.eqb c ("."%char : Ascii.ascii) || has_dot rest
  end.

Fixpoint strip_extension (s : string) : string :=
  match s with
  | EmptyString => EmptyString
  | String c rest =>
      if Ascii.eqb c ("."%char : Ascii.ascii) && negb (has_dot rest) && truthy rest
      then EmptyString
      else String c (strip_extension rest)
  end.

Definition defaultName_of (filePath : string) : string :=
  let stem := strip_extension (basename filePath) in
  if truthy stem then stem else "export"%string.

Definition exportAudio_options (filePath : string) : SaveOptions.t :=
  SaveOptions.mk [DialogFilter.mk "WAV Audio" ["wav"%string]]
                 (defaultName_of filePath ++ "_selection.wav")%string.

(** The messages of the two early returns. *)
Definition no_selection_message : string :=
  "Please select a time range to export (Shift+click and drag)".
Definition too_short_message : string := "Selection too short to export".

Section ExportAudio.
Context {W : Type} `{Host W}.

Definition exportAudio : M W unit :=
  audioInfo_ ← read audioInfo;
  selectionStart_ ← read selectionStart;
  selectionEnd_ ← read selectionEnd;
  match audioInfo_, selectionStart_, selectionEnd_ with
  | Some _, Some selStart, Some selEnd =>
      let startTime := Math.min selStart selEnd in
      let endTime := Math.max selStart selEnd in
      if ltb (endTime - startTime) (1 # 100) then
        assign (set_error too_short_message)
      else
        try_catch
          (filePath_ ← read filePath;
           outputPath ← save (exportAudio_options filePath_);
           match outputPath with
           | Some outputPath =>
               if truthy outputPath then
                 assign (set_exportLoading true);;
                 assign (set_error "");;
                 invoke_export_audio outputPath startTime endTime;;
                 assign (set_exportLoading false)
               else mret tt
           | None => mret tt
           end)
          (fun e => assign (set_error e);; assign (set_exportLoading false))
  | _, _, _ =>
      assign (set_error no_selection_message)
  end.
End ExportAudio.

(** ** Pointer handling on the spectrogram (lines 998-1118) *)

Module MouseEvent.
Record t := mk { clientX : Q; clientY : Q; shiftKey : bool }.
End MouseEvent.

Definition freqBarHeight : Q := 30.
Definition legendWidth : Q := 60.
Definition hitThreshold : Q := 10.

Definition getFilterYPositions (u : UI) : Q * Q :=
  match canvas u with
  | None => (0, 0)
  | Some cv =>
      let spectrogramHeight := Canvas.height cv - freqBarHeight in
      let highPassY :=
        freqBarHeight + spectrogramHeight * (1 - highPassFreq u / maxFreq u) in
      let lowPassY :=
        freqBarHeight + spectrogramHeight * (1 - lowPassFreq u / maxFreq u) in
      (highPassY, lowPassY)
  end.

Definition yToFrequency (u : UI) (y : Q) : Q :=
  match canvas u with
  | None => 0
  | Some cv =>
      let spectrogramHeight := Canvas.height cv - freqBarHeight in
      let normalizedY := (y - freqBarHeight) / spectrogramHeight in
      maxFreq u * (1 - normalizedY)
  end.

Definition handleCanvasMouseMove (event : MouseEvent.t) (u : UI) : UI :=
  match canvas u, spectrogramData u, audioInfo u with
  | Some cv, Some _, Some info =>
      let y := MouseEvent.clientY event - Canvas.rect_top cv in
      let x := MouseEvent.clientX event - Canvas.rect_left cv in
      let spectrogramWidth := Canvas.width cv - legendWidth in
      match isSelecting u, selectionStart u, draggingFilter u with
      | true, Some _, _ =>
          let dragTime :=
            Math.max 0 (Math.min (AudioInfo.duration info)
                          ((x / spectrogramWidth) * AudioInfo.duration info)) in
          drawSpectrogram (set_selectionEnd (Some dragTime) u)
      | _, _, Some dragged =>
          let newFreq := Math.max 0 (Math.min (maxFreq u) (yToFrequency u y)) in
          let u :=
            match dragged with
            | highpass =>
                let u := set_highPassFreq
                           (Math.min newFreq (lowPassFreq u - 100)) u in
                set_highPassFreq (Math.max 0 (highPassFreq u)) u
            | lowpass =>
                let u := set_lowPassFreq
                           (Math.max newFreq (highPassFreq u + 100)) u in
                set_lowPassFreq (Math.min (maxFreq u) (lowPassFreq u)) u
            end in
          drawSpectrogram u
      | _, _, None =>
          let '(highPassY, lowPassY) := getFilterYPositions u in
          if ltb (Math.abs (y - highPassY)) hitThreshold then
            set_filterHover (Some highpass) u
          else if ltb (Math.abs (y - lowPassY)) hitThreshold then
            set_filterHover (Some lowpass) u
          else set_filterHover None u
      end
  | _, _, _ => u
  end.

Definition handleCanvasMouseUp (u : UI) : UI :=
  let u := set_draggingFilter None u in
  let u := set_isSelecting false u in
  match selectionStart u, selectionEnd u with
  | Some s, Some e =>
      if gtb s e then set_selectionEnd (Some s) (set_selectionStart (Some e) u)
      else u
  | _, _ => u
  end.

Definition handleCanvasMouseLeave (u : UI) : UI :=
  set_isSelecting false (set_filterHover None (set_draggingFilter None u)).

(** The band-separation condition on the two filter frequencies. *)
Definition bandsSeparated (u : UI) : Prop :=
  0 <= highPassFreq u /\ highPassFreq u <= lowPassFreq u - 100 /\
  lowPassFreq u <= maxFreq u.

(** ** Pointer handling in the arithmetic of doubles

    The functions above take [+ - * /] exactly.  Here every one of these
    operations is followed by the rounding [rnd] of its result, as in
    the source, where [rnd] is [binary64]; comparisons, [Math.min],
    [Math.max] and [Math.abs] do not round.  A quotient by zero, an
    infinity or NaN in the source, is 0 as everywhere in this file; the
    properties about these functions exclude it. *)
Module Double.

(** What the properties use of the rounding of doubles: it is monotone,
    it leaves a double as it is, and it moves a number by no more than
    [2^-53] of its magnitude, or by [2^-1075] among the subnormal
    numbers. *)
Definition eps : Q := 1 # 2 ^ 53.
Definition eta : Q := 2 ^ (-1075).

Record rounding (rnd : Q -> Q) : Prop := {
  rounding_proper : forall a b, a == b -> rnd a == rnd b;
  rounding_monotone : forall a b, a <= b -> rnd a <= rnd b;
  rounding_idempotent : forall a, rnd (rnd a) == rnd a;
  rounding_0 : rnd 0 == 0;
  rounding_error : forall a, Qabs (rnd a - a) <= eps * Qabs a + eta
}.

Section Rounding.
Variable rnd : Q -> Q.

Definition getFilterYPositions (u : UI) : Q * Q :=
  match canvas u with
  | None => (0, 0)
  | Some cv =>
      let spectrogramHeight := rnd (Canvas.height cv - freqBarHeight) in
      let highPassY :=
        rnd (freqBarHeight
             + rnd (spectrogramHeight
                    * rnd (1 - rnd (highPassFreq u / maxFreq u)))) in
      let lowPassY :=
        rnd (freqBarHeight
             + rnd (spectrogramHeight
                    * rnd (1 - rnd (lowPassFreq u / maxFreq u)))) in
      (highPassY, lowPassY)
  end.

Definition yToFrequency (u : UI) (y : Q) : Q :=
  match canvas u with
  | None => 0
  | Some cv =>
      let spectrogramHeight := rnd (Canvas.height cv - freqBarHeight) in
      let normalizedY := rnd (rnd (y - freqBarHeight) / spectrogramHeight) in
      rnd (maxFreq u * rnd (1 - normalizedY))
  end.

Definition handleCanvasMouseMove (event : MouseEvent.t) (u : UI) : UI :=
  match canvas u, spectrogramData u, audioInfo u with
  | Some cv, Some _, Some info =>
      let y := rnd (MouseEvent.clientY event - Canvas.rect_top cv) in
      let x := rnd (MouseEvent.clientX event - Canvas.rect_left cv) in
      let spectrogramWidth := rnd (Canvas.width cv - legendWidth) in
      match isSelecting u, selectionStart u, draggingFilter u with
      | true, Some _, _ =>
          let dragTime :=
            Math.max 0 (Math.min (AudioInfo.duration info)
                          (rnd (rnd (x / spectrogramWidth)
                                * AudioInfo.duration info))) in
          drawSpectrogram (set_selectionEnd (Some dragTime) u)
      | _, _, Some dragged =>
          let newFreq := Math.max 0 (Math.min (maxFreq u) (yToFrequency u y)) in
          let u :=
            match dragged with
            | highpass =>
                let u := set_highPassFreq
                           (Math.min newFreq (rnd (lowPassFreq u - 100))) u in
                set_highPassFreq (Math.max 0 (highPassFreq u)) u
            | lowpass =>
                let u := set_lowPassFreq
                           (Math.max newFreq (rnd (highPassFreq u + 100))) u in
                set_lowPassFreq (Math.min (maxFreq u) (lowPassFreq u)) u
            end in
          drawSpectrogram u
      | _, _, None =>
          let '(highPassY, lowPassY) := getFilterYPositions u in
          if ltb (Math.abs (rnd (y - highPassY))) hitThreshold then
            set_filterHover (Some highpass) u
          else if ltb (Math.abs (rnd (y - lowPassY))) hitThreshold then
            set_filterHover (Some lowpass) u
          else set_filterHover None u
      end
  | _, _, _ => u
  end.
End Rounding.
End Double.

(** ** A scripted host

    The component tests replace [invoke] and the dialog by mocks that
    answer from a script.  [Mock.t] is such a script: each entry point
    answers with the value stored for it and leaves the script as it is;
    no other handler runs in the meantime. *)

Module Mock.
Record t := mk {
  open_answer : option string;
  save_answer : option string;
  load_audio_answer : result AudioInfo.t;
  compute_spectrogram_answer : result SpectrogramData.t;
  analyze_forensics_answer : result ForensicData.t;
  get_audio_samples_answer : result AudioSamples.t;
  export_audio_answer : result unit
}.

#[global] Instance host : Host t := {|
  host_audioContext := AudioContext.least;
  host_meanwhile := fun _ u => u;
  host_open := fun _ w => (open_answer w, w);
  host_save := fun _ w => (save_answer w, w);
  host_load_audio := fun _ w => (load_audio_answer w, w);
  host_compute_spectrogram := fun _ w => (compute_spectrogram_answer w, w);
  host_analyze_forensics := fun w => (analyze_forensics_answer w, w);
  host_get_audio_samples := fun w => (get_audio_samples_answer w, w);
  host_export_audio := fun _ _ _ w => (export_audio_answer w, w)
|}.

(** A two-frame, three-bin spectrogram of a one-second stereo file. *)
Definition example : t := {|
  open_answer := Some "/tmp/test_audio.wav"%string;
  save_answer := Some "/tmp/out.wav"%string;
  load_audio_answer := Ok (AudioInfo.mk 1 44100 2);
  compute_spectrogram_answer :=
    Ok (SpectrogramData.mk [[-80; -20; -60]; [-75; -10; -90]]
                           [0; 512 # 44100] 8000);
  analyze_forensics_answer :=
    Ok (ForensicData.mk false 0 50 [] 40 12 false 0);
  get_audio_samples_answer :=
    Ok (AudioSamples.mk [1 # 2; -1 # 2; 1 # 4; -1 # 4] 44100 2);
  export_audio_answer := Ok tt
|}.
End Mock.

(** ** The engine behind the command surface

    The decoder, the spectrogram engine and the exporter are native code
    outside the front end.  This module models them from their
    specification, as far as exact arithmetic goes: the magnitude of a
    windowed discrete Fourier transform in decibels involves cosines,
    square roots and logarithms, and enters as a parameter, [dft_db]; so
    does the forensic analysis, [forensics]. *)

Module Engine.

(** Modelled from the spec: the error kinds of section 7. *)
Inductive error :=
  | FileNotFound | UnsupportedFormat | MalformedInput | OutOfMemory
  | InvalidParameter | EmptyRange | NoTrack | IoError | PermissionDenied.

Definition error_message (e : error) : string :=
  match e with
  | FileNotFound => "FileNotFound"
  | UnsupportedFormat => "UnsupportedFormat"
  | MalformedInput => "MalformedInput"
  | OutOfMemory => "OutOfMemory"
  | InvalidParameter => "InvalidParameter"
  | EmptyRange => "EmptyRange"
  | NoTrack => "NoTrack"
  | IoError => "IoError"
  | PermissionDenied => "PermissionDenied"
  end.

(** Modelled from the spec: a decoded track, the pair of [TrackInfo]
    and [SampleBuffer] of section 3.  The sample rate is positive and
    there is at least one channel; samples are interleaved. *)
Record Track := mkTrack {
  sample_rate : positive;
  channels : positive;
  samples : list Q
}.

Definition rate (t : Track) : Q := inject_Z (Z.pos (sample_rate t)).

Definition frame_count (t : Track) : nat :=
  (List.length (samples t) / Pos.to_nat (channels t))%nat.

(** Modelled from the spec: [duration = frame_count / sample_rate]
    (section 4.1). *)
Definition duration (t : Track) : Q :=
  inject_Z (Z.of_nat (frame_count t)) / rate t.

Definition info (t : Track) : AudioInfo.t :=
  AudioInfo.mk (duration t) (Z.pos (sample_rate t)) (Pos.to_nat (channels t)).

(** Modelled from the spec: the Nyquist rate [sample_rate / 2]. *)
Definition nyquist (t : Track) : Q := rate t / 2.

(** Modelled from the spec: the arithmetic-mean mono mix of section
    4.2, one value per frame. *)
Definition mono_mix (t : Track) : list Q :=
  let ch := Pos.to_nat (channels t) in
  map (fun i =>
         foldr Qplus 0
           (map (fun c => default 0 (samples t !! (i * ch + c)%nat)) (seq 0 ch))
         / inject_Z (Z.of_nat ch))
      (seq 0 (frame_count t)).

(** Modelled from the spec: window size [N = 2048], hop [H = 512],
    decibel floor -200 (section 4.3). *)
Definition window_size : nat := 2048.
Definition hop_size : nat := 512.
Definition db_floor : Q := -200.

(** Modelled from the spec: frames [m = 0 .. floor((L - N) / H)] of a
    signal of [L] samples, none when [L < N]. *)
Definition frame_starts (L : nat) : list nat :=
  if (L <? window_size)%nat then []
  else map (fun m => (m * hop_size)%nat)
           (seq 0 ((L - window_size) / hop_size + 1)).

(** Modelled from the spec: [max_freq] silently clamps to Nyquist. *)
Definition clamp_freq (t : Track) (max_freq : Q) : Q :=
  if leb (nyquist t) max_freq then nyquist t else max_freq.

(** Modelled from the spec: of the first [N/2 + 1] bins, those with
    centre frequency [k * sample_rate / N] at most the maximum
    frequency are kept. *)
Definition kept_bins (t : Track) (f : Q) : list nat :=
  filter (fun k => leb (inject_Z (Z.of_nat k) * rate t
                        / inject_Z (Z.of_nat window_size)) f = true)
         (seq 0 (window_size / 2 + 1)).

(** Modelled from the spec: the Sample Store holds at most one decoded
    track (section 4.2).  Around it, the rest of the world outside the
    component: the decodable audio files by path, the paths that refuse
    a write, and what the user will answer to the next dialogs. *)
Record World := mkWorld {
  files : gmap string Track;
  read_only : gset string;
  store : option Track;
  answers : list (option string)
}.

Definition with_store (tr : option Track) (w : World) : World :=
  mkWorld (files w) (read_only w) tr (answers w).
Definition with_files (fs : gmap string Track) (w : World) : World :=
  mkWorld fs (read_only w) (store w) (answers w).
Definition with_answers (a : list (option string)) (w : World) : World :=
  mkWorld (files w) (read_only w) (store w) a.

(** Modelled from the spec: the byte ceiling of a decoded track,
    2 GiB, at four bytes per sample (section 4.1). *)
Definition byte_ceiling : Z := 2 ^ 31.

(** Modelled from the spec: [load_audio] (sections 4.1, 4.2 and 6).
    A failing decode leaves the Sample Store as it was. *)
Definition load_audio (path : string) (w : World)
    : (error + AudioInfo.t) * World :=
  match files w !! path with
  | None => (inl FileNotFound, w)
  | Some tr =>
      if (byte_ceiling <? 4 * Z.of_nat (List.length (samples tr)))%Z
      then (inl OutOfMemory, w)
      else (inr (info tr), with_store (Some tr) w)
  end.

(** Modelled from the spec: [get_audio_samples] (section 6). *)
Definition get_audio_samples (w : World) : (error + AudioSamples.t) * World :=
  match store w with
  | None => (inl NoTrack, w)
  | Some tr =>
      (inr (AudioSamples.mk (samples tr) (Z.pos (sample_rate tr))
              (Pos.to_nat (channels tr))), w)
  end.

Section Kernels.
(** [dft_db frame k]: the magnitude of bin [k] of the Hann-windowed
    [frame] in decibels, [20 * log10 (max (|X[k]|) 1e-10)]; [None] is
    minus infinity. *)
Variable dft_db : list Q -> nat -> option Q.
Variable forensics : Track -> ForensicData.t.

(** Modelled from the spec: values are clamped to a floor of -200 dB
    before return, minus infinity included. *)
Definition floor_db (v : option Q) : Q :=
  match v with
  | None => db_floor
  | Some q => Qmax db_floor q
  end.

(** Modelled from the spec: one row of the matrix, the kept bins of
    the frame starting at sample [start]. *)
Definition spectrum_row (t : Track) (f : Q) (start : nat) : list Q :=
  let frame := take window_size (drop start (mono_mix t)) in
  map (fun k => floor_db (dft_db frame k)) (kept_bins t f).

(** Modelled from the spec: [compute_spectrogram] (sections 4.3 and
    6).  The Failures paragraph of section 4.3 also lists a maximum
    frequency above the Nyquist rate as [InvalidParameter]; the Edge
    cases paragraph and the round-trip law of section 8 say that it
    clamps.  The two cannot both hold; the model follows the
    latter. *)
Definition compute_spectrogram (max_freq : Q) (w : World)
    : (error + SpectrogramData.t) * World :=
  match store w with
  | None => (inl NoTrack, w)
  | Some tr =>
      if leb max_freq 0 then (inl InvalidParameter, w)
      else
        let f := clamp_freq tr max_freq in
        let starts := frame_starts (List.length (mono_mix tr)) in
        (inr (SpectrogramData.mk
                (map (spectrum_row tr f) starts)
                (map (fun s => inject_Z (Z.of_nat s) / rate tr) starts)
                f), w)
  end.

(** Modelled from the spec: the Failures paragraph of section 4.3 read
    on its own, by which a maximum frequency above the Nyquist rate is
    refused.  The Edge cases paragraph of the same section says that it
    clamps instead, which is what [compute_spectrogram] follows.  The
    engine is not part of the front end, and nothing there decides
    between the two. *)
Definition compute_spectrogram_strict (max_freq : Q) (w : World)
    : (error + SpectrogramData.t) * World :=
  match store w with
  | None => (inl NoTrack, w)
  | Some tr =>
      if leb max_freq 0 || ltb (nyquist tr) max_freq
      then (inl InvalidParameter, w)
      else compute_spectrogram max_freq w
  end.

(** Modelled from the spec: [analyze_forensics] (section 6). *)
Definition analyze_forensics (w : World) : (error + ForensicData.t) * World :=
  match store w with
  | None => (inl NoTrack, w)
  | Some tr => (inr (forensics tr), w)
  end.
End Kernels.

(** Modelled from the spec: the range is clipped to [[0, duration]]
    (section 4.5). *)
Definition clip (t : Track) (x : Q) : Q := Qmax 0 (Qmin (duration t) x).

(** Modelled from the spec: 16-bit conversion,
    [round (clamp x (-1) 1 * 32767)], read back at full scale 32768. *)
Definition round (x : Q) : Z := Qfloor (x + (1 # 2)).
Definition to_pcm16 (x : Q) : Z := round (Qmax (-1) (Qmin 1 x) * 32767).
Definition of_pcm16 (n : Z) : Q := inject_Z n / 32768.

(** Modelled from the spec: the frames from [floor (start_s *
    sample_rate)] up to [floor (end_s * sample_rate)], all channels. *)
Definition slice (t : Track) (start_s end_s : Q) : list Q :=
  let ch := Pos.to_nat (channels t) in
  let first := Z.to_nat (Qfloor (start_s * rate t)) in
  let last := Z.to_nat (Qfloor (end_s * rate t)) in
  take ((last - first) * ch) (drop (first * ch) (samples t)).

(** Modelled from the spec: [export_audio] (sections 4.5 and 6).  The
    file appears under [out_path] only when the write succeeds. *)
Definition export_audio (out_path : string) (start_s end_s : Q) (w : World)
    : (error + unit) * World :=
  match store w with
  | None => (inl NoTrack, w)
  | Some tr =>
      let s := clip tr start_s in
      let e := clip tr end_s in
      if leb e s then (inl EmptyRange, w)
      else if decide (out_path ∈ read_only w) then (inl PermissionDenied, w)
      else
        let exported :=
          mkTrack (sample_rate tr) (channels tr)
                  (map (fun x => of_pcm16 (to_pcm16 x)) (slice tr s e)) in
        (inr tt, with_files (<[out_path := exported]> (files w)) w)
  end.

(** The user's answer to a dialog: the next one of the script. *)
Definition dialog (w : World) : option string * World :=
  match answers w with
  | [] => (None, w)
  | a :: rest => (a, with_answers rest w)
  end.

(** A rejected command reaches the component as the error's text. *)
Definition settle {A} (r : (error + A) * World) : result A * World :=
  match r with
  | (inl e, w) => (Err (error_message e), w)
  | (inr a, w) => (Ok a, w)
  end.

Definition host (dft_db : list Q -> nat -> option Q)
    (forensics : Track -> ForensicData.t) : Host World := {|
  host_audioContext := AudioContext.least;
  host_meanwhile := fun _ u => u;
  host_open := fun _ => dialog;
  host_save := fun _ => dialog;
  host_load_audio := fun path w => settle (load_audio path w);
  host_compute_spectrogram := fun max_freq w =>
    settle (compute_spectrogram dft_db max_freq w);
  host_analyze_forensics := fun w => settle (analyze_forensics forensics w);
  host_get_audio_samples := fun w => settle (get_audio_samples w);
  host_export_audio := fun out_path start_s end_s w =>
    settle (export_audio out_path start_s end_s w)
|}.

(** 2560 frames (0.32 s) of mono silence at 8 kHz, on disk under
    [/tmp/silence.wav]; for silence every magnitude is below the
    [1e-10] of the decibel conversion, which is -200 dB. *)
Definition silence : Track := mkTrack 8000 1 (replicate 2560 0).
Definition silence_db : list Q -> nat -> option Q := fun _ _ => Some (-200).
Definition silence_forensics : Track -> ForensicData.t :=
  fun _ => ForensicData.mk false 0 50 [] 0 0 false 0.
Definition example : World :=
  mkWorld {[ "/tmp/silence.wav"%string := silence ]} ∅ (Some silence)
          [Some "/tmp/silence.wav"%string].
End Engine.

(** ** The selection and the reactive clamp (lines 172 and 1120-1129) *)

(** Line 172, [$: if (lowPassFreq > maxFreq) lowPassFreq = maxFreq]: the
    statement that Svelte runs again after an assignment to [maxFreq] or
    to [lowPassFreq], such as the ones of the two number inputs bound to
    them. *)
Definition syncLowPass (u : UI) : UI :=
  if gtb (lowPassFreq u) (maxFreq u) then set_lowPassFreq (maxFreq u) u else u.

(** [bind:value={maxFreq}] on the frequency input: the assignment, then
    the reactive statement. *)
Definition input_maxFreq (v : Q) (u : UI) : UI :=
  syncLowPass (set_maxFreq v u).

Definition clearSelection (u : UI) : UI :=
  drawSpectrogram (set_selectionEnd None (set_selectionStart None u)).

Definition getSelectionDuration (u : UI) : Q :=
  match selectionStart u, selectionEnd u with
  | Some selStart, Some selEnd => Math.abs (selEnd - selStart)
  | _, _ => 0
  end.

(** ** Colours (lines 275-307 and 1490-1538) *)

Module Color.
Record t := mk { r : Z; g : Z; b : Z }.
End Color.

(** Lines 1490-1502. *)
Definition getSpectrogramColor (value : Q) : Color.t :=
  let t := Math.max 0 (Math.min 1 value) in
  let r := Math.floor (Math.max 0 (Math.min 255
             (68 + t * (- (713 # 10) + t * ((3383 # 10)
                + t * (- (4675 # 10) + t * (3875 # 10))))))) in
  let g := Math.floor (Math.max 0 (Math.min 255
             (1 + t * (169 + t * (- 75 + t * (134 + t * 27)))))) in
  let b := Math.floor (Math.max 0 (Math.min 255
             (84 + t * (145 + t * (- 520 + t * (722 + t * - 395)))))) in
  Color.mk r g b.

(** Lines 1505-1512. *)
Definition getFrequencyColor (normalized : Q) : Color.t :=
  let t := Math.max 0 (Math.min 1 normalized) in
  let r := Math.floor (255 * t) in
  let g := Math.floor (255 * (1 - t)) in
  let b := 255%Z in
  Color.mk r g b.

(** Lines 1515-1538: the stops of the gradient, and the search for the
    first pair of neighbouring stops that has [t] between them. *)
Definition neonColors : list (Q * Color.t) :=
  [ (0, Color.mk 255 7 58);
    (2 # 10, Color.mk 255 102 0);
    (4 # 10, Color.mk 255 255 0);
    (6 # 10, Color.mk 0 255 65);
    (8 # 10, Color.mk 0 184 255);
    (1, Color.mk 180 0 255) ].

Definition neonBlend (c0 c1 : Z) (localT : Q) : Z :=
  Math.floor (inject_Z c0 + (inject_Z c1 - inject_Z c0) * localT).

Fixpoint neonSearch (colors : list (Q * Color.t)) (t : Q) (last : Color.t)
    : Color.t :=
  match colors with
  | (pos0, c0) :: (((pos1, c1) :: _) as rest) =>
      if geb t pos0 && leb t pos1 then
        let localT := (t - pos0) / (pos1 - pos0) in
        Color.mk (neonBlend (Color.r c0) (Color.r c1) localT)
                 (neonBlend (Color.g c0) (Color.g c1) localT)
                 (neonBlend (Color.b c0) (Color.b c1) localT)
      else neonSearch rest t last
  | _ => last
  end.

Definition getNeonDbColor (normalized : Q) : Color.t :=
  let t := Math.max 0 (Math.min 1 normalized) in
  neonSearch neonColors t (Color.mk 180 0 255).

(** The three functions above are those of the source for an argument
    that is a number.  [number] adds the other values of the type: the
    infinities, which the clamp to [0, 1] takes to 1 and to 0, and NaN,
    which [Math.min], [Math.max], [Math.floor] and the arithmetic hand
    on and for which every comparison is false.  A component that is
    NaN is [None]. *)
Inductive number := Num (q : Q) | NaN | Infinity (negative : bool).

Module Rgb.
Record t := mk { r : option Z; g : option Z; b : option Z }.

Definition of_color (c : Color.t) : t :=
  mk (Some (Color.r c)) (Some (Color.g c)) (Some (Color.b c)).
End Rgb.

(** Each of the three functions begins with
    [t = Math.max(0, Math.min(1, value))], which is 1 for the positive
    infinity, as for the number 1, and 0 for the negative one; for these
    the function continues as for that number.  [nan] is the result for
    NaN. *)
Definition with_clamp (f : Q -> Color.t) (nan : Rgb.t) (value : number)
    : Rgb.t :=
  match value with
  | Num q => Rgb.of_color (f q)
  | NaN => nan
  | Infinity false => Rgb.of_color (f 1)
  | Infinity true => Rgb.of_color (f 0)
  end.

(** Lines 1490-1502 for any argument: with [t] NaN, the three
    components are. *)
Definition getSpectrogramColor_of : number -> Rgb.t :=
  with_clamp getSpectrogramColor (Rgb.mk None None None).

(** Lines 1505-1512 for any argument: [b] is the constant 255. *)
Definition getFrequencyColor_of : number -> Rgb.t :=
  with_clamp getFrequencyColor (Rgb.mk None None (Some 255%Z)).

(** Lines 1515-1538 for any argument: with [t] NaN no comparison of the
    loop holds, and the function returns the last stop. *)
Definition getNeonDbColor_of : number -> Rgb.t :=
  with_clamp getNeonDbColor (Rgb.of_color (Color.mk 180 0 255)).

(** A store into a [Uint8Array]: the integer modulo 256. *)
Definition to_uint8 (v : Z) : Z := (v mod 256)%Z.

(** The three tables of [initColorLUTs] (lines 275-307), 768 bytes each. *)
Record LUTs := mkLUTs {
  viridisLUT : list Z;
  dimmedLUT : list Z;
  frequencyLUT : list Z
}.

Definition store3 (i : nat) (x y z : Z) (lut : list Z) : list Z :=
  <[(i * 3 + 2)%nat := to_uint8 z]>
    (<[(i * 3 + 1)%nat := to_uint8 y]> (<[(i * 3)%nat := to_uint8 x]> lut)).

Definition initColorLUTs_step (l : LUTs) (i : nat) : LUTs :=
  let t := inject_Z (Z.of_nat i) / 255 in
  let vr := Math.floor (Math.max 0 (Math.min 255
              (68 + t * (- (713 # 10) + t * ((3383 # 10)
                 + t * (- (4675 # 10) + t * (3875 # 10))))))) in
  let vg := Math.floor (Math.max 0 (Math.min 255
              (1 + t * (169 + t * (- 75 + t * (134 + t * 27)))))) in
  let vb := Math.floor (Math.max 0 (Math.min 255
              (84 + t * (145 + t * (- 520 + t * (722 + t * - 395)))))) in
  let gray := Math.floor (inject_Z (vr + vg + vb) / 3 * (15 # 100)) in
  {| viridisLUT := store3 i vr vg vb (viridisLUT l);
     dimmedLUT :=
       store3 i gray gray (Math.floor (inject_Z gray * (11 # 10))) (dimmedLUT l);
     frequencyLUT :=
       store3 i (Math.floor (255 * t)) (Math.floor (255 * (1 - t))) 255
              (frequencyLUT l) |}.

Definition initColorLUTs : LUTs :=
  foldl initColorLUTs_step
        (mkLUTs (replicate (256 * 3) 0%Z) (replicate (256 * 3) 0%Z)
                (replicate (256 * 3) 0%Z))
        (seq 0 256).

(** ** The pixels of the cached spectrogram (lines 1217-1236) *)

(** [v << 2]: the operand as a 32-bit integer, shifted, and the result as
    a 32-bit integer again. *)
Definition int32 (z : Z) : Z := ((z + 2 ^ 31) mod 2 ^ 32 - 2 ^ 31)%Z.

Definition shl2 (v : Z) : Z := int32 (Z.shiftl (int32 v) 2).

(** Lines 1221-1222: where the cell of frame [x] and bin [y] goes in the
    image data, four bytes a pixel, rows from the top. *)
Definition pixelIndex (numFrames numBins x y : nat) : Z :=
  let flippedY := (Z.of_nat numBins - 1 - Z.of_nat y)%Z in
  shl2 (flippedY * Z.of_nat numFrames + Z.of_nat x).

(** The colour written for one cell (lines 1225-1234): red, green, blue
    from the table for cells in the dynamics range or from the dimmed
    one, and the opacity 255.  An index outside of a table reads
    [undefined]. *)
Definition pixelColor (l : LUTs) (lutIdx : Z) (inRange : bool)
    : option Z * option Z * option Z * Z :=
  let lut := if inRange then viridisLUT l else dimmedLUT l in
  let at_ (k : Z) := if (k <? 0)%Z then None else lut !! Z.to_nat k in
  (at_ lutIdx, at_ (lutIdx + 1)%Z, at_ (lutIdx + 2)%Z, 255%Z).

(** ** The dynamics gate and the normalisation gain (lines 344-416)

    Both use [Math.pow], whose values are not rational in general; it is
    a parameter here, [pow], and what is proved about the two functions
    holds for whatever numbers it returns. *)

(** The body of the second loop (lines 369-384) for index [i]. *)
Definition gateSample (lowAmp highAmp : Q) (samples i : nat) : Q :=
  let x := (inject_Z (Z.of_nat i) * 2) / inject_Z (Z.of_nat samples) - 1 in
  let absX := Math.abs x in
  if ltb absX lowAmp then x * (5 # 100)
  else if gtb absX highAmp then
    let excess := absX - highAmp in
    let limited := highAmp + excess * (1 # 10) in
    if gtb x 0 then limited else - limited
  else x.

Section Pow.
Variable pow : Q -> Q -> Q.

Definition gateThresholds (lowDb highDb minDb maxDb : Q) : Q * Q :=
  let dbRange := maxDb - minDb in
  let lowNorm := Math.max 0 (Math.min 1 ((lowDb - minDb) / dbRange)) in
  let highNorm := Math.max 0 (Math.min 1 ((highDb - minDb) / dbRange)) in
  let lowAmp := pow 10 ((lowNorm - 1) * 3) in
  let highAmp := pow 10 ((highNorm - 1) * 3) in
  (lowAmp, highAmp).

(** [makeDynamicsGateCurve] with the table size [samples] as an
    argument; the source fixes it to 8192. *)
Definition makeDynamicsGateCurve_of (samples : nat)
    (lowDb highDb minDb maxDb : Q) : list f32 :=
  let curve := replicate samples f32_zero in
  let dbRange := maxDb - minDb in
  if Qeq_bool dbRange 0 then
    foldl (fun curve i =>
             <[i := Fnum ((inject_Z (Z.of_nat i) * 2)
                          / inject_Z (Z.of_nat samples) - 1)]> curve)
          curve (seq 0 samples)
  else
    let '(lowAmp, highAmp) := gateThresholds lowDb highDb minDb maxDb in
    foldl (fun curve i => <[i := Fnum (gateSample lowAmp highAmp samples i)]> curve)
          curve (seq 0 samples).

Definition makeDynamicsGateCurve (lowDb highDb minDb maxDb : Q) : list f32 :=
  makeDynamicsGateCurve_of (Z.to_nat 8192) lowDb highDb minDb maxDb.

(** The loop of [calculateNormalizationGain] (lines 394-398), with
    [None] for a peak that is infinite: a comparison with NaN is false,
    so that NaN samples are passed over, and nothing is above an
    infinite peak. *)
Definition peakStep (peak : option Q) (sample : f32) : option Q :=
  match sample, peak with
  | Fnum q, Some p => let abs := Math.abs q in if gtb abs p then Some abs else peak
  | Fnum _, None => peak
  | Fnan, _ => peak
  | Finf _, _ => None
  end.

(** [calculateNormalizationGain] (lines 390-407), of the variables it
    reads, with the rounding [rnd] of the two quotients.
    [getChannelData(0)] throws for a buffer without channels: [None].
    The quotient by an infinite peak is 0. *)
Definition calculateNormalizationGain_with (rnd : Q -> Q)
    (audioBuffer_ : option AudioBuffer.t) (normalizeTarget : Q) : option Q :=
  match audioBuffer_ with
  | None => Some 1
  | Some buf =>
      match AudioBuffer.channelData buf !! 0%nat with
      | None => None
      | Some samples =>
          match foldl peakStep (Some 0) samples with
          | Some peak =>
              if Qeq_bool peak 0 then Some 1
              else
                let targetLinear := pow 10 (rnd (normalizeTarget / 20)) in
                let gain := rnd (targetLinear / peak) in
                Some (Math.min gain 10)
          | None => Some (Math.min 0 10)
          end
      end
  end.

(** The same in exact arithmetic. *)
Definition calculateNormalizationGain (audioBuffer_ : option AudioBuffer.t)
    (normalizeTarget : Q) : option Q :=
  calculateNormalizationGain_with (fun q => q) audioBuffer_ normalizeTarget.
End Pow.

(** ** The transport (lines 652-831 and 968-1061)

    Playing, pausing, stopping and seeking read and write variables that
    [UI] leaves out: the audio context and the nodes of the graph, the
    current source, the start time, the pending animation frame and the
    settings of the effects.  [Transport.t] adds them to the component
    state, with what the functions do to the Web Audio graph: the
    connections between the nodes and the gain set on the amplifier.

    The clock of the audio context, [audioContext.currentTime], is read
    by the functions; each reading is an argument here.  Three calls of
    the platform can throw: [start] with a negative offset, [stop] on a
    source that was never started, and [getChannelData] on a buffer
    without channels.  A function in which that happens ends there, with
    the assignments it has made so far, and so does the handler that
    called it. *)

Module AudioNode.
(** The variables that hold the nodes created by [createAudioBuffer]. *)
Inductive name :=
  | highPassFilter | lowPassFilter | volumeNode | amplifyNode | analyserNode
  | compressorNode | limiterNode | saturatorNode | dynamicsGateNode
  | lowBandFilter | midBandFilter | highBandFilter
  | lowBandCompressor | midBandCompressor | highBandCompressor
  | multibandMerger.

(** A node of the graph: the node held by one of these variables, a
    buffer source (numbered in the order of creation), or the
    destination of the context. *)
Inductive t := named (n : name) | source (id : nat) | destination.

#[global] Instance name_eq_dec : EqDecision name.
Proof. solve_decision. Defined.

#[global] Instance eq_dec : EqDecision t.
Proof. solve_decision. Defined.
End AudioNode.

Module Source.
(** The source held by [sourceNode], and whether [start] was called on
    it. *)
Record t := mk { id : nat; started : bool }.
End Source.

Module Effects.
Record t := mk {
  amplify : Q;
  normalizeEnabled : bool;
  normalizeTarget : Q;
  compressorEnabled : bool;
  limiterEnabled : bool;
  multibandEnabled : bool;
  saturationEnabled : bool
}.

(** The initial values (lines 116-149). *)
Definition initial : t := mk 1 false (-1) false false false false.
End Effects.

Module Transport.
Import AudioNode.

Record t := mk {
  component : UI;
  audioContext : bool;
  present : AudioNode.name -> bool;
  sourceNode : option Source.t;
  sources : nat;
  startTime : Q;
  animationId : bool;
  effects : Effects.t;
  normalizeGain : Q;
  amplifyGain : Q;
  connections : list (AudioNode.t * AudioNode.t)
}.

Definition set_component (v : UI) (t : t) : Transport.t :=
  let 'mk _ a b c d e f g h i j := t in mk v a b c d e f g h i j.
Definition set_sourceNode (v : option Source.t) (t : t) : Transport.t :=
  let 'mk a b c _ d e f g h i j := t in mk a b c v d e f g h i j.
Definition set_sources (v : nat) (t : t) : Transport.t :=
  let 'mk a b c d _ e f g h i j := t in mk a b c d v e f g h i j.
Definition set_startTime (v : Q) (t : t) : Transport.t :=
  let 'mk a b c d e _ f g h i j := t in mk a b c d e v f g h i j.
Definition set_animationId (v : bool) (t : t) : Transport.t :=
  let 'mk a b c d e f _ g h i j := t in mk a b c d e f v g h i j.
Definition set_normalizeGain (v : Q) (t : t) : Transport.t :=
  let 'mk a b c d e f g h _ i j := t in mk a b c d e f g h v i j.
Definition set_amplifyGain (v : Q) (t : t) : Transport.t :=
  let 'mk a b c d e f g h i _ j := t in mk a b c d e f g h i v j.
Definition set_connections (v : list (AudioNode.t * AudioNode.t)) (t : t)
    : Transport.t :=
  let 'mk a b c d e f g h i j _ := t in mk a b c d e f g h i j v.

(** A synchronous function of the component run on the transport. *)
Definition on_component (f : UI -> UI) (t : t) : Transport.t :=
  set_component (f (component t)) t.

(** The state before anything is loaded: no context, no node. *)
Definition initial : t :=
  mk initial_UI false (fun _ => false) None 0 0 false Effects.initial 1 1 [].

(** [a.connect(b)] and [a.disconnect()] on the connections. *)
Definition connect (a b : AudioNode.t)
    (g : list (AudioNode.t * AudioNode.t)) : list (AudioNode.t * AudioNode.t) :=
  g ++ [(a, b)].

Definition disconnect (a : AudioNode.t)
    (g : list (AudioNode.t * AudioNode.t)) : list (AudioNode.t * AudioNode.t) :=
  List.filter (fun e => negb (bool_decide (fst e = a))) g.

(** Lines 663-682: every node that is there is disconnected. *)
Definition disconnectAll (t : t) : list (AudioNode.t * AudioNode.t) :=
  foldl (fun g n => if present t n then disconnect (named n) g else g)
        (connections t)
        [highPassFilter; lowPassFilter; volumeNode; amplifyNode; analyserNode;
         compressorNode; limiterNode; saturatorNode; dynamicsGateNode;
         lowBandFilter; midBandFilter; highBandFilter;
         lowBandCompressor; midBandCompressor; highBandCompressor;
         multibandMerger].

(** Lines 690-756: the chain from the new source to the destination,
    built on the connections [g] with the cursor [currentNode]. *)
Definition buildChain (t : t) (src : AudioNode.t)
    (g : list (AudioNode.t * AudioNode.t)) : list (AudioNode.t * AudioNode.t) :=
  let fx := effects t in
  let currentNode := src in
  let g := connect currentNode (named highPassFilter) g in
  let currentNode := named highPassFilter in
  let g := connect currentNode (named lowPassFilter) g in
  let currentNode := named lowPassFilter in
  let '(g, currentNode) :=
    if present t dynamicsGateNode then
      (connect currentNode (named dynamicsGateNode) g, named dynamicsGateNode)
    else (g, currentNode) in
  let '(g, currentNode) :=
    if Effects.multibandEnabled fx && present t lowBandFilter
       && present t midBandFilter && present t highBandFilter
       && present t lowBandCompressor && present t midBandCompressor
       && present t highBandCompressor && present t multibandMerger then
      let g := connect currentNode (named lowBandFilter) g in
      let g := connect currentNode (named midBandFilter) g in
      let g := connect currentNode (named highBandFilter) g in
      let g := connect (named lowBandFilter) (named lowBandCompressor) g in
      let g := connect (named midBandFilter) (named midBandCompressor) g in
      let g := connect (named highBandFilter) (named highBandCompressor) g in
      let g := connect (named lowBandCompressor) (named multibandMerger) g in
      let g := connect (named midBandCompressor) (named multibandMerger) g in
      let g := connect (named highBandCompressor) (named multibandMerger) g in
      (g, named multibandMerger)
    else (g, currentNode) in
  let '(g, currentNode) :=
    if Effects.compressorEnabled fx && present t compressorNode then
      (connect currentNode (named compressorNode) g, named compressorNode)
    else (g, currentNode) in
  let '(g, currentNode) :=
    if Effects.saturationEnabled fx && present t saturatorNode then
      (connect currentNode (named saturatorNode) g, named saturatorNode)
    else (g, currentNode) in
  let '(g, currentNode) :=
    if Effects.limiterEnabled fx && present t limiterNode then
      (connect currentNode (named limiterNode) g, named limiterNode)
    else (g, currentNode) in
  let g := connect currentNode (named amplifyNode) g in
  let g := connect (named amplifyNode) (named analyserNode) g in
  let g := connect (named analyserNode) (named volumeNode) g in
  connect (named volumeNode) destination g.

(** The comment of line 688 announces the chain
    [source -> HP -> LP -> [normalize] -> [multiband/compress] ->
    [saturate] -> [limit] -> amplify -> analyser -> volume -> dest].
    [signalRoutes] lists the routes that this describes, with the gate of
    the dynamics range, which the comment leaves out, after the filters;
    normalisation is no node of its own.  With the multiband compressor
    there are three routes, one through each band. *)
Definition stage (on : bool) (n : AudioNode.name) : list AudioNode.t :=
  if on then [named n] else [].

Definition multibandOn (t : t) : bool :=
  Effects.multibandEnabled (effects t) && present t lowBandFilter
  && present t midBandFilter && present t highBandFilter
  && present t lowBandCompressor && present t midBandCompressor
  && present t highBandCompressor && present t multibandMerger.

Definition signalRoutes (t : t) (src : AudioNode.t) : list (list AudioNode.t) :=
  let fx := effects t in
  let head :=
    [src; named highPassFilter; named lowPassFilter]
    ++ stage (present t dynamicsGateNode) dynamicsGateNode in
  let tail :=
    stage (Effects.compressorEnabled fx && present t compressorNode)
          compressorNode
    ++ stage (Effects.saturationEnabled fx && present t saturatorNode)
             saturatorNode
    ++ stage (Effects.limiterEnabled fx && present t limiterNode) limiterNode
    ++ [named amplifyNode; named analyserNode; named volumeNode; destination] in
  if multibandOn t then
    [ head ++ [named lowBandFilter; named lowBandCompressor;
               named multibandMerger] ++ tail;
      head ++ [named midBandFilter; named midBandCompressor;
               named multibandMerger] ++ tail;
      head ++ [named highBandFilter; named highBandCompressor;
               named multibandMerger] ++ tail ]
  else [head ++ tail].

(** The connections along a route: from each node to the next. *)
Fixpoint links (route : list AudioNode.t) : list (AudioNode.t * AudioNode.t) :=
  match route with
  | a :: ((b :: _) as rest) => (a, b) :: links rest
  | _ => []
  end.

(** The guard of [playAudio] (line 653) lets a call through. *)
Definition playable (t : t) : Prop :=
  audioContext t = true /\ is_Some (audioBuffer (component t)) /\
  present t highPassFilter = true /\ present t lowPassFilter = true /\
  present t volumeNode = true /\ present t amplifyNode = true /\
  present t analyserNode = true.

(** Lines 786-800.  [clearLevelMeter] paints the meter and is left
    out. *)
Definition stopAudio_throws (t : t) : bool :=
  match sourceNode t with
  | Some s => negb (Source.started s)
  | None => false
  end.

Definition stopAudio (t : t) : Transport.t :=
  if stopAudio_throws t then t
  else
    let t := set_sourceNode None t in
    let t := on_component (set_isPlaying false) t in
    let t := on_component (set_currentTime 0) t in
    let t := on_component (set_pausedAt 0) t in
    let t := set_animationId false t in
    match spectrogramData (component t) with
    | Some _ => on_component drawSpectrogram t
    | None => t
    end.

(** Lines 818-831, with the reading [now] of the clock.  [drawLevelMeter]
    paints the meter and is left out. *)
Definition updatePlayhead (now : Q) (t : t) : Transport.t :=
  match isPlaying (component t), audioContext t, audioInfo (component t) with
  | true, true, Some info =>
      let t := on_component (set_currentTime (now - startTime t)) t in
      if geb (currentTime (component t)) (AudioInfo.duration info) then
        stopAudio t
      else
        let t := on_component drawSpectrogram t in
        set_animationId true t
  | _, _, _ => t
  end.

(** The handler that [playAudio] installs on every source (lines
    758-765), run when the [ended] event of a source is delivered. *)
Definition onended (t : t) : Transport.t :=
  if isPlaying (component t) then
    let t := on_component (set_isPlaying false) t in
    let t := on_component (set_currentTime 0) t in
    let t := on_component (set_pausedAt 0) t in
    on_component drawSpectrogram t
  else t.

(** Lines 773-784, with the reading [now] of the clock. *)
Definition pauseAudio_throws (t : t) : bool :=
  match sourceNode t, audioContext t with
  | Some s, true => negb (Source.started s)
  | _, _ => false
  end.

Definition pauseAudio (now : Q) (t : t) : Transport.t :=
  match sourceNode t, audioContext t with
  | Some s, true =>
      let t := on_component (set_pausedAt (now - startTime t)) t in
      if negb (Source.started s) then t
      else
        let t := set_sourceNode None t in
        let t := on_component (set_isPlaying false) t in
        set_animationId false t
  | _, _ => t
  end.

Section Pow.
Variable pow : Q -> Q -> Q.

(** Lines 410-416; [None] when [getChannelData] throws. *)
Definition applyNormalization (t : t) : option Transport.t :=
  if Effects.normalizeEnabled (effects t)
     && bool_decide (is_Some (audioBuffer (component t))) then
    gain ← calculateNormalizationGain pow (audioBuffer (component t))
                                      (Effects.normalizeTarget (effects t));
    Some (set_normalizeGain gain t)
  else Some (set_normalizeGain 1 t).

(** Lines 652-771, with the reading [now] of the clock for the start
    time and the reading [now'] of [updatePlayhead].  Resuming a
    suspended context and the curve of the gate are left out. *)
Definition playAudio (now now' : Q) (t : t) : Transport.t :=
  if negb (audioContext t
           && bool_decide (is_Some (audioBuffer (component t)))
           && present t highPassFilter && present t lowPassFilter
           && present t volumeNode && present t amplifyNode
           && present t analyserNode) then t
  else
    match applyNormalization t with
    | None => t
    | Some t =>
        let g := disconnectAll t in
        let id := sources t in
        let t := set_sources (S id) t in
        let t := set_sourceNode (Some (Source.mk id false)) t in
        let fx := effects t in
        let t :=
          set_amplifyGain
            (if Effects.normalizeEnabled fx
             then Effects.amplify fx * normalizeGain t
             else Effects.amplify fx) t in
        let t := set_connections (buildChain t (source id) g) t in
        let t := set_startTime (now - pausedAt (component t)) t in
        if ltb (pausedAt (component t)) 0 then t
        else
          let t := set_sourceNode (Some (Source.mk id true)) t in
          let t := on_component (set_isPlaying true) t in
          updatePlayhead now' t
    end.

(** Lines 810-816. *)
Definition togglePlayPause (now now' : Q) (t : t) : Transport.t :=
  if isPlaying (component t) then pauseAudio now t else playAudio now now' t.

(** Lines 968-996.  The readings of the clock: [now] in [pauseAudio],
    [now'] and [now''] in [playAudio]. *)
Definition seekAudio (event : MouseEvent.t) (now now' now'' : Q) (t : t)
    : Transport.t :=
  match audioInfo (component t), canvas (component t),
        spectrogramData (component t) with
  | Some info, Some cv, Some _ =>
      let spectrogramWidth := Canvas.width cv - legendWidth in
      let x := MouseEvent.clientX event - Canvas.rect_left cv in
      let y := MouseEvent.clientY event - Canvas.rect_top cv in
      if gtb x spectrogramWidth || ltb y freqBarHeight then t
      else
        let seekTime := (x / spectrogramWidth) * AudioInfo.duration info in
        let wasPlaying := isPlaying (component t) in
        if wasPlaying && pauseAudio_throws t then pauseAudio now t
        else
          let t := if wasPlaying then pauseAudio now t else t in
          let t := on_component
                     (set_pausedAt
                        (Math.max 0 (Math.min seekTime (AudioInfo.duration info))))
                     t in
          let t := on_component (set_currentTime (pausedAt (component t))) t in
          if wasPlaying then playAudio now' now'' t
          else on_component drawSpectrogram t
  | _, _, _ => t
  end.

End Pow.

(** A transport as an import leaves it: a ten-second mono track, its
    spectrogram on a canvas of 860 by 430 pixels, the context and every
    node created, nothing playing. *)
Definition loaded : t :=
  mk (set_audioBuffer
        (Some (AudioBuffer.mk 1 4 44100
                 [[Fnum (1 # 4); Fnum (- (1 # 2)); Fnum 0; Fnum (1 # 8)]]))
        (set_ctx true
           (set_canvas (Some (Canvas.mk 860 430 0 0))
              (set_audioInfo (Some (AudioInfo.mk 10 44100 1))
                 (set_spectrogramData
                    (Some (SpectrogramData.mk [[-80; -20]] [0] 8000))
                    initial_UI)))))
     true (fun _ => true) None 0 0 false Effects.initial 1 1 [].

(** The handlers of the spectrogram that touch the component alone, on
    the transport. *)
Definition handleCanvasMouseMove (event : MouseEvent.t) (t : t) : Transport.t :=
  on_component (handleCanvasMouseMove event) t.

Definition handleCanvasMouseUp (t : t) : Transport.t :=
  on_component handleCanvasMouseUp t.
End Transport.

(** ** Times as text (lines 1607-1611) *)

From stdpp Require pretty.

(** [a % b] on numbers: the remainder has the sign of the dividend. *)
Definition trunc (q : Q) : Z := if ltb q 0 then (- Qfloor (- q))%Z else Qfloor q.

Definition remainder (a b : Q) : Q := a - b * inject_Z (trunc (a / b)).

(** The digits that [toFixed] writes for the integer [n] with
    [fractionDigits] digits after the point: the decimal numeral of [n],
    filled with zeros on the left to more than [fractionDigits]
    characters, with the point before the last [fractionDigits] of
    them. *)
Definition zeros (k : nat) : string := string_of_list_ascii (replicate k "0"%char).

Definition fixedDigits (fractionDigits : nat) (n : Z) : string :=
  let m := pretty.pretty n in
  if (fractionDigits =? 0)%nat then m
  else
    let k := String.length m in
    let m := if (k <=? fractionDigits)%nat
             then (zeros (fractionDigits + 1 - k) ++ m)%string else m in
    let k := String.length m in
    (substring 0 (k - fractionDigits) m ++ "."
     ++ substring (k - fractionDigits) fractionDigits m)%string.

(** [x.toFixed(fractionDigits)] for a number below [10^21] in
    magnitude: with [n] the integer for which [n / 10^fractionDigits] is
    closest to [x], the larger one if there are two. *)
Definition toFixed (fractionDigits : nat) (x : Q) : string :=
  let s := if ltb x 0 then "-"%string else ""%string in
  let x := if ltb x 0 then - x else x in
  let n := Qfloor (x * inject_Z (10 ^ Z.of_nat fractionDigits) + (1 # 2)) in
  (s ++ fixedDigits fractionDigits n)%string.

(** [s.padStart(targetLength, '0')] *)
Definition padStart0 (targetLength : nat) (s : string) : string :=
  (zeros (targetLength - String.length s) ++ s)%string.

Definition formatTime (seconds : Q) : string :=
  let mins := Math.floor (seconds / 60) in
  let secs := toFixed 1 (remainder seconds 60) in
  (pretty.pretty mins ++ ":" ++ padStart0 4 secs)%string.

(** * Properties *)

(** ** Numbers *)

Lemma ltb_lt (a b : Q) : ltb a b = true <-> a < b.
Proof.
  unfold ltb. rewrite negb_true_iff, <- not_true_iff_false, Qle_bool_iff.
  split; [apply Qnot_le_lt | apply Qlt_not_le].
Qed.

Lemma ltb_ge (a b : Q) : ltb a b = false <-> b <= a.
Proof. unfold ltb. rewrite negb_false_iff. apply Qle_bool_iff. Qed.

Lemma leb_le (a b : Q) : leb a b = true <-> a <= b.
Proof. apply Qle_bool_iff. Qed.

Lemma leb_gt (a b : Q) : leb a b = false <-> b < a.
Proof.
  unfold leb. rewrite <- not_true_iff_false, Qle_bool_iff.
  split; [apply Qnot_le_lt | apply Qlt_not_le].
Qed.

Lemma Math_min_le_l a b : Math.min a b <= a.
Proof. apply Q.le_min_l. Qed.
Lemma Math_min_le_r a b : Math.min a b <= b.
Proof. apply Q.le_min_r. Qed.
Lemma Math_max_ge_l a b : a <= Math.max a b.
Proof. apply Q.le_max_l. Qed.
Lemma Math_max_ge_r a b : b <= Math.max a b.
Proof. apply Q.le_max_r. Qed.
Lemma Math_min_glb a b c : c <= a -> c <= b -> c <= Math.min a b.
Proof. apply Q.min_glb. Qed.
Lemma Math_max_lub a b c : a <= c -> b <= c -> Math.max a b <= c.
Proof. apply Q.max_lub. Qed.

Create HintDb jsnum.
#[export] Hint Resolve Math_min_le_l Math_min_le_r Math_max_ge_l Math_max_ge_r
  Math_min_glb Math_max_lub Qle_refl : jsnum.

(** ** Rounding to binary floating point *)

Section BinaryRounding.
Import Binary.

Lemma rne_proper (a b : Q) : a == b -> rne a = rne b.
Proof.
  intros Hab. unfold rne.
  rewrite (Qfloor_comp _ _ Hab).
  assert (a - inject_Z (Qfloor b) == b - inject_Z (Qfloor b)) as Hfrac
    by (rewrite Hab; reflexivity).
  by rewrite (Qcompare_comp _ _ Hfrac _ _ (Qeq_refl (1 # 2))).
Qed.

Lemma rne_bounds (q : Q) :
  q - (1 # 2) <= inject_Z (rne q) /\ inject_Z (rne q) <= q + (1 # 2).
Proof.
  unfold rne.
  pose proof (Qfloor_le q) as Hlo. pose proof (Qlt_floor q) as Hhi.
  rewrite inject_Z_plus in Hhi. change (inject_Z 1) with 1 in Hhi.
  destruct (Qcompare_spec (q - inject_Z (Qfloor q)) (1 # 2)) as [He|Hl|Hg].
  - destruct (Z.even (Qfloor q));
      rewrite ?inject_Z_plus; change (inject_Z 1) with 1; lra.
  - lra.
  - rewrite inject_Z_plus. change (inject_Z 1) with 1. lra.
Qed.

Lemma rne_Z (z : Z) : rne (inject_Z z) = z.
Proof.
  unfold rne. rewrite Qfloor_Z.
  assert (inject_Z z - inject_Z z == 0) as Hz by ring.
  rewrite (Qcompare_comp _ _ Hz _ _ (Qeq_refl (1 # 2))). reflexivity.
Qed.

Lemma rne_floor (q : Q) : (Qfloor q <= rne q <= Qfloor q + 1)%Z.
Proof.
  unfold rne.
  destruct (Qcompare _ _); [destruct (Z.even _)| |]; lia.
Qed.

Lemma rne_monotone (a b : Q) : a <= b -> (rne a <= rne b)%Z.
Proof.
  intros Hab. pose proof (Qfloor_resp_le _ _ Hab) as Hf.
  destruct (Z.eq_dec (Qfloor a) (Qfloor b)) as [Heq|Hne].
  - unfold rne. rewrite <- Heq.
    destruct (Qcompare_spec (a - inject_Z (Qfloor a)) (1 # 2)) as [He|Hl|Hg];
      destruct (Qcompare_spec (b - inject_Z (Qfloor a)) (1 # 2)) as [He'|Hl'|Hg'];
      try destruct (Z.even (Qfloor a)); try lia; lra.
  - pose proof (rne_floor a). pose proof (rne_floor b). lia.
Qed.
End BinaryRounding.
Section Ilog2.
Import Binary.

Lemma pow2_pos (e : Z) : 0 < 2 ^ e.
Proof. apply Qpower_0_lt. lra. Qed.

Lemma pow2_succ (e : Z) : 2 ^ (e + 1) == 2 * 2 ^ e.
Proof. rewrite Qpower_plus by lra. change (2 ^ 1) with 2. ring. Qed.

Lemma pow2_pred (e : Z) : 2 ^ (e - 1) == 2 ^ e / 2.
Proof.
  rewrite Qpower_minus by lra. change (2 ^ 1) with 2. reflexivity.
Qed.

Lemma pow2_le (e e' : Z) : (e <= e')%Z -> 2 ^ e <= 2 ^ e'.
Proof. intros He. apply Qpower_le_compat_l; [done | lra]. Qed.

Lemma pow2_lt (e e' : Z) : (e < e')%Z -> 2 ^ e < 2 ^ e'.
Proof. intros He. apply Qpower_lt_compat_l; [done | lra]. Qed.

Lemma pow2_lt_inv (e e' : Z) : 2 ^ e < 2 ^ e' -> (e < e')%Z.
Proof. intros He. apply (Qpower_lt_compat_l_inv 2); [done | lra]. Qed.

Lemma pow2_Z (n : Z) : (0 <= n)%Z -> inject_Z (2 ^ n) == 2 ^ n.
Proof. intros Hn. by rewrite Zpower_Qpower. Qed.

Lemma ilog2_spec (a : Q) :
  0 < a -> 2 ^ ilog2 a <= a /\ a < 2 ^ (ilog2 a + 1).
Proof.
  intros Ha. destruct a as [n d]. unfold ilog2. cbn [Qnum Qden].
  assert (0 < n)%Z as Hn.
  { unfold Qlt in Ha. cbn in Ha. lia. }
  pose proof (Z.log2_spec n Hn) as [Hn1 Hn2].
  pose proof (Z.log2_spec (Z.pos d) (Pos2Z.is_pos d)) as [Hd1 Hd2].
  pose proof (Z.log2_nonneg n) as Hln. pose proof (Z.log2_nonneg (Z.pos d)) as Hld.
  set (ln := Z.log2 n) in *. set (ld := Z.log2 (Z.pos d)) in *.
  rewrite Zle_Qle in Hn1, Hd1. rewrite Zlt_Qlt in Hn2, Hd2.
  rewrite pow2_Z in Hn1, Hd1 by done.
  rewrite pow2_Z in Hn2, Hd2 by lia.
  replace (Z.succ ln) with (ln + 1)%Z in Hn2 by lia.
  replace (Z.succ ld) with (ld + 1)%Z in Hd2 by lia.
  rewrite pow2_succ in Hn2, Hd2.
  assert (n # d == inject_Z n / inject_Z (Z.pos d)) as Hq by apply Qmake_Qdiv.
  assert (0 < inject_Z (Z.pos d)) as Hdpos.
  { change 0 with (inject_Z 0). rewrite <- Zlt_Qlt. lia. }
  pose proof (pow2_pos ln) as Pn. pose proof (pow2_pos ld) as Pd.
  assert (2 ^ (ln - ld) == 2 ^ ln / 2 ^ ld) as Hsplit.
  { apply Qpower_minus. lra. }
  set (N := inject_Z n) in *. set (D := inject_Z (Z.pos d)) in *.
  assert (2 ^ (ln - ld) / 2 < N / D) as Hlow.
  { rewrite Hsplit. apply Qlt_shift_div_l; [done|].
    assert (2 ^ ln / 2 ^ ld / 2 * D == 2 ^ ln * (D / (2 * 2 ^ ld))) as ->
      by (field; lra).
    assert (D / (2 * 2 ^ ld) < 1) by (apply Qlt_shift_div_r; lra).
    nra. }
  assert (N / D < 2 * 2 ^ (ln - ld)) as Hhigh.
  { rewrite Hsplit. apply Qlt_shift_div_r; [done|].
    assert (2 * (2 ^ ln / 2 ^ ld) * D == 2 * 2 ^ ln * (D / 2 ^ ld)) as ->
      by (field; lra).
    assert (1 <= D / 2 ^ ld) by (apply Qle_shift_div_l; lra).
    nra. }
  destruct (Qle_bool (2 ^ (ln - ld)) (n # d)) eqn:Htest.
  - apply Qle_bool_iff in Htest. split; [done|].
    rewrite pow2_succ, Hq. done.
  - assert (n # d < 2 ^ (ln - ld)) as Hlt.
    { apply Qnot_le_lt. intros Hle. apply Qle_bool_iff in Hle. congruence. }
    split.
    + rewrite pow2_pred, Hq. lra.
    + by replace (ln - ld - 1 + 1)%Z with (ln - ld)%Z by lia.
Qed.

Lemma ilog2_unique (a : Q) (e : Z) :
  2 ^ e <= a -> a < 2 ^ (e + 1) -> ilog2 a = e.
Proof.
  intros Hlo Hhi.
  assert (0 < a) as Ha by (pose proof (pow2_pos e); lra).
  destruct (ilog2_spec a Ha) as [Hlo' Hhi'].
  assert (e < ilog2 a + 1)%Z by (apply pow2_lt_inv; lra).
  assert (ilog2 a < e + 1)%Z by (apply pow2_lt_inv; lra).
  lia.
Qed.

Lemma ilog2_proper (a b : Q) : 0 < a -> a == b -> ilog2 a = ilog2 b.
Proof.
  intros Ha Hab. destruct (ilog2_spec a Ha) as [Hlo Hhi].
  symmetry. apply ilog2_unique; by rewrite <- Hab.
Qed.

Lemma ilog2_monotone (a b : Q) : 0 < a -> a <= b -> (ilog2 a <= ilog2 b)%Z.
Proof.
  intros Ha Hab.
  destruct (ilog2_spec a Ha) as [Hlo Hhi].
  destruct (ilog2_spec b ltac:(lra)) as [Hlo' Hhi'].
  assert (ilog2 a < ilog2 b + 1)%Z by (apply pow2_lt_inv; lra).
  lia.
Qed.
End Ilog2.
Section Round.
Import Binary.
Variables prec emin : Z.
Hypothesis prec_pos : (1 <= prec)%Z.

(** The rounding of a positive number. *)
Let rp (a : Q) : Q := inject_Z (rne (a / ulp prec emin a)) * ulp prec emin a.

Lemma ulp_pos (a : Q) : 0 < ulp prec emin a.
Proof. apply pow2_pos. Qed.

Lemma ulp_proper (a b : Q) : 0 < a -> a == b -> ulp prec emin a = ulp prec emin b.
Proof. intros Ha Hab. unfold ulp. by rewrite (ilog2_proper a b). Qed.

Lemma rp_proper (a b : Q) : 0 < a -> a == b -> rp a == rp b.
Proof.
  intros Ha Hab. unfold rp. rewrite (ulp_proper a b) by done.
  rewrite (rne_proper (a / ulp prec emin b) (b / ulp prec emin b)); [reflexivity|].
  by rewrite Hab.
Qed.

Lemma round_cases (q : Q) :
  (q == 0 /\ round prec emin q = 0) \/
  (0 < q /\ round prec emin q == rp q) \/
  (q < 0 /\ round prec emin q == - rp (- q)).
Proof.
  unfold round. pose proof (Qred_correct q) as Hred.
  destruct (Qeq_bool (Qred q) 0) eqn:Hz.
  - left. apply Qeq_bool_iff in Hz. split; [by rewrite <- Hred | done].
  - apply Qeq_bool_neq in Hz. right.
    destruct (Qle_bool 0 (Qred q)) eqn:Hs.
    + apply Qle_bool_iff in Hs. left.
      assert (0 < q) as Hq by (rewrite <- Hred; lra). split; [done|].
      rewrite Qred_correct. apply (rp_proper (Qabs (Qred q)) q).
      * rewrite Qabs_pos by done. lra.
      * rewrite Qabs_pos by done. done.
    + assert (Qred q < 0) as Hneg.
      { apply Qnot_le_lt. intros Hle. apply Qle_bool_iff in Hle. congruence. }
      right. assert (q < 0) as Hq by (rewrite <- Hred; done). split; [done|].
      rewrite Qred_correct.
      assert (Qabs (Qred q) == - q) as Habs.
      { rewrite Qabs_neg by lra. by rewrite Hred. }
      apply Qopp_comp.
      apply (rp_proper (Qabs (Qred q)) (- q)); [rewrite Habs; lra | done].
Qed.

Lemma round_proper (a b : Q) : a == b -> round prec emin a = round prec emin b.
Proof.
  intros Hab. unfold round. by rewrite (Qred_complete a b Hab).
Qed.

Lemma rp_error (a : Q) : 0 < a -> Qabs (rp a - a) <= ulp prec emin a / 2.
Proof.
  intros Ha. pose proof (ulp_pos a) as Hu.
  destruct (rne_bounds (a / ulp prec emin a)) as [Hlo Hhi].
  unfold rp. set (u := ulp prec emin a) in *. set (n := inject_Z (rne (a / u))) in *.
  assert (a == a / u * u) as Hau by (field; lra).
  revert Hlo Hhi Hau. generalize (a / u). clearbody n u. intros x Hlo Hhi Hau.
  apply Qabs_Qle_condition. unfold Qdiv. change (/ 2) with (1 # 2).
  assert (0 <= (n - (x - (1 # 2))) * u) by (apply Qmult_le_0_compat; lra).
  assert (0 <= (x + (1 # 2) - n) * u) by (apply Qmult_le_0_compat; lra).
  split; lra.
Qed.

Lemma rp_nonneg (a : Q) : 0 < a -> 0 <= rp a.
Proof.
  intros Ha. pose proof (ulp_pos a) as Hu. unfold rp.
  apply Qmult_le_0_compat; [|lra].
  change 0 with (inject_Z 0). rewrite <- Zle_Qle.
  transitivity (Qfloor (a / ulp prec emin a)); [|apply rne_floor].
  change 0%Z with (Qfloor 0). apply Qfloor_resp_le.
  apply Qle_shift_div_l; lra.
Qed.

Lemma ulp_scale (a : Q) (k : Z) :
  2 ^ (Z.max (ilog2 a) emin + k) == 2 ^ (prec - 1 + k) * ulp prec emin a.
Proof.
  unfold ulp. rewrite <- Qpower_plus by lra. f_equiv. lia.
Qed.

Lemma rp_upper (a : Q) : 0 < a -> rp a <= 2 ^ (Z.max (ilog2 a) emin + 1).
Proof.
  intros Ha. pose proof (ulp_pos a) as Hu.
  destruct (ilog2_spec a Ha) as [_ Hhi].
  assert (a < 2 ^ (Z.max (ilog2 a) emin + 1)) as Hlt.
  { eapply Qlt_le_trans; [exact Hhi|]. apply pow2_le. lia. }
  rewrite ulp_scale in Hlt |- *. replace (prec - 1 + 1)%Z with prec in * by lia.
  unfold rp. apply Qmult_le_compat_r; [|lra].
  rewrite <- pow2_Z by lia. rewrite <- Zle_Qle.
  rewrite <- (rne_Z (2 ^ prec)). apply rne_monotone.
  rewrite pow2_Z by lia. apply Qle_shift_div_r; lra.
Qed.

Lemma rp_lower (a : Q) :
  0 < a -> (emin <= ilog2 a)%Z -> 2 ^ ilog2 a <= rp a.
Proof.
  intros Ha He. pose proof (ulp_pos a) as Hu.
  destruct (ilog2_spec a Ha) as [Hlo _].
  assert (2 ^ ilog2 a == 2 ^ (prec - 1) * ulp prec emin a) as Hscale.
  { unfold ulp. rewrite <- Qpower_plus by lra. rewrite Z.max_l by lia.
    f_equiv. lia. }
  rewrite Hscale in Hlo |- *.
  unfold rp. apply Qmult_le_compat_r; [|lra].
  rewrite <- pow2_Z by lia. rewrite <- Zle_Qle.
  rewrite <- (rne_Z (2 ^ (prec - 1))). apply rne_monotone.
  rewrite pow2_Z by lia. apply Qle_shift_div_l; lra.
Qed.

Lemma rp_monotone (a b : Q) : 0 < a -> a <= b -> rp a <= rp b.
Proof.
  intros Ha Hab. assert (0 < b) as Hb by lra.
  pose proof (ilog2_monotone a b Ha Hab) as Hlog.
  destruct (Z.eq_dec (Z.max (ilog2 a) emin) (Z.max (ilog2 b) emin)) as [Heq|Hne].
  - assert (ulp prec emin a = ulp prec emin b) as Hu by (unfold ulp; by rewrite Heq).
    unfold rp. rewrite Hu. pose proof (ulp_pos b).
    apply Qmult_le_compat_r; [|lra].
    rewrite <- Zle_Qle. apply rne_monotone.
    apply Qmult_le_compat_r; [done|]. apply Qinv_le_0_compat. lra.
  - assert (Z.max (ilog2 a) emin + 1 <= ilog2 b)%Z as Hstep by lia.
    eapply Qle_trans; [by apply rp_upper|].
    eapply Qle_trans; [|apply rp_lower; [done|lia]].
    by apply pow2_le.
Qed.

Lemma ulp_half (a : Q) :
  0 < a -> ulp prec emin a / 2 <= 2 ^ (- prec) * a + 2 ^ (emin - prec).
Proof.
  intros Ha. destruct (ilog2_spec a Ha) as [Hlo _].
  pose proof (pow2_pos (- prec)) as Hp. pose proof (pow2_pos (emin - prec)) as Hm.
  unfold ulp. rewrite <- pow2_pred.
  destruct (Z.le_ge_cases emin (ilog2 a)) as [He|He].
  - rewrite Z.max_l by done.
    replace (ilog2 a - (prec - 1) - 1)%Z with (- prec + ilog2 a)%Z by lia.
    rewrite Qpower_plus by lra.
    assert (2 ^ (- prec) * 2 ^ ilog2 a <= 2 ^ (- prec) * a).
    { rewrite !(Qmult_comm (2 ^ (- prec))). apply Qmult_le_compat_r; lra. }
    lra.
  - rewrite Z.max_r by lia.
    replace (emin - (prec - 1) - 1)%Z with (emin - prec)%Z by lia.
    assert (0 <= 2 ^ (- prec) * a) by (apply Qmult_le_0_compat; lra).
    lra.
Qed.

Lemma round_0 : round prec emin 0 = 0.
Proof. reflexivity. Qed.

Lemma round_sign (q : Q) :
  (0 <= q -> 0 <= round prec emin q) /\ (q <= 0 -> round prec emin q <= 0).
Proof.
  destruct (round_cases q) as [[Hq ->]|[[Hq ->]|[Hq ->]]].
  - split; lra.
  - pose proof (rp_nonneg q Hq). split; lra.
  - pose proof (rp_nonneg (- q) ltac:(lra)). split; lra.
Qed.

Lemma round_monotone (a b : Q) :
  a <= b -> round prec emin a <= round prec emin b.
Proof.
  intros Hab.
  destruct (round_cases a) as [[Ha Hra]|[[Ha Hra]|[Ha Hra]]];
    destruct (round_cases b) as [[Hb Hrb]|[[Hb Hrb]|[Hb Hrb]]];
    rewrite Hra, Hrb; try (exfalso; lra).
  - lra.
  - pose proof (rp_nonneg b Hb). lra.
  - by apply rp_monotone.
  - pose proof (rp_nonneg (- a) ltac:(lra)). lra.
  - pose proof (rp_nonneg (- a) ltac:(lra)). pose proof (rp_nonneg b Hb). lra.
  - assert (rp (- b) <= rp (- a)) by (apply rp_monotone; lra). lra.
Qed.

Lemma round_error (q : Q) :
  Qabs (round prec emin q - q) <= 2 ^ (- prec) * Qabs q + 2 ^ (emin - prec).
Proof.
  pose proof (pow2_pos (- prec)) as Hp. pose proof (pow2_pos (emin - prec)) as Hm.
  destruct (round_cases q) as [[Hq ->]|[[Hq ->]|[Hq ->]]].
  - assert (Qabs (0 - q) == 0) as ->.
    { rewrite Hq. reflexivity. }
    assert (0 <= 2 ^ (- prec) * Qabs q).
    { apply Qmult_le_0_compat; [lra | apply Qabs_nonneg]. }
    lra.
  - rewrite (Qabs_pos q) by lra.
    eapply Qle_trans; [by apply rp_error | by apply ulp_half].
  - rewrite (Qabs_neg q) by lra.
    assert (Qabs (- rp (- q) - q) == Qabs (rp (- q) - - q)) as ->.
    { rewrite <- Qabs_opp. apply Qabs_wd. ring. }
    eapply Qle_trans; [apply rp_error; lra | apply ulp_half; lra].
Qed.

Lemma rp_fixed (r : Q) (n : Z) :
  0 < r -> r == inject_Z n * ulp prec emin r -> rp r == r.
Proof.
  intros Hr Hgrid. pose proof (ulp_pos r) as Hu. unfold rp.
  rewrite (rne_proper (r / ulp prec emin r) (inject_Z n)).
  - rewrite rne_Z. by symmetry.
  - rewrite Hgrid at 1. field. lra.
Qed.

Lemma rp_on_grid (a : Q) :
  0 < a -> 0 < rp a -> exists n, rp a == inject_Z n * ulp prec emin (rp a).
Proof.
  intros Ha Hr. pose proof (rp_upper a Ha) as Hup.
  set (e := Z.max (ilog2 a) emin) in *.
  destruct (ilog2_spec (rp a) Hr) as [Hlo Hhi].
  assert (e <= Z.max (ilog2 (rp a)) emin)%Z as Hge.
  { destruct (Z.le_ge_cases emin (ilog2 a)) as [He|He].
    - pose proof (rp_lower a Ha He) as Hlow.
      assert (ilog2 a < ilog2 (rp a) + 1)%Z by (apply pow2_lt_inv; lra).
      lia.
    - lia. }
  assert (ilog2 (rp a) <= e + 1)%Z as Hle.
  { assert (ilog2 (rp a) < e + 1 + 1)%Z; [|lia].
    apply pow2_lt_inv. pose proof (pow2_lt (e + 1) (e + 1 + 1) ltac:(lia)). lra. }
  destruct (Z.eq_dec (Z.max (ilog2 (rp a)) emin) e) as [Heq|Hne].
  - exists (rne (a / ulp prec emin a)).
    assert (ulp prec emin (rp a) = ulp prec emin a) as ->; [|reflexivity].
    unfold ulp. by rewrite Heq.
  - assert (ilog2 (rp a) = e + 1)%Z as Hlog by lia.
    assert (rp a == 2 ^ (e + 1)) as Hval.
    { apply Qle_antisym; [done|]. by rewrite <- Hlog. }
    exists (2 ^ (prec - 1))%Z. rewrite pow2_Z by lia.
    rewrite Hval at 1. unfold ulp. rewrite <- Qpower_plus by lra.
    f_equiv. lia.
Qed.

Lemma round_idempotent (q : Q) :
  round prec emin (round prec emin q) == round prec emin q.
Proof.
  assert (forall a, 0 < a -> round prec emin (rp a) == rp a) as Hpos.
  { intros a Ha. pose proof (rp_nonneg a Ha) as Hnn.
    destruct (Qle_lt_or_eq _ _ Hnn) as [Hr|Hr].
    - destruct (round_cases (rp a)) as [[H0 _]|[[_ ->]|[Hneg _]]]; try lra.
      destruct (rp_on_grid a Ha Hr) as [n Hn].
      by apply (rp_fixed _ n).
    - rewrite (round_proper (rp a) 0) by done. by rewrite round_0. }
  assert (forall a, 0 < a -> round prec emin (- rp a) == - rp a) as Hneg.
  { intros a Ha. pose proof (rp_nonneg a Ha) as Hnn.
    destruct (Qle_lt_or_eq _ _ Hnn) as [Hr|Hr].
    - destruct (round_cases (- rp a)) as [[H0 _]|[[Hp _]|[_ ->]]]; try lra.
      rewrite (rp_proper (- - rp a) (rp a)) by (try ring; lra).
      destruct (rp_on_grid a Ha Hr) as [n Hn].
      by rewrite (rp_fixed _ n).
    - rewrite (round_proper (- rp a) 0) by lra. rewrite round_0. lra. }
  destruct (round_cases q) as [[Hq Hr]|[[Hq Hr]|[Hq Hr]]].
  - rewrite Hr. by rewrite round_0.
  - rewrite (round_proper _ _ Hr). rewrite Hr. by apply Hpos.
  - rewrite (round_proper _ _ Hr). rewrite Hr. apply Hneg. lra.
Qed.
End Round.

(** The rounding of doubles has the properties that [Double.rounding]
    asks for. *)
Lemma binary64_rounding : Double.rounding binary64.
Proof.
  assert (1 <= 53)%Z as Hprec by lia.
  split; unfold binary64.
  - intros a b Hab. by rewrite (round_proper _ _ a b Hab).
  - apply round_monotone. exact Hprec.
  - apply round_idempotent. exact Hprec.
  - reflexivity.
  - intros a. pose proof (round_error 53 (-1022) a) as Herr.
    assert (Double.eps == 2 ^ (- 53)) as -> by reflexivity.
    exact Herr.
Qed.

(** Exact arithmetic has them as well. *)
Lemma exact_rounding : Double.rounding (fun q => q).
Proof.
  split; try (intros; lra); try reflexivity.
  intros a. assert (a - a == 0) as -> by ring.
  assert (0 <= Double.eps * Qabs a).
  { apply Qmult_le_0_compat; [done | apply Qabs_nonneg]. }
  assert (0 < Double.eta) by apply pow2_pos.
  change (Qabs 0) with 0. lra.
Qed.

(** ** De-interleaving into the playback buffer *)

(** A loop [for (i = 0; i < n; i++) a[i] = f(i)] over an array. *)
Section StoreLoop.
Context {A : Type} (f : nat -> A).

Let store (a : list A) (i : nat) : list A := <[i := f i]> a.

Lemma foldl_store_length (l : list nat) (a : list A) :
  List.length (foldl store a l) = List.length a.
Proof.
  revert a. induction l as [|i l IH]; intros a; simpl; [done|].
  rewrite IH. unfold store. by rewrite length_insert.
Qed.

Lemma foldl_store_lookup (l : list nat) (a : list A) (i : nat) :
  (i < List.length a)%nat ->
  foldl store a l !! i = if decide (i ∈ l) then Some (f i) else a !! i.
Proof.
  revert a. induction l as [|j l IH]; intros a Hi; cbn [foldl].
  - rewrite decide_False by apply not_elem_of_nil. done.
  - rewrite IH by (unfold store; by rewrite length_insert).
    destruct (decide (i ∈ l)) as [Hl|Hl].
    + rewrite decide_True by (by right). done.
    + destruct (decide (i = j)) as [->|Hne].
      * rewrite decide_True by (by left).
        unfold store. by rewrite list_lookup_insert_eq.
      * rewrite decide_False by (intros [?|?]%elem_of_cons; done).
        unfold store. by rewrite list_lookup_insert_ne.
Qed.

Lemma store_loop_length n (a : list A) :
  List.length (foldl (fun a i => <[i := f i]> a) a (seq 0 n)) = List.length a.
Proof. apply foldl_store_length. Qed.

Lemma store_loop_lookup n (a : list A) i :
  (i < n)%nat -> (i < List.length a)%nat ->
  foldl (fun a i => <[i := f i]> a) a (seq 0 n) !! i = Some (f i).
Proof.
  intros Hn Hlen. change (foldl store a (seq 0 n) !! i = Some (f i)).
  rewrite foldl_store_lookup by done.
  rewrite decide_True; [done|]. apply elem_of_seq. lia.
Qed.
End StoreLoop.

Section Deinterleave.
Variable data : list Q.
Variable channels : nat.

Lemma fillChannel_length ch n cd :
  List.length (fillChannel data channels ch n cd) = List.length cd.
Proof.
  apply (store_loop_length (fun i => to_f32 (data !! (i * channels + ch)%nat))).
Qed.

Lemma fillChannel_lookup ch n cd i :
  (i < n)%nat -> (i < List.length cd)%nat ->
  fillChannel data channels ch n cd !! i =
    Some (to_f32 (data !! (i * channels + ch)%nat)).
Proof.
  apply (store_loop_lookup (fun i => to_f32 (data !! (i * channels + ch)%nat))).
Qed.

Let refill (n : nat) (b : list (list f32)) (ch : nat) : list (list f32) :=
  match b !! ch with
  | Some cd => <[ch := fillChannel data channels ch n cd]> b
  | None => b
  end.

Lemma refill_length n b ch : List.length (refill n b ch) = List.length b.
Proof. unfold refill. destruct (b !! ch); [by rewrite length_insert | done]. Qed.

Lemma foldl_refill_length n (l : list nat) b :
  List.length (foldl (refill n) b l) = List.length b.
Proof.
  revert b. induction l as [|a l IH]; intros b; simpl; [done|].
  by rewrite IH, refill_length.
Qed.

Lemma foldl_refill_lookup n (l : list nat) b ch :
  NoDup l ->
  foldl (refill n) b l !! ch =
    if decide (ch ∈ l) then fillChannel data channels ch n <$> b !! ch
    else b !! ch.
Proof.
  revert b. induction l as [|a l IH]; intros b Hnd; cbn [foldl].
  - rewrite decide_False by apply not_elem_of_nil. done.
  - apply NoDup_cons in Hnd as [Ha Hnd]. rewrite IH by done.
    destruct (decide (ch = a)) as [->|Hne].
    + rewrite decide_False by done. rewrite decide_True by (by left).
      unfold refill. destruct (b !! a) as [cd|] eqn:Hb; simpl.
      * rewrite list_lookup_insert_eq; [done|]. by eapply lookup_lt_Some.
      * by rewrite Hb.
    + assert (refill n b a !! ch = b !! ch) as ->.
      { unfold refill. destruct (b !! a); [|done].
        by rewrite list_lookup_insert_ne. }
      destruct (decide (ch ∈ l)) as [Hl|Hl].
      * by rewrite decide_True by (by right).
      * by rewrite decide_False by (intros [?|?]%elem_of_cons; done).
Qed.

Lemma fillBuffer_lookup n chans ch :
  (ch < channels)%nat ->
  fillBuffer data channels n chans !! ch =
    fillChannel data channels ch n <$> chans !! ch.
Proof.
  intros Hch. unfold fillBuffer.
  rewrite (foldl_refill_lookup n) by apply NoDup_seq.
  rewrite decide_True; [done|]. apply elem_of_seq. lia.
Qed.

Lemma fillBuffer_length n chans :
  List.length (fillBuffer data channels n chans) = List.length chans.
Proof. apply foldl_refill_length. Qed.
End Deinterleave.

(** Every frame index below [L / c] and channel below [c] addresses a
    sample inside the interleaved array. *)
Lemma interleaved_index_in_range (L c i ch : nat) :
  (i < L / c)%nat -> (ch < c)%nat -> (i * c + ch < L)%nat.
Proof.
  intros Hi Hch.
  assert (c * (L / c) <= L)%nat by (apply Nat.Div0.mul_div_le).
  nia.
Qed.

(** The buffer of a call that [createBuffer] takes. *)
Lemma buildAudioBuffer_supported ctx (s : AudioSamples.t) :
  let c := AudioSamples.channels s in
  let L := List.length (AudioSamples.samples s) in
  AudioContext.supports ctx c (L / c)%nat (AudioSamples.sample_rate s) = true ->
  buildAudioBuffer ctx s =
    Ok (AudioBuffer.mk c (L / c)%nat (AudioSamples.sample_rate s)
          (fillBuffer (AudioSamples.samples s) c (L / c)%nat
             (replicate c (replicate (L / c)%nat f32_zero)))).
Proof.
  intros c L Hok. unfold buildAudioBuffer, createBuffer.
  fold c L. by rewrite Hok.
Qed.

(** A call that the browser refuses: [createAudioBuffer] throws, and
    [audioBuffer] is as it was. *)
Lemma createAudioBuffer_refused {W} `{Host W} (s : AudioSamples.t) (st : St W) :
  let c := AudioSamples.channels s in
  let L := List.length (AudioSamples.samples s) in
  AudioContext.supports host_audioContext c (L / c)%nat
    (AudioSamples.sample_rate s) = false ->
  outcome_of (createAudioBuffer s) st
    = Throw (AudioContext.not_supported host_audioContext) /\
  state_after (createAudioBuffer s) st = st.
Proof.
  intros c L Hno. unfold outcome_of, state_after, createAudioBuffer,
    buildAudioBuffer, createBuffer.
  fold c L. rewrite Hno. by destruct st.
Qed.

(** C1.  For a result of [get_audio_samples] with [c >= 1]
    channels and [L] samples: when the browser creates the buffer of
    [L / c] frames (integer division), [createAudioBuffer] returns, and
    the buffer it installs has [c] channels of [L / c] frames each,
    frame [i] of channel [ch] holding the interleaved sample
    [samples[i * c + ch]] as a float32; when the browser refuses, as it
    does for [L < c], [createAudioBuffer] throws and no buffer is
    installed. *)
Theorem createAudioBuffer_deinterleaves {W} `{Host W}
    (s : AudioSamples.t) (st : St W) :
  let c := AudioSamples.channels s in
  let L := List.length (AudioSamples.samples s) in
  (1 <= c)%nat ->
  if AudioContext.supports host_audioContext c (L / c)%nat
       (AudioSamples.sample_rate s)
  then
    outcome_of (createAudioBuffer s) st = Return tt /\
    exists buf,
      audioBuffer (ui (state_after (createAudioBuffer s) st)) = Some buf /\
      AudioBuffer.numberOfChannels buf = c /\
      AudioBuffer.length buf = (L / c)%nat /\
      AudioBuffer.sampleRate buf = AudioSamples.sample_rate s /\
      List.length (AudioBuffer.channelData buf) = c /\
      forall ch, (ch < c)%nat ->
        exists channelData,
          AudioBuffer.channelData buf !! ch = Some channelData /\
          List.length channelData = (L / c)%nat /\
          forall i, (i < L / c)%nat ->
            exists v,
              AudioSamples.samples s !! (i * c + ch)%nat = Some v /\
              channelData !! i = Some (float32 v)
  else
    outcome_of (createAudioBuffer s) st
      = Throw (AudioContext.not_supported host_audioContext) /\
    state_after (createAudioBuffer s) st = st.
Proof.
  intros c L Hc.
  destruct (AudioContext.supports host_audioContext c (L / c)%nat
              (AudioSamples.sample_rate s)) eqn:Hok;
    [|by apply createAudioBuffer_refused].
  destruct st as [u w].
  unfold outcome_of, state_after, createAudioBuffer.
  rewrite (buildAudioBuffer_supported _ s Hok). fold c L.
  split; [reflexivity|]. destruct u. eexists. split; [reflexivity|].
  cbn [AudioBuffer.numberOfChannels AudioBuffer.length
       AudioBuffer.sampleRate AudioBuffer.channelData].
  repeat split.
  - by rewrite fillBuffer_length, length_replicate.
  - intros ch Hch.
    exists (fillChannel (AudioSamples.samples s) c ch (L / c)
              (replicate (L / c) f32_zero)).
    split; [|split].
    + rewrite fillBuffer_lookup by done.
      by rewrite lookup_replicate_2.
    + by rewrite fillChannel_length, length_replicate.
    + intros i Hi.
      destruct (lookup_lt_is_Some_2 (AudioSamples.samples s) (i * c + ch))
        as [v Hv].
      { by apply interleaved_index_in_range. }
      exists v. split; [done|].
      rewrite fillChannel_lookup; [by rewrite Hv | done |].
      by rewrite length_replicate.
Qed.

Lemma createAudioBuffer_deinterleaves_witness :
  exists buf,
    audioBuffer (ui (state_after
                       (createAudioBuffer
                          (AudioSamples.mk [1; 1 # 10; 3; 4; - (1 # 4); 6; 7]
                                           44100 2))
                       (mkSt initial_UI Mock.example)))
      = Some buf /\
    AudioBuffer.channelData buf
      = [[Fnum 1; Fnum 3; Fnum (- (1 # 4))];
         [Fnum (13421773 # 134217728); Fnum 4; Fnum 6]].
Proof.
  pose proof (createAudioBuffer_deinterleaves
                (AudioSamples.mk [1; 1 # 10; 3; 4; - (1 # 4); 6; 7] 44100 2)
                (mkSt initial_UI Mock.example)) as Hthm.
  cbv zeta in Hthm.
  change (AudioContext.supports _ _ _ _) with true in Hthm.
  destruct Hthm as [_ [buf [Hbuf _]]]; [simpl; lia|].
  exists buf. split; [exact Hbuf|].
  vm_compute in Hbuf. injection Hbuf as <-. reflexivity.
Defined.

(** Without the condition on the browser the statement fails.  For a
    result with fewer samples than channels there is no frame, the
    browser refuses a buffer without frames, and the playback buffer
    stays the one of the track loaded before, with its three frames. *)
Lemma createAudioBuffer_zero_frames_counterexample :
  let s := AudioSamples.mk [1 # 2] 44100 2 in
  let previous := AudioBuffer.mk 1 3 44100 [[Fnum 0; Fnum (1 # 2); Fnum 0]] in
  let st := mkSt (set_audioBuffer (Some previous) initial_UI) Mock.example in
  ((1 <= AudioSamples.channels s)%nat /\
   outcome_of (createAudioBuffer s) st = Throw "NotSupportedError"%string) /\
  ~ exists buf,
      audioBuffer (ui (state_after (createAudioBuffer s) st)) = Some buf /\
      AudioBuffer.length buf
        = (List.length (AudioSamples.samples s) / AudioSamples.channels s)%nat.
Proof.
  cbv zeta. split; [split; [simpl; lia | reflexivity]|].
  intros (buf & Hbuf & Hlen).
  vm_compute in Hbuf. injection Hbuf as <-. discriminate Hlen.
Qed.

(** A number that is not a float32 is stored as the nearest one. *)
Example float32_tenth : float32 (1 # 10) = Fnum (13421773 # 134217728).
Proof. reflexivity. Qed.

(** A decoded file without a single frame: no buffer is created, and
    [loadAudio] will show the exception as its error. *)
Example createAudioBuffer_no_frames :
  outcome_of (createAudioBuffer (AudioSamples.mk [] 44100 1))
             (mkSt initial_UI Mock.example)
    = Throw "NotSupportedError"%string.
Proof. reflexivity. Qed.

(** ** Reading a variable after assignments *)

(** [f (set_g v u)] for a variable [f] and an assignment [set_g]: the
    assigned value if [g] is [f], and [f u] otherwise.  The equation is
    proved for arbitrary [v] and [u] and then used as a rewrite rule, so
    that [u] itself is never unfolded. *)
Ltac ui_get_set :=
  repeat match goal with
  | |- context [?f (?g ?v ?u)] =>
      lazymatch type of u with UI => idtac end;
      lazymatch type of (g v u) with UI => idtac end;
      first
        [ let E := fresh "E" in
          assert (E : forall v0 u0, f (g v0 u0) = f u0)
            by (intros ? []; reflexivity);
          rewrite (E v u); clear E
        | let E := fresh "E" in
          assert (E : forall v0 u0, f (g v0 u0) = v0)
            by (intros ? []; reflexivity);
          rewrite (E v u); clear E ]
  end.

(** ** What rendering leaves alone *)

Ltac frame_draw :=
  intros [];
  unfold stopAudio, drawSpectrogram; cbn;
  repeat case_match; reflexivity.

Lemma drawSpectrogram_filePath u : filePath (drawSpectrogram u) = filePath u.
Proof. revert u. frame_draw. Qed.
Lemma drawSpectrogram_maxFreq u : maxFreq (drawSpectrogram u) = maxFreq u.
Proof. revert u. frame_draw. Qed.
Lemma drawSpectrogram_highPassFreq u :
  highPassFreq (drawSpectrogram u) = highPassFreq u.
Proof. revert u. frame_draw. Qed.
Lemma drawSpectrogram_lowPassFreq u :
  lowPassFreq (drawSpectrogram u) = lowPassFreq u.
Proof. revert u. frame_draw. Qed.
Lemma stopAudio_filePath u : filePath (stopAudio u) = filePath u.
Proof. revert u. frame_draw. Qed.
Lemma stopAudio_maxFreq u : maxFreq (stopAudio u) = maxFreq u.
Proof. revert u. frame_draw. Qed.

(** ** Running a computation one step at a time *)

Section Run.
Context {W : Type}.

Lemma prepend_nil {A} (r : outcome A * St W * list request) : prepend [] r = r.
Proof. by destruct r as [[o s] l]. Qed.

Lemma prepend_prepend {A} l1 l2 (r : outcome A * St W * list request) :
  prepend l1 (prepend l2 r) = prepend (l1 ++ l2) r.
Proof. destruct r as [[o s] l]; simpl. by rewrite app_assoc. Qed.

Lemma run_assign {B} (f : UI -> UI) (k : unit -> M W B) u w :
  (assign f ≫= k) (mkSt u w) = k tt (mkSt (f u) w).
Proof. unfold mbind, M_bind, assign. apply prepend_nil. Qed.

Lemma run_read {A B} (f : UI -> A) (k : A -> M W B) u w :
  (read f ≫= k) (mkSt u w) = k (f u) (mkSt u w).
Proof. unfold mbind, M_bind, read. apply prepend_nil. Qed.

Lemma run_ask {A B} mw r (h : W -> option A * W) (k : option A -> M W B)
    u w a w' :
  h w = (a, w') ->
  (ask mw r h ≫= k) (mkSt u w) = prepend [r] (k a (mkSt (mw w' u) w')).
Proof. intros Hh. unfold mbind, M_bind, ask; simpl. by rewrite Hh. Qed.

Lemma run_await_ok {A B} mw r (h : W -> result A * W) (k : A -> M W B)
    u w v w' :
  h w = (Ok v, w') ->
  (await mw r h ≫= k) (mkSt u w) = prepend [r] (k v (mkSt (mw w' u) w')).
Proof. intros Hh. unfold mbind, M_bind, await; simpl. by rewrite Hh. Qed.

Lemma run_await_err {A B} mw r (h : W -> result A * W) (k : A -> M W B)
    u w e w' :
  h w = (Err e, w') ->
  (await mw r h ≫= k) (mkSt u w) = (Throw e, mkSt (mw w' u) w', [r]).
Proof. intros Hh. unfold mbind, M_bind, await; simpl. by rewrite Hh. Qed.

Lemma issued_prepend {A} l (r : outcome A * St W * list request) :
  snd (prepend l r) = l ++ snd r.
Proof. by destruct r as [[o s] l']. Qed.

(** A handler that issues nothing adds nothing to what the body issued. *)
Lemma issued_try_catch_silent {A} (body : M W A) handler s :
  (forall e s', issued (handler e) s' = []) ->
  issued (try_catch body handler) s = issued body s.
Proof.
  intros Hsilent. unfold issued, try_catch.
  destruct (body s) as [[[a|e] s'] l]; simpl; [done|].
  rewrite issued_prepend. fold (issued (handler e) s').
  by rewrite Hsilent, app_nil_r.
Qed.
End Run.

(** Peel the statements in front of the next host interaction. *)
Ltac run_sync := repeat first [ rewrite run_assign | rewrite run_read ].

(** Case on the answer to the next [await] and step over it. *)
Ltac run_await Hh :=
  match goal with
  | |- context [(await ?mw ?r ?h ≫= ?k) (mkSt ?u ?w)] =>
      let v := fresh "v" in
      let e := fresh "e" in
      let w' := fresh "w" in
      destruct (h w) as [[v|e] w'] eqn:Hh;
      [ rewrite (run_await_ok mw r h k u w v w' Hh)
      | rewrite (run_await_err mw r h k u w e w' Hh) ]
  end.

(** ** Import *)

(** What [loadAudio] issues, by the answers of the host. *)
Section ImportLog.
Context {W : Type} `{Host W}.

Lemma loadAudio_handler_silent e (s : St W) :
  issued (assign (set_error e);; assign (set_loading false)) s = [].
Proof. reflexivity. Qed.

Lemma loadAudio_no_selection u (w w1 : W) :
  host_open loadAudio_options w = (None, w1) ->
  issued loadAudio (mkSt u w) = [ReqOpen loadAudio_options].
Proof.
  intros Hopen. unfold loadAudio.
  rewrite issued_try_catch_silent by apply loadAudio_handler_silent.
  unfold issued, open. rewrite (run_ask _ _ _ _ _ _ _ _ Hopen). reflexivity.
Qed.

Lemma loadAudio_empty_selection u (w : W) path w1 :
  host_open loadAudio_options w = (Some path, w1) ->
  truthy path = false ->
  issued loadAudio (mkSt u w) = [ReqOpen loadAudio_options].
Proof.
  intros Hopen Hpath. unfold loadAudio.
  rewrite issued_try_catch_silent by apply loadAudio_handler_silent.
  unfold issued, open. rewrite (run_ask _ _ _ _ _ _ _ _ Hopen), Hpath.
  reflexivity.
Qed.

(** With a path selected, the next request is [load_audio] with that
    path; if the file decodes, [compute_spectrogram] follows, with the
    value [maxFreq] has by then: the one at the call, unless a handler
    run while the dialog was open or the file was being decoded has
    changed it (the frequency input stays enabled all along). *)
Lemma loadAudio_selection u (w : W) path w1 :
  host_open loadAudio_options w = (Some path, w1) ->
  truthy path = true ->
  exists rest,
    issued loadAudio (mkSt u w) =
      ReqOpen loadAudio_options
      :: ReqInvoke load_audio [("path", ArgStr path)]%string :: rest /\
    forall info w2, host_load_audio path w1 = (Ok info, w2) ->
      exists (u2 : UI) rest',
        rest = ReqInvoke compute_spectrogram
                 [("maxFreq", ArgNum (maxFreq u2))]%string :: rest' /\
        ((forall (w' : W) u', maxFreq (host_meanwhile w' u') = maxFreq u') ->
         maxFreq u2 = maxFreq u).
Proof.
  intros Hopen Hpath. unfold loadAudio.
  rewrite issued_try_catch_silent by apply loadAudio_handler_silent.
  unfold issued, open.
  rewrite (run_ask _ _ _ _ _ _ _ _ Hopen), Hpath. run_sync.
  ui_get_set. rewrite stopAudio_filePath. ui_get_set.
  unfold invoke_load_audio. run_await Hload.
  2:{ eexists. split; [reflexivity|]. intros ? ? [=]. }
  run_sync. ui_get_set.
  assert (Hkept : (forall (w' : W) u',
                     maxFreq (host_meanwhile w' u') = maxFreq u') ->
                  maxFreq (host_meanwhile w0
                    (set_loadingStage "Decoding audio..."
                       (stopAudio
                          (set_error ""
                             (set_loadingStage "Opening file..."
                                (set_loading true
                                   (set_filePath path
                                      (host_meanwhile w1 u))))))))
                  = maxFreq u).
  { intros Hkeep. rewrite Hkeep. ui_get_set. rewrite stopAudio_maxFreq.
    ui_get_set. apply Hkeep. }
  unfold invoke_compute_spectrogram. run_await Hspec.
  2:{ eexists. split; [reflexivity|]. intros ? ? _.
      eexists _, _. split; [reflexivity|exact Hkept]. }
  rewrite !prepend_prepend, !issued_prepend.
  eexists. split; [reflexivity|]. intros ? ? _.
  eexists _, _. split; [reflexivity|exact Hkept].
Qed.
End ImportLog.

(** C2.  The only check on what [loadAudio] loads is the filter of the
    file dialog: the dialog is opened, first of all, with the single
    filter whose extensions are wav, mp3, flac, ogg and m4a; and whatever
    non-empty path the dialog hands back, whether or not it ends in one of
    these, is the path argument of a [load_audio] invocation that follows
    immediately.  With no path, nothing is invoked. *)
Theorem loadAudio_gated_by_dialog_filter_only {W} `{Host W} (s : St W) :
  OpenOptions.filters loadAudio_options
    = [DialogFilter.mk "Audio" ["wav"; "mp3"; "flac"; "ogg"; "m4a"]%string]
  /\ exists rest,
       issued loadAudio s = ReqOpen loadAudio_options :: rest /\
       match fst (host_open loadAudio_options (world s)) with
       | Some path =>
           if truthy path then
             exists rest',
               rest = ReqInvoke load_audio [("path", ArgStr path)]%string :: rest'
           else rest = []
       | None => rest = []
       end.
Proof.
  split; [reflexivity|]. destruct s as [u w]; cbn [world].
  destruct (host_open loadAudio_options w) as [[path|] w1] eqn:Hopen; cbn [fst].
  - destruct (truthy path) eqn:Hpath.
    + destruct (loadAudio_selection u w path w1 Hopen Hpath) as [rest [-> _]].
      eexists. split; [reflexivity|]. by eexists.
    + rewrite (loadAudio_empty_selection u w path w1 Hopen Hpath).
      by eexists.
  - rewrite (loadAudio_no_selection u w w1 Hopen). by eexists.
Qed.

(** C3.  [maxFreq] starts at 8000, and [loadAudio] passes the current
    value of [maxFreq] to [compute_spectrogram] once the file is decoded:
    on a component whose [maxFreq] is still the initial one, and as long
    as no handler run while [loadAudio] waits changes it, the invocation
    that follows [load_audio] is [compute_spectrogram] with
    [maxFreq = 8000]. *)
Theorem loadAudio_default_maxFreq {W} `{Host W} (s : St W) path w1 info w2 :
  maxFreq (ui s) = maxFreq initial_UI ->
  (forall (w : W) u, maxFreq (host_meanwhile w u) = maxFreq u) ->
  host_open loadAudio_options (world s) = (Some path, w1) ->
  truthy path = true ->
  host_load_audio path w1 = (Ok info, w2) ->
  maxFreq initial_UI = 8000 /\
  exists rest,
    issued loadAudio s =
      ReqOpen loadAudio_options
      :: ReqInvoke load_audio [("path", ArgStr path)]%string
      :: ReqInvoke compute_spectrogram [("maxFreq", ArgNum 8000)]%string
      :: rest.
Proof.
  destruct s as [u w]; cbn [ui world].
  intros Hmax Hkeep Hopen Hpath Hload. split; [reflexivity|].
  destruct (loadAudio_selection u w path w1 Hopen Hpath) as [rest [-> Hrest]].
  destruct (Hrest info w2 Hload) as (u2 & rest' & -> & Hu2).
  rewrite (Hu2 Hkeep), Hmax. by eexists.
Qed.

Lemma loadAudio_default_maxFreq_witness :
  exists rest,
    issued loadAudio (mkSt initial_UI Mock.example) =
      ReqOpen loadAudio_options
      :: ReqInvoke load_audio [("path", ArgStr "/tmp/test_audio.wav")]%string
      :: ReqInvoke compute_spectrogram [("maxFreq", ArgNum 8000)]%string
      :: rest.
Proof.
  apply (loadAudio_default_maxFreq (mkSt initial_UI Mock.example)
           "/tmp/test_audio.wav" Mock.example (AudioInfo.mk 1 44100 2)
           Mock.example); reflexivity.
Defined.

(** C4.  The results of the four commands that return a record are read
    through interfaces that declare exactly the fields of the command
    table, under their snake_case names: [load_audio] through
    [duration], [sample_rate], [channels]; [compute_spectrogram] through
    [data], [times], [max_freq]; [analyze_forensics] through the eight
    fields of the forensic record; [get_audio_samples] through [samples],
    [sample_rate], [channels]. *)
Theorem result_interfaces_field_names :
  field_names <$> invoke_result_type load_audio
    = Some ["duration"; "sample_rate"; "channels"]%string /\
  field_names <$> invoke_result_type compute_spectrogram
    = Some ["data"; "times"; "max_freq"]%string /\
  field_names <$> invoke_result_type analyze_forensics
    = Some ["enf_present"; "enf_strength_db"; "grid_freq"; "splice_times";
            "snr_db"; "dynamic_range_db"; "has_clipping"; "clipped_count"]%string /\
  field_names <$> invoke_result_type get_audio_samples
    = Some ["samples"; "sample_rate"; "channels"]%string.
Proof. repeat split. Qed.

(** ** Export *)

Section ExportLog.
Context {W : Type} `{Host W}.



End ExportLog.


(** A selection dragged from right to left, 0.5 s back to 0.2 s, is
    exported as the range from 0.2 s to 0.5 s. *)
Example exportAudio_reversed_selection :
  issued exportAudio
    (mkSt (set_selectionEnd (Some (2 # 10))
             (set_selectionStart (Some (5 # 10))
                (set_filePath "/tmp/test_audio.wav"
                   (set_audioInfo (Some (AudioInfo.mk 1 44100 2)) initial_UI))))
          Mock.example)
  = [ReqSave (SaveOptions.mk [DialogFilter.mk "WAV Audio" ["wav"%string]]
                "test_audio_selection.wav");
     ReqInvoke export_audio
       [("outputPath", ArgStr "/tmp/out.wav");
        ("startTime", ArgNum (2 # 10)); ("endTime", ArgNum (5 # 10))]%string].
Proof. vm_compute. reflexivity. Qed.

(** ** Dragging a filter line *)

Lemma bandsSeparated_drag_highpass newFreq hp lp mf :
  0 <= hp -> hp <= lp - 100 -> lp <= mf ->
  let hp' := Math.max 0 (Math.min newFreq (lp - 100)) in
  0 <= hp' /\ hp' <= lp - 100 /\ lp <= mf.
Proof.
  intros H0 Hsep Hmax hp'. subst hp'. repeat split; [| |done].
  - auto with jsnum.
  - apply Math_max_lub; [lra | auto with jsnum].
Qed.

Lemma bandsSeparated_drag_lowpass newFreq hp lp mf :
  0 <= hp -> hp <= lp - 100 -> lp <= mf ->
  let lp' := Math.min mf (Math.max newFreq (hp + 100)) in
  0 <= hp /\ hp <= lp' - 100 /\ lp' <= mf.
Proof.
  intros H0 Hsep Hmax lp'. subst lp'. repeat split; [done| |].
  - assert (hp + 100 <= Math.min mf (Math.max newFreq (hp + 100))); [|lra].
    apply Math_min_glb; [lra | auto with jsnum].
  - auto with jsnum.
Qed.

(** With [+] and [-] taken exactly, a mouse move keeps the filter bands
    separated, whichever filter is being dragged (and also when none is,
    or when a selection is being dragged instead). *)
Lemma handleCanvasMouseMove_exact_bands_separated
    (event : MouseEvent.t) (u : UI) :
  bandsSeparated u -> bandsSeparated (handleCanvasMouseMove event u).
Proof.
  unfold bandsSeparated, handleCanvasMouseMove.
  destruct u; cbn. intros (H0 & Hsep & Hmax).
  repeat case_match; subst;
    rewrite ?drawSpectrogram_highPassFreq, ?drawSpectrogram_lowPassFreq,
      ?drawSpectrogram_maxFreq; cbn; try done.
  - eapply bandsSeparated_drag_highpass; eassumption.
  - eapply bandsSeparated_drag_lowpass; eassumption.
  - eapply bandsSeparated_drag_highpass; eassumption.
  - eapply bandsSeparated_drag_lowpass; eassumption.
Qed.

(** ** Dragging a filter line in the arithmetic of doubles *)

Section Drag.
Variable rnd : Q -> Q.
Hypothesis Hrnd : Double.rounding rnd.

Lemma rounding_nonneg (a : Q) : 0 <= a -> 0 <= rnd a.
Proof.
  intros Ha. rewrite <- (Double.rounding_0 rnd Hrnd).
  by apply (Double.rounding_monotone rnd Hrnd).
Qed.

Lemma rounding_upper (a : Q) :
  0 <= a -> rnd a <= a + (Double.eps * a + Double.eta).
Proof.
  intros Ha. pose proof (Double.rounding_error rnd Hrnd a) as Herr.
  rewrite (Qabs_pos a) in Herr by done.
  apply Qabs_Qle_condition in Herr as [_ Herr]. lra.
Qed.

Lemma rounding_lower (a : Q) :
  0 <= a -> a - (Double.eps * a + Double.eta) <= rnd a.
Proof.
  intros Ha. pose proof (Double.rounding_error rnd Hrnd a) as Herr.
  rewrite (Qabs_pos a) in Herr by done.
  apply Qabs_Qle_condition in Herr as [Herr _]. lra.
Qed.

Lemma eps_scale (a b : Q) : a <= b -> Double.eps * a <= Double.eps * b.
Proof.
  intros Hab. rewrite !(Qmult_comm Double.eps).
  by apply Qmult_le_compat_r.
Qed.

(** The two clamps of lines 1080-1088, from any frequencies. *)
Lemma drag_highpass (newFreq lp : Q) :
  0 <= lp - 100 ->
  let hp' := Math.max 0 (Math.min newFreq (rnd (lp - 100))) in
  0 <= hp' /\ hp' <= rnd (lp - 100) /\
  hp' <= lp - 100 + (Double.eps * (lp - 100) + Double.eta).
Proof.
  intros Hlp hp'. subst hp'.
  pose proof (rounding_nonneg _ Hlp). pose proof (rounding_upper _ Hlp).
  assert (Math.max 0 (Math.min newFreq (rnd (lp - 100))) <= rnd (lp - 100)).
  { apply Math_max_lub; [lra | auto with jsnum]. }
  split; [auto with jsnum|]. split; lra.
Qed.

Lemma drag_lowpass (newFreq hp mf : Q) :
  0 <= hp -> rnd (hp + 100) <= mf ->
  let lp' := Math.min mf (Math.max newFreq (rnd (hp + 100))) in
  rnd (hp + 100) <= lp' /\ lp' <= mf /\
  hp <= lp' - 100 + (Double.eps * (hp + 100) + Double.eta).
Proof.
  intros Hhp Hmf lp'. subst lp'.
  pose proof (rounding_lower (hp + 100) ltac:(lra)).
  assert (rnd (hp + 100)
          <= Math.min mf (Math.max newFreq (rnd (hp + 100)))).
  { apply Math_min_glb; [lra | auto with jsnum]. }
  split; [done|]. split; [auto with jsnum | lra].
Qed.
End Drag.

(** C9.  Handling a mouse move while a filter is being
    dragged, from frequencies with [0 <= highPassFreq <= lowPassFreq - 100]
    and [lowPassFreq <= maxFreq], on a canvas that leaves the spectrogram
    a height: afterwards [0 <= highPassFreq] and [lowPassFreq <= maxFreq]
    still hold, and the dragged frequency is on its side of the limit
    that the code computes from the other one, with the rounding [rnd]
    of doubles: [highPassFreq <= rnd (lowPassFreq - 100)] for the
    high-pass line, [rnd (highPassFreq + 100) <= lowPassFreq] for the
    low-pass line.  The bands are therefore separated by 100 Hz less at
    most [2^-53 * maxFreq + 2^-1075]. *)
Theorem handleCanvasMouseMove_keeps_bands_separated
    (rnd : Q -> Q) (event : MouseEvent.t) (u : UI) (dragged : filter_kind) :
  Double.rounding rnd ->
  rnd (highPassFreq u) == highPassFreq u ->
  rnd (lowPassFreq u) == lowPassFreq u ->
  rnd (maxFreq u) == maxFreq u ->
  (forall cv, canvas u = Some cv ->
     ~ rnd (Canvas.height cv - freqBarHeight) == 0) ->
  draggingFilter u = Some dragged ->
  bandsSeparated u ->
  let u' := Double.handleCanvasMouseMove rnd event u in
  0 <= highPassFreq u' /\ lowPassFreq u' <= maxFreq u' /\
  match dragged with
  | highpass => highPassFreq u' <= rnd (lowPassFreq u' - 100)
  | lowpass => rnd (highPassFreq u' + 100) <= lowPassFreq u'
  end /\
  highPassFreq u' <= lowPassFreq u' - 100
                     + (Double.eps * maxFreq u' + Double.eta).
Proof.
  intros Hrnd Hhp Hlp Hmf _ Hdrag (H0 & Hsep & Hmax) u'.
  assert (0 < Double.eps) as Heps by done.
  assert (0 < Double.eta) as Heta by apply pow2_pos.
  assert (highPassFreq u <= rnd (lowPassFreq u - 100)) as Hsub.
  { rewrite <- Hhp. by apply (Double.rounding_monotone rnd Hrnd). }
  assert (rnd (highPassFreq u + 100) <= lowPassFreq u) as Hadd.
  { rewrite <- Hlp. apply (Double.rounding_monotone rnd Hrnd). lra. }
  assert (0 <= Double.eps * maxFreq u) as Hem.
  { apply Qmult_le_0_compat; lra. }
  pose proof (eps_scale (lowPassFreq u - 100) (maxFreq u) ltac:(lra)).
  pose proof (eps_scale (highPassFreq u + 100) (maxFreq u) ltac:(lra)).
  subst u'. unfold Double.handleCanvasMouseMove.
  destruct u; cbn -[Double.eps Double.eta] in *. subst.
  repeat case_match; subst;
    rewrite ?drawSpectrogram_highPassFreq, ?drawSpectrogram_lowPassFreq,
      ?drawSpectrogram_maxFreq; cbn -[Double.eps Double.eta];
    try (repeat split; lra).
  all: first
    [ match goal with
      | |- context [Math.max 0 (Math.min ?newFreq (?r (?lp - 100)))] =>
          destruct (drag_highpass r Hrnd newFreq lp ltac:(lra))
            as (? & ? & ?)
      end
    | match goal with
      | |- context [Math.min ?mf (Math.max ?newFreq (?r (?hp + 100)))] =>
          destruct (drag_lowpass r Hrnd newFreq hp mf ltac:(lra) ltac:(lra))
            as (? & ? & ?)
      end ];
    repeat split; lra.
Qed.

Lemma handleCanvasMouseMove_keeps_bands_separated_witness :
  let u := set_draggingFilter (Some lowpass)
             (set_canvas (Some (Canvas.mk 800 430 0 0))
                (set_audioInfo (Some (AudioInfo.mk 1 44100 2))
                   (set_spectrogramData
                      (Some (SpectrogramData.mk [[-80; -20]] [0] 8000))
                      initial_UI))) in
  let u' := Double.handleCanvasMouseMove binary64 (MouseEvent.mk 100 133 false) u in
  (0 <= highPassFreq u' /\ lowPassFreq u' <= maxFreq u' /\
   binary64 (highPassFreq u' + 100) <= lowPassFreq u' /\
   highPassFreq u' <= lowPassFreq u' - 100
                      + (Double.eps * maxFreq u' + Double.eta)) /\
  (5940 - (1 # 1000000000) < lowPassFreq u' /\ lowPassFreq u' < 5940).
Proof.
  split.
  - apply (handleCanvasMouseMove_keeps_bands_separated binary64
             (MouseEvent.mk 100 133 false) _ lowpass).
    + apply binary64_rounding.
    + reflexivity.
    + reflexivity.
    + reflexivity.
    + intros cv [= <-]. vm_compute. discriminate.
    + reflexivity.
    + unfold bandsSeparated; cbn. lra.
  - split; vm_compute; reflexivity.
Defined.

(** The separation itself, [highPassFreq <= lowPassFreq - 100], is not
    kept in the arithmetic of doubles.  On a canvas 430 pixels high,
    with [maxFreq] 8000, dragging the
    high-pass line to row 227 gives 4060.0000000000005 Hz ([4060 + 2^-41]);
    the bands are separated.  Dragging the low-pass line down to row 300
    then stops it at the double nearest to the sum of that and 100,
    which is 4160: less than 100 Hz above the high-pass frequency. *)
Lemma handleCanvasMouseMove_rounding_counterexample :
  let u0 := set_draggingFilter (Some highpass)
              (set_canvas (Some (Canvas.mk 800 430 0 0))
                 (set_audioInfo (Some (AudioInfo.mk 1 44100 2))
                    (set_spectrogramData
                       (Some (SpectrogramData.mk [[-80; -20]] [0] 8000))
                       initial_UI))) in
  let u1 := Double.handleCanvasMouseMove binary64
              (MouseEvent.mk 100 227 false) u0 in
  let u := set_draggingFilter (Some lowpass) u1 in
  let u' := Double.handleCanvasMouseMove binary64
              (MouseEvent.mk 100 300 false) u in
  (bandsSeparated u0 /\ bandsSeparated u /\
   highPassFreq u == 4060 + (1 # 2 ^ 41) /\ lowPassFreq u' == 4160) /\
  ~ bandsSeparated u'.
Proof.
  cbv zeta. split; [split; [|split; [|split]]|].
  - unfold bandsSeparated; cbn. lra.
  - unfold bandsSeparated. repeat split; vm_compute; discriminate.
  - vm_compute. reflexivity.
  - vm_compute. reflexivity.
  - intros (_ & Hsep & _). vm_compute in Hsep. by apply Hsep.
Qed.

(** ** The saturation curve *)

Lemma Qdiv_le_cross (a b c d : Q) :
  0 < b -> 0 < d -> a * d <= c * b -> a / b <= c / d.
Proof.
  intros Hb Hd Hcross.
  apply Qle_shift_div_r; [exact Hb|].
  assert (c / d * b == c * b / d) as -> by (field; lra).
  apply Qle_shift_div_l; [exact Hd | exact Hcross].
Qed.

Lemma Qabs_nonneg_eq (x : Q) : 0 <= x -> Math.abs x == x.
Proof. apply Qabs_pos. Qed.

Lemma Qabs_nonpos_eq (x : Q) : x <= 0 -> Math.abs x == - x.
Proof. apply Qabs_neg. Qed.

Section Saturation.
Variable k : Q.
Hypothesis k_nonneg : 0 <= k.

Let shape (x : Q) : Q := ((1 + k) * x) / (1 + k * Math.abs x).

Lemma shape_denominator_pos x : 0 < 1 + k * Math.abs x.
Proof.
  assert (0 <= Math.abs x) by apply Qabs_nonneg.
  assert (0 <= k * Math.abs x) by (apply Qmult_le_0_compat; assumption).
  lra.
Qed.

Lemma shape_le_1 x : x <= 1 -> shape x <= 1.
Proof.
  intros Hx. unfold shape.
  apply Qle_shift_div_r; [apply shape_denominator_pos|].
  destruct (Qlt_le_dec x 0) as [Hneg|Hpos].
  - rewrite (Qabs_nonpos_eq x) by lra.
    assert (0 <= k * - x) by (apply Qmult_le_0_compat; lra). lra.
  - rewrite (Qabs_nonneg_eq x) by lra. lra.
Qed.

Lemma shape_ge_m1 x : -1 <= x -> -1 <= shape x.
Proof.
  intros Hx. unfold shape.
  apply Qle_shift_div_l; [apply shape_denominator_pos|].
  destruct (Qlt_le_dec x 0) as [Hneg|Hpos].
  - rewrite (Qabs_nonpos_eq x) by lra. lra.
  - rewrite (Qabs_nonneg_eq x) by lra.
    assert (0 <= k * x) by (apply Qmult_le_0_compat; lra). lra.
Qed.

Lemma shape_monotone x y : x <= y -> shape x <= shape y.
Proof.
  intros Hxy. unfold shape.
  apply Qdiv_le_cross; try apply shape_denominator_pos.
  assert (0 <= k * (y - x)) as Hk by (apply Qmult_le_0_compat; lra).
  assert (0 <= k * k * (y - x)) as Hkk.
  { apply Qmult_le_0_compat; [apply Qmult_le_0_compat|]; lra. }
  ring_simplify in Hk. ring_simplify in Hkk.
  destruct (Qlt_le_dec x 0) as [Hx|Hx], (Qlt_le_dec y 0) as [Hy|Hy].
  - rewrite (Qabs_nonpos_eq x), (Qabs_nonpos_eq y) by lra.
    ring_simplify. lra.
  - rewrite (Qabs_nonpos_eq x), (Qabs_nonneg_eq y) by lra.
    assert (0 <= k * (- x * y)) as H1.
    { apply Qmult_le_0_compat; [lra|]. apply Qmult_le_0_compat; lra. }
    assert (0 <= k * k * (- x * y)) as H2.
    { apply Qmult_le_0_compat; [apply Qmult_le_0_compat; lra|].
      apply Qmult_le_0_compat; lra. }
    ring_simplify in H1. ring_simplify in H2. ring_simplify. lra.
  - lra.
  - rewrite (Qabs_nonneg_eq x), (Qabs_nonneg_eq y) by lra.
    ring_simplify. lra.
Qed.
End Saturation.

(** The abscissa of table entry [i]: [(i * 2) / samples - 1]. *)
Section Abscissa.
Variable samples : nat.
Hypothesis samples_pos : (0 < samples)%nat.

Let xs (i : nat) : Q :=
  (inject_Z (Z.of_nat i) * 2) / inject_Z (Z.of_nat samples) - 1.

Lemma samples_Q_pos : 0 < inject_Z (Z.of_nat samples).
Proof. change 0 with (inject_Z 0). rewrite <- Zlt_Qlt. lia. Qed.

Lemma abscissa_monotone i j : (i <= j)%nat -> xs i <= xs j.
Proof.
  intros Hij. unfold xs.
  assert (inject_Z (Z.of_nat i) <= inject_Z (Z.of_nat j)) as Hq
    by (rewrite <- Zle_Qle; lia).
  assert (inject_Z (Z.of_nat i) * 2 / inject_Z (Z.of_nat samples)
          <= inject_Z (Z.of_nat j) * 2 / inject_Z (Z.of_nat samples)); [|lra].
  apply Qdiv_le_cross; try apply samples_Q_pos.
  pose proof samples_Q_pos as Hn.
  apply Qmult_le_compat_r; lra.
Qed.

Lemma abscissa_lower i : -1 <= xs i.
Proof.
  unfold xs.
  assert (0 <= inject_Z (Z.of_nat i) * 2 / inject_Z (Z.of_nat samples)); [|lra].
  apply Qle_shift_div_l; [apply samples_Q_pos|].
  assert (0 <= inject_Z (Z.of_nat i))
    by (change 0 with (inject_Z 0); rewrite <- Zle_Qle; lia).
  lra.
Qed.

Lemma abscissa_upper i : (i < samples)%nat -> xs i <= 1.
Proof.
  intros Hi. unfold xs.
  assert (inject_Z (Z.of_nat i) * 2 / inject_Z (Z.of_nat samples) <= 2); [|lra].
  apply Qle_shift_div_r; [apply samples_Q_pos|].
  assert (inject_Z (Z.of_nat i) <= inject_Z (Z.of_nat samples))
    by (rewrite <- Zle_Qle; lia).
  lra.
Qed.
End Abscissa.

Lemma makeSaturationCurve_of_length samples amount :
  List.length (makeSaturationCurve_of samples amount) = samples.
Proof.
  unfold makeSaturationCurve_of.
  rewrite (store_loop_length (fun i => Fnum (saturationSample (amount * 50) samples i))).
  apply length_replicate.
Qed.

Lemma makeSaturationCurve_of_lookup samples amount i :
  (i < samples)%nat ->
  makeSaturationCurve_of samples amount !! i
    = Some (Fnum (saturationSample (amount * 50) samples i)).
Proof.
  intros Hi. unfold makeSaturationCurve_of.
  apply (store_loop_lookup (fun i => Fnum (saturationSample (amount * 50) samples i)));
    [done | by rewrite length_replicate].
Qed.

(** C10.  For an amount between 0 and 1 the saturation curve has 44100
    entries, every entry is a number between -1 and 1, and the entries
    do not decrease with the index. *)
Theorem makeSaturationCurve_bounded_monotone (amount : Q) :
  0 <= amount <= 1 ->
  Z.of_nat (List.length (makeSaturationCurve amount)) = 44100%Z /\
  (forall i v, makeSaturationCurve amount !! i = Some v ->
     exists q, v = Fnum q /\ -1 <= q <= 1) /\
  (forall i j vi vj, (i <= j)%nat ->
     makeSaturationCurve amount !! i = Some vi ->
     makeSaturationCurve amount !! j = Some vj ->
     exists qi qj, vi = Fnum qi /\ vj = Fnum qj /\ qi <= qj).
Proof.
  intros [Hlo Hhi]. unfold makeSaturationCurve.
  set (n := Z.to_nat 44100).
  assert (0 < n)%nat as Hn by (subst n; lia).
  assert (0 <= amount * 50) as Hk by lra.
  split; [|split].
  - rewrite makeSaturationCurve_of_length. subst n. lia.
  - intros i v Hv.
    assert (i < n)%nat as Hi.
    { apply lookup_lt_Some in Hv.
      by rewrite makeSaturationCurve_of_length in Hv. }
    rewrite makeSaturationCurve_of_lookup in Hv by done.
    injection Hv as <-. eexists. split; [reflexivity|].
    unfold saturationSample. split.
    + apply shape_ge_m1; [done | by apply abscissa_lower].
    + apply shape_le_1; [done | by apply abscissa_upper].
  - intros i j vi vj Hij Hvi Hvj.
    assert (j < n)%nat as Hj.
    { apply lookup_lt_Some in Hvj.
      by rewrite makeSaturationCurve_of_length in Hvj. }
    rewrite makeSaturationCurve_of_lookup in Hvi by lia.
    rewrite makeSaturationCurve_of_lookup in Hvj by done.
    injection Hvi as <-. injection Hvj as <-.
    do 2 eexists. split; [reflexivity|]. split; [reflexivity|].
    unfold saturationSample.
    apply shape_monotone; [done | by apply abscissa_monotone].
Qed.

Lemma makeSaturationCurve_bounded_monotone_witness :
  Z.of_nat (List.length (makeSaturationCurve (3 # 10))) = 44100%Z /\
  (forall i v, makeSaturationCurve (3 # 10) !! i = Some v ->
     exists q, v = Fnum q /\ -1 <= q <= 1) /\
  (forall i j vi vj, (i <= j)%nat ->
     makeSaturationCurve (3 # 10) !! i = Some vi ->
     makeSaturationCurve (3 # 10) !! j = Some vj ->
     exists qi qj, vi = Fnum qi /\ vj = Fnum qj /\ qi <= qj).
Proof. apply makeSaturationCurve_bounded_monotone. lra. Defined.

(** A small table, amount 0.3 (so [k = 15]), eight samples: the entries
    run from -1 through 0 to 48/49. *)
Example makeSaturationCurve_small :
  exists q0 q4 q7,
    makeSaturationCurve_of 8 (3 # 10) !! 0%nat = Some (Fnum q0) /\
    makeSaturationCurve_of 8 (3 # 10) !! 4%nat = Some (Fnum q4) /\
    makeSaturationCurve_of 8 (3 # 10) !! 7%nat = Some (Fnum q7) /\
    q0 == -1 /\ q4 == 0 /\ q7 == 48 # 49.
Proof.
  do 3 eexists.
  split; [vm_compute; reflexivity|].
  split; [vm_compute; reflexivity|].
  split; [vm_compute; reflexivity|].
  repeat split.
Qed.

(** ** The saturation curve under rounding *)

Section Rnd.
Import Rounded.
Variable fp : arith.
Hypothesis IEEE : ieee_like fp.
Abbreviation r := (rnd fp).
Abbreviation eps := half_ulp.

Lemma r_proper : Proper (Qeq ==> Qeq) r.
Proof.
  intros a b Hab. apply Qle_antisym; apply (rnd_monotone fp IEEE); rewrite Hab; apply Qle_refl.
Qed.
#[local] Existing Instance r_proper.

Lemma r_nonneg a : 0 <= a -> 0 <= r a.
Proof. intros Ha. rewrite <- (rnd_0 fp IEEE). by apply (rnd_monotone fp IEEE). Qed.

Lemma r_ge_1 a : 1 <= a -> 1 <= r a.
Proof. intros Ha. rewrite <- (rnd_1 fp IEEE). by apply (rnd_monotone fp IEEE). Qed.

Lemma r_m1 : r (-1) == -1.
Proof. rewrite (rnd_odd fp IEEE 1), (rnd_1 fp IEEE). reflexivity. Qed.

Lemma eps_pos : 0 < eps.
Proof. reflexivity. Qed.

Lemma mult_bounds (a b A B : Q) :
  - A <= a <= A -> - B <= b <= B -> - (A * B) <= a * b <= A * B.
Proof.
  intros [Ha1 Ha2] [Hb1 Hb2].
  assert (0 <= (A - a) * (B - b)) by (apply Qmult_le_0_compat; lra).
  assert (0 <= (A + a) * (B + b)) by (apply Qmult_le_0_compat; lra).
  assert (0 <= (A - a) * (B + b)) by (apply Qmult_le_0_compat; lra).
  assert (0 <= (A + a) * (B - b)) by (apply Qmult_le_0_compat; lra).
  split; lra.
Qed.

Section K.
Variable k : Q.
Hypothesis k_lo : 0 <= k.
Hypothesis k_hi : k <= 50 + eps.
Hypothesis k_repr : r k == k.
Let K := r (1 + k).

Lemma K_ge_1 : 1 <= K.
Proof. apply r_ge_1. lra. Qed.

Lemma K_close : 1 + k - eps <= K <= 1 + k + eps.
Proof. apply (rnd_error fp IEEE). pose proof eps_pos. unfold half_ulp in *. lra. Qed.


(** The rounded numerator and denominator at an abscissa [x] in [-1, 1]. *)
Section At.
Variable x : Q.
Hypothesis x_range : -1 <= x <= 1.
Let n := r (K * x).
Let d := r (1 + r (k * Math.abs x)).

Lemma abs_range : 0 <= Math.abs x <= 1.
Proof.
  split; [apply Qabs_nonneg|]. apply Qabs_Qle_condition. lra.
Qed.

Lemma k_abs_range : 0 <= k * Math.abs x <= 50 + eps.
Proof.
  pose proof abs_range as [Ha0 Ha1]. split.
  - apply Qmult_le_0_compat; lra.
  - assert (0 <= k * (1 - Math.abs x)) by (apply Qmult_le_0_compat; lra). lra.
Qed.

Lemma p_close :
  0 <= r (k * Math.abs x) /\
  k * Math.abs x - eps <= r (k * Math.abs x) <= k * Math.abs x + eps.
Proof.
  pose proof k_abs_range as [H0 H1]. pose proof eps_pos as He.
  split; [by apply r_nonneg|].
  apply (rnd_error fp IEEE). unfold half_ulp in *. lra.
Qed.

Lemma d_ge_1 : 1 <= d.
Proof. pose proof p_close as [Hp _]. apply r_ge_1. lra. Qed.

Lemma d_close :
  1 + k * Math.abs x - 2 * eps <= d <= 1 + k * Math.abs x + 2 * eps.
Proof.
  pose proof p_close as [Hp0 [Hp1 Hp2]]. pose proof k_abs_range as [H0 H1].
  pose proof eps_pos as He.
  assert (1 + r (k * Math.abs x) - eps <= d <= 1 + r (k * Math.abs x) + eps)
    as [Hd1 Hd2].
  { apply (rnd_error fp IEEE). unfold half_ulp in *. lra. }
  lra.
Qed.

Lemma Kx_range : - (51 + 2 * eps) <= K * x <= 51 + 2 * eps.
Proof.
  pose proof K_close as [HK1 HK2]. pose proof K_ge_1 as HK.
  assert (- ((51 + 2 * eps) * 1) <= K * x <= (51 + 2 * eps) * 1) as [H1 H2].
  { apply mult_bounds; lra. }
  lra.
Qed.

Lemma n_close : K * x - eps <= n <= K * x + eps.
Proof.
  pose proof Kx_range as [H1 H2]. pose proof eps_pos as He.
  apply (rnd_error fp IEEE). unfold half_ulp in *. lra.
Qed.

(** Away from the ends of the interval the numerator is within the
    denominator. *)
Lemma n_within_d :
  Math.abs x <= 1 - 6 * eps -> - d <= n <= d.
Proof.
  intros Hx. pose proof n_close as [Hn1 Hn2]. pose proof d_close as [Hd1 Hd2].
  pose proof K_close as [HK1 HK2]. pose proof K_ge_1 as HK.
  pose proof abs_range as [Ha0 Ha1]. pose proof eps_pos as He.
  assert (- (K * Math.abs x) <= K * x <= K * Math.abs x) as [Hx1 Hx2].
  { destruct (Qlt_le_dec x 0) as [Hneg|Hpos].
    - rewrite (Qabs_neg x) by lra.
      assert (0 <= K * - x) by (apply Qmult_le_0_compat; lra). split; lra.
    - rewrite (Qabs_pos x) by lra.
      assert (0 <= K * x) by (apply Qmult_le_0_compat; lra). split; lra. }
  assert (K * Math.abs x <= (1 + k + eps) * Math.abs x) as HKa.
  { apply Qmult_le_compat_r; lra. }
  assert (eps * Math.abs x <= eps * 1) as Hea.
  { apply Qmult_le_l; lra. }
  split; lra.
Qed.
End At.

Lemma quotient_bounded x :
  -1 <= x <= 1 -> Math.abs x <= 1 - 6 * eps ->
  -1 <= quotient fp k x <= 1.
Proof.
  intros Hx Habs. unfold quotient. fold K.
  pose proof (d_ge_1 x Hx) as Hd. pose proof (n_within_d x Hx Habs) as [Hn1 Hn2].
  split.
  - apply Qle_shift_div_l; lra.
  - apply Qle_shift_div_r; lra.
Qed.

Lemma quotient_at_m1 x : x == -1 -> quotient fp k x == -1.
Proof.
  intros Hx. unfold quotient. rewrite Hx.
  assert (Math.abs (-1) == 1) as -> by reflexivity.
  assert (k * 1 == k) as -> by ring.
  rewrite k_repr. fold K.
  assert (K * -1 == - K) as -> by ring.
  rewrite (rnd_odd fp IEEE K). unfold K at 1.
  rewrite (rnd_idempotent fp IEEE (1 + k)). fold K.
  pose proof K_ge_1. field. lra.
Qed.

Lemma cross_nonneg x y : x <= y -> 0 <= y * Math.abs x - x * Math.abs y.
Proof.
  intros Hxy.
  destruct (Qlt_le_dec x 0) as [Hx|Hx], (Qlt_le_dec y 0) as [Hy|Hy].
  - rewrite (Qabs_neg x), (Qabs_neg y) by lra. lra.
  - rewrite (Qabs_neg x), (Qabs_pos y) by lra.
    assert (0 <= y * - x) by (apply Qmult_le_0_compat; lra). lra.
  - lra.
  - rewrite (Qabs_pos x), (Qabs_pos y) by lra. lra.
Qed.

Lemma quotient_monotone x y :
  -1 <= x -> y <= 1 -> x + 2000 * eps <= y ->
  quotient fp k x <= quotient fp k y.
Proof.
  intros Hx Hy Hgap. pose proof eps_pos as He.
  assert (-1 <= x <= 1) as Hxr by lra.
  assert (-1 <= y <= 1) as Hyr by lra.
  unfold quotient. fold K.
  set (nx := r (K * x)). set (ny := r (K * y)).
  set (dx := r (1 + r (k * Math.abs x))). set (dy := r (1 + r (k * Math.abs y))).
  pose proof (d_ge_1 x Hxr) as Hdx1. pose proof (d_ge_1 y Hyr) as Hdy1.
  fold dx in Hdx1. fold dy in Hdy1.
  apply Qdiv_le_cross; [lra | lra |].
  pose proof (n_close x Hxr) as Hnx. pose proof (n_close y Hyr) as Hny.
  pose proof (d_close x Hxr) as Hdx. pose proof (d_close y Hyr) as Hdy.
  fold nx in Hnx. fold ny in Hny. fold dx in Hdx. fold dy in Hdy.
  pose proof (Kx_range x Hxr) as HKx. pose proof (Kx_range y Hyr) as HKy.
  pose proof (k_abs_range x Hxr) as Hkx. pose proof (k_abs_range y Hyr) as Hky.
  pose proof K_ge_1 as HK.
  (* the exact part *)
  assert (0 <= (K - 1) * (y - x)) as Hcore1 by (apply Qmult_le_0_compat; lra).
  assert (0 <= (K * k) * (y * Math.abs x - x * Math.abs y)) as Hcore2.
  { apply Qmult_le_0_compat; [apply Qmult_le_0_compat; lra|].
    apply cross_nonneg. lra. }
  (* the rounding errors, each a product of two bounded factors *)
  assert (- ((51 + 2 * eps) * (2 * eps))
          <= (K * y) * (dx - (1 + k * Math.abs x))
          <= (51 + 2 * eps) * (2 * eps)) as Hyb by (apply mult_bounds; lra).
  assert (- ((51 + 2 * eps) * (2 * eps))
          <= (K * x) * (dy - (1 + k * Math.abs y))
          <= (51 + 2 * eps) * (2 * eps)) as Hxb by (apply mult_bounds; lra).
  assert (- (eps * (51 + 3 * eps)) <= (ny - K * y) * dx <= eps * (51 + 3 * eps))
    as Hay by (apply mult_bounds; lra).
  assert (- (eps * (51 + 3 * eps)) <= (nx - K * x) * dy <= eps * (51 + 3 * eps))
    as Hax by (apply mult_bounds; lra).
  unfold half_ulp in *. lra.
Qed.

(** The rounded abscissas of a table of [N] entries. *)
Section Table.
Variable N : nat.
Hypothesis N_pos : (0 < N)%nat.
Hypothesis N_small : (Z.of_nat N <= 1000000)%Z.

Let t (i : nat) : Q := (inject_Z (Z.of_nat i) * 2) / inject_Z (Z.of_nat N).

Lemma N_Q_pos : 0 < inject_Z (Z.of_nat N).
Proof. change 0 with (inject_Z 0). rewrite <- Zlt_Qlt. lia. Qed.

Lemma step_lower : 2 # 1000000 <= 2 / inject_Z (Z.of_nat N).
Proof.
  apply Qle_shift_div_l; [apply N_Q_pos|].
  assert (inject_Z (Z.of_nat N) <= inject_Z 1000000) as HN
    by (rewrite <- Zle_Qle; lia).
  change (inject_Z 1000000) with 1000000 in HN. lra.
Qed.

Lemma t_step i j : (i < j)%nat -> t i + 2 / inject_Z (Z.of_nat N) <= t j.
Proof.
  intros Hij. unfold t. pose proof N_Q_pos as HN.
  assert (inject_Z (Z.of_nat i) + 1 <= inject_Z (Z.of_nat j)) as Hq.
  { change 1 with (inject_Z 1). rewrite <- inject_Z_plus, <- Zle_Qle. lia. }
  assert (inject_Z (Z.of_nat i) * 2 / inject_Z (Z.of_nat N)
          + 2 / inject_Z (Z.of_nat N)
          == (inject_Z (Z.of_nat i) + 1) * 2 / inject_Z (Z.of_nat N)) as ->
    by (field; lra).
  apply Qdiv_le_cross; [lra | lra |].
  apply Qmult_le_compat_r; lra.
Qed.

Lemma t_0 : t 0 == 0.
Proof. unfold t. pose proof N_Q_pos. change (inject_Z (Z.of_nat 0)) with 0. field. lra. Qed.

Lemma t_range i : (i < N)%nat -> 0 <= t i <= 2 - 2 / inject_Z (Z.of_nat N).
Proof.
  intros Hi. pose proof N_Q_pos as HN. split.
  - unfold t. apply Qle_shift_div_l; [lra|].
    assert (0 <= inject_Z (Z.of_nat i))
      by (change 0 with (inject_Z 0); rewrite <- Zle_Qle; lia).
    lra.
  - assert (t i + 2 / inject_Z (Z.of_nat N) <= 2); [|lra].
    unfold t.
    assert (inject_Z (Z.of_nat i) * 2 / inject_Z (Z.of_nat N)
            + 2 / inject_Z (Z.of_nat N)
            == (inject_Z (Z.of_nat i) + 1) * 2 / inject_Z (Z.of_nat N)) as ->
      by (field; lra).
    apply Qle_shift_div_r; [lra|].
    assert (inject_Z (Z.of_nat i) + 1 <= inject_Z (Z.of_nat N)).
    { change 1 with (inject_Z 1). rewrite <- inject_Z_plus, <- Zle_Qle. lia. }
    lra.
Qed.

Lemma abscissa_close i :
  (i < N)%nat ->
  t i - 1 - 2 * eps <= abscissa fp N i <= t i - 1 + 2 * eps.
Proof.
  intros Hi. pose proof (t_range i Hi) as [Ht0 Ht1]. pose proof step_lower as Hs.
  pose proof eps_pos as He. unfold abscissa. fold (t i).
  assert (t i - eps <= r (t i) <= t i + eps) as [Hr1 Hr2].
  { apply (rnd_error fp IEEE). unfold half_ulp in *. lra. }
  assert (r (t i) - 1 - eps <= r (r (t i) - 1) <= r (t i) - 1 + eps) as [Hx1 Hx2].
  { apply (rnd_error fp IEEE). unfold half_ulp in *. lra. }
  lra.
Qed.

Lemma abscissa_range i : (i < N)%nat -> -1 <= abscissa fp N i <= 1.
Proof.
  intros Hi. pose proof (t_range i Hi) as [Ht0 Ht1]. pose proof step_lower as Hs.
  pose proof eps_pos as He. unfold abscissa. fold (t i).
  assert (t i - eps <= r (t i) <= t i + eps) as [Hr1 Hr2].
  { apply (rnd_error fp IEEE). unfold half_ulp in *. lra. }
  pose proof (r_nonneg (t i) Ht0) as Hr0.
  split.
  - apply Qle_trans with (r (-1)); [rewrite r_m1; apply Qle_refl|].
    apply (rnd_monotone fp IEEE). clear - Hr0. lra.
  - apply Qle_trans with (r 1); [|rewrite (rnd_1 fp IEEE); apply Qle_refl].
    apply (rnd_monotone fp IEEE). unfold half_ulp in *. lra.
Qed.

Lemma abscissa_0 : abscissa fp N 0 == -1.
Proof.
  unfold abscissa. fold (t 0%nat). rewrite t_0, (rnd_0 fp IEEE).
  assert (0 - 1 == -1) as -> by ring. apply r_m1.
Qed.

Lemma abscissa_inner i :
  (0 < i < N)%nat -> Math.abs (abscissa fp N i) <= 1 - 6 * eps.
Proof.
  intros [Hi0 Hi]. pose proof (abscissa_close i Hi) as [Hx1 Hx2].
  pose proof (t_range i Hi) as [_ Ht1]. pose proof (t_step 0 i Hi0) as Ht0.
  rewrite t_0 in Ht0. pose proof step_lower as Hs.
  apply Qabs_Qle_condition. unfold half_ulp in *. split; lra.
Qed.

Lemma abscissa_gap i j :
  (i < j < N)%nat -> abscissa fp N i + 2000 * eps <= abscissa fp N j.
Proof.
  intros [Hij Hj]. pose proof (abscissa_close i ltac:(lia)) as [_ Hi2].
  pose proof (abscissa_close j Hj) as [Hj1 _].
  pose proof (t_step i j Hij) as Ht. pose proof step_lower as Hs.
  unfold half_ulp in *. lra.
Qed.

(** One table entry, and two of them. *)
Lemma saturationSample_bounded i :
  (i < N)%nat -> -1 <= saturationSample fp k N i <= 1.
Proof.
  intros Hi. unfold saturationSample.
  assert (-1 <= quotient fp k (abscissa fp N i) <= 1) as [Hq1 Hq2].
  { destruct i as [|i].
    - rewrite (quotient_at_m1 _ abscissa_0). lra.
    - apply quotient_bounded; [by apply abscissa_range|].
      apply abscissa_inner. lia. }
  split.
  - rewrite <- (rnd32_m1 fp IEEE). apply (rnd32_monotone fp IEEE).
    rewrite <- r_m1. by apply (rnd_monotone fp IEEE).
  - rewrite <- (rnd32_1 fp IEEE). apply (rnd32_monotone fp IEEE).
    rewrite <- (rnd_1 fp IEEE). by apply (rnd_monotone fp IEEE).
Qed.

Lemma saturationSample_monotone i j :
  (i <= j)%nat -> (j < N)%nat ->
  saturationSample fp k N i <= saturationSample fp k N j.
Proof.
  intros Hij Hj.
  destruct (decide (i = j)) as [->|Hne]; [apply Qle_refl|].
  unfold saturationSample.
  apply (rnd32_monotone fp IEEE), (rnd_monotone fp IEEE).
  destruct i as [|i].
  - rewrite (quotient_at_m1 _ abscissa_0).
    apply quotient_bounded; [by apply abscissa_range|].
    apply abscissa_inner. lia.
  - apply quotient_monotone.
    + apply abscissa_range. lia.
    + by apply abscissa_range.
    + apply abscissa_gap. lia.
Qed.
End Table.
End K.


(** The table itself. *)
Lemma rounded_curve_length amount :
  List.length (makeSaturationCurve fp amount) = Z.to_nat 44100.
Proof.
  unfold makeSaturationCurve.
  rewrite (store_loop_length
             (fun i => Fnum (saturationSample fp (r (amount * 50)) (Z.to_nat 44100) i))).
  apply length_replicate.
Qed.

Lemma rounded_curve_lookup amount i :
  (i < Z.to_nat 44100)%nat ->
  makeSaturationCurve fp amount !! i
    = Some (Fnum (saturationSample fp (r (amount * 50)) (Z.to_nat 44100) i)).
Proof.
  intros Hi. unfold makeSaturationCurve.
  apply (store_loop_lookup
           (fun i => Fnum (saturationSample fp (r (amount * 50)) (Z.to_nat 44100) i)));
    [done | by rewrite length_replicate].
Qed.

(** The curve computed with a rounding after every operation: whatever
    the rounding, as long as it behaves like that of IEEE arithmetic,
    the table has 44100 entries between -1 and 1 that do not decrease. *)
Lemma rounded_curve_bounded_monotone amount :
  0 <= amount <= 1 ->
  Z.of_nat (List.length (makeSaturationCurve fp amount)) = 44100%Z /\
  (forall i v, makeSaturationCurve fp amount !! i = Some v ->
     exists q, v = Fnum q /\ -1 <= q <= 1) /\
  (forall i j vi vj, (i <= j)%nat ->
     makeSaturationCurve fp amount !! i = Some vi ->
     makeSaturationCurve fp amount !! j = Some vj ->
     exists qi qj, vi = Fnum qi /\ vj = Fnum qj /\ qi <= qj).
Proof.
  intros [Hlo Hhi]. pose proof eps_pos as He.
  set (k := r (amount * 50)).
  assert (0 <= k) as Hk0 by (apply r_nonneg; lra).
  assert (k <= 50 + eps) as Hk1.
  { assert (amount * 50 - eps <= k <= amount * 50 + eps) as [_ Hk].
    { apply (rnd_error fp IEEE). lra. }
    lra. }
  assert (r k == k) as Hkr by apply (rnd_idempotent fp IEEE).
  assert (0 < Z.to_nat 44100)%nat as Hn by lia.
  assert (Z.of_nat (Z.to_nat 44100) <= 1000000)%Z as Hsmall by lia.
  split; [rewrite rounded_curve_length; lia|]. split.
  - intros i v Hv.
    assert (i < Z.to_nat 44100)%nat as Hi.
    { apply lookup_lt_Some in Hv. by rewrite rounded_curve_length in Hv. }
    rewrite rounded_curve_lookup in Hv by done. injection Hv as <-.
    eexists. split; [reflexivity|].
    by apply saturationSample_bounded.
  - intros i j vi vj Hij Hvi Hvj.
    assert (j < Z.to_nat 44100)%nat as Hj.
    { apply lookup_lt_Some in Hvj. by rewrite rounded_curve_length in Hvj. }
    rewrite rounded_curve_lookup in Hvi by lia.
    rewrite rounded_curve_lookup in Hvj by done.
    injection Hvi as <-. injection Hvj as <-.
    do 2 eexists. split; [reflexivity|]. split; [reflexivity|].
    by apply saturationSample_monotone.
Qed.
End Rnd.

(** Exact arithmetic is one such rounding, and with it the rounded
    curve is the curve of [makeSaturationCurve]. *)
Lemma exact_ieee_like : Rounded.ieee_like Rounded.exact.
Proof.
  split; cbn; intros; try reflexivity; try assumption.
  unfold Rounded.half_ulp. split; lra.
Qed.

Lemma rounded_exact_sample k samples i :
  Rounded.saturationSample Rounded.exact k samples i
    = saturationSample k samples i.
Proof. reflexivity. Qed.

Lemma foldl_pointwise {A B} (f g : A -> B -> A) (l : list B) (a : A) :
  (forall a b, f a b = g a b) -> foldl f a l = foldl g a l.
Proof.
  intros Hfg. revert a. induction l as [|b l IH]; intros a; [done|].
  cbn. by rewrite Hfg, IH.
Qed.

Lemma rounded_exact_curve amount :
  Rounded.makeSaturationCurve Rounded.exact amount = makeSaturationCurve amount.
Proof.
  unfold Rounded.makeSaturationCurve, makeSaturationCurve, makeSaturationCurve_of.
  apply foldl_pointwise. intros curve i. by rewrite rounded_exact_sample.
Qed.

(** ** The engine *)

Section EngineProperties.
Import Engine.

Lemma rate_pos tr : 0 < rate tr.
Proof. unfold rate. change 0 with (inject_Z 0). rewrite <- Zlt_Qlt. lia. Qed.

Lemma nyquist_pos tr : 0 < nyquist tr.
Proof.
  unfold nyquist. apply Qlt_shift_div_l; [lra|].
  pose proof (rate_pos tr). lra.
Qed.

Lemma clamp_freq_above tr mf : nyquist tr <= mf -> clamp_freq tr mf = nyquist tr.
Proof. intros Hmf%leb_le. unfold clamp_freq. by rewrite Hmf. Qed.

Lemma not_leb_0 mf : 0 < mf -> leb mf 0 = false.
Proof. intros Hmf. by apply leb_gt. Qed.

Variable dft_db : list Q -> nat -> option Q.

Lemma compute_spectrogram_ok w tr mf :
  store w = Some tr -> 0 < mf ->
  compute_spectrogram dft_db mf w =
    (inr (SpectrogramData.mk
            (map (spectrum_row dft_db tr (clamp_freq tr mf))
                 (frame_starts (List.length (mono_mix tr))))
            (map (fun s => inject_Z (Z.of_nat s) / rate tr)
                 (frame_starts (List.length (mono_mix tr))))
            (clamp_freq tr mf)), w).
Proof.
  intros Hstore Hmf. unfold compute_spectrogram.
  by rewrite Hstore, (not_leb_0 mf Hmf).
Qed.

(** C5.  With a track loaded, an export whose range is empty after
    clipping to [[0, duration]] fails with [EmptyRange] and leaves the
    world, its files included, as it was; in particular so does every
    export with [start_s = end_s]. *)
Theorem export_audio_empty_range w tr out_path :
  store w = Some tr ->
  (forall start_s end_s,
     clip tr end_s <= clip tr start_s ->
     export_audio out_path start_s end_s w = (inl EmptyRange, w))
  /\ (forall t, export_audio out_path t t w = (inl EmptyRange, w)).
Proof.
  intros Hstore.
  assert (forall start_s end_s,
            clip tr end_s <= clip tr start_s ->
            export_audio out_path start_s end_s w = (inl EmptyRange, w))
    as Hempty.
  { intros start_s end_s Hle%leb_le. unfold export_audio.
    by rewrite Hstore, Hle. }
  split; [exact Hempty|].
  intros t. apply Hempty. apply Qle_refl.
Qed.

(** Under the reading of section 4.3 by which the maximum frequency
    clamps (its Edge cases, and the law of section 8): with a track
    loaded, a maximum frequency at or above the Nyquist rate is accepted
    and gives the very result that the Nyquist rate itself gives. *)
Lemma compute_spectrogram_clamps_to_nyquist w tr max_freq :
  store w = Some tr ->
  nyquist tr <= max_freq ->
  compute_spectrogram dft_db max_freq w
    = compute_spectrogram dft_db (nyquist tr) w
  /\ exists spec, compute_spectrogram dft_db max_freq w = (inr spec, w).
Proof.
  intros Hstore Hmf.
  pose proof (nyquist_pos tr) as Hnyq.
  rewrite (compute_spectrogram_ok w tr max_freq Hstore) by lra.
  rewrite (compute_spectrogram_ok w tr (nyquist tr) Hstore) by lra.
  rewrite (clamp_freq_above tr max_freq Hmf).
  rewrite (clamp_freq_above tr (nyquist tr)) by apply Qle_refl.
  split; [reflexivity | by eexists].
Qed.

(** Under the reading by which it is refused, the same request fails:
    the two paragraphs of section 4.3 cannot both hold above the Nyquist
    rate. *)
Lemma compute_spectrogram_readings_differ w tr max_freq :
  store w = Some tr ->
  nyquist tr < max_freq ->
  compute_spectrogram_strict dft_db max_freq w = (inl InvalidParameter, w) /\
  exists spec, compute_spectrogram dft_db max_freq w = (inr spec, w).
Proof.
  intros Hstore Hmf.
  pose proof (nyquist_pos tr) as Hnyq. split.
  - unfold compute_spectrogram_strict. rewrite Hstore.
    assert (ltb (nyquist tr) max_freq = true) as ->; [|by rewrite orb_true_r].
    unfold ltb. apply negb_true_iff. apply not_true_is_false.
    intros Hle%Qle_bool_iff. lra.
  - rewrite (compute_spectrogram_ok w tr max_freq Hstore) by lra. by eexists.
Qed.
End EngineProperties.

Lemma export_audio_empty_range_witness :
  Engine.export_audio "/tmp/out.wav" (1 # 4) (1 # 4) Engine.example
    = (inl Engine.EmptyRange, Engine.example).
Proof.
  apply (export_audio_empty_range Engine.example Engine.silence "/tmp/out.wav").
  reflexivity.
Defined.

Example compute_spectrogram_clamps_to_nyquist_example :
  Engine.compute_spectrogram Engine.silence_db 8000 Engine.example
    = Engine.compute_spectrogram Engine.silence_db 4000 Engine.example.
Proof.
  assert (Engine.nyquist Engine.silence <= 8000) as Hmf
    by (vm_compute; discriminate).
  destruct (compute_spectrogram_clamps_to_nyquist Engine.silence_db
              Engine.example Engine.silence 8000 eq_refl Hmf) as [Heq _].
  rewrite Heq. reflexivity.
Qed.

(** ** The pixel loops over a rectangular matrix *)

Lemma list_bind_singleton {A B} (f : A -> B) (l : list A) :
  (x ← l; [f x]) = f <$> l.
Proof. induction l as [|a l IH]; [done|]. cbn. by rewrite IH. Qed.

Lemma list_bind_concat {A B} (g : A -> list B) (l : list A) :
  l ≫= g = concat (g <$> l).
Proof. induction l as [|a l IH]; [done|]. cbn. by rewrite IH. Qed.

Lemma fmap_concat {A B} (f : A -> B) (ls : list (list A)) :
  f <$> concat ls = concat ((fun l : list A => f <$> l) <$> ls).
Proof.
  induction ls as [|l ls IH]; [done|]. cbn. by rewrite fmap_app, IH.
Qed.

Lemma lookup_all_indices {A} (row : list A) :
  (fun j => row !! j) <$> seq 0 (List.length row) = Some <$> row.
Proof.
  apply list_eq. intros j. rewrite !list_lookup_fmap.
  destruct (row !! j) as [v|] eqn:Hj.
  - rewrite lookup_seq_lt by (by eapply lookup_lt_Some). cbn. by rewrite Hj.
  - rewrite lookup_seq_ge by (by apply lookup_ge_None). done.
Qed.

(** When every row has [numBins] entries, the loops read each entry of
    the matrix once, row by row, and nothing else. *)
Lemma loopReads_rectangular (data : list (list Q)) (numBins : nat) :
  Forall (fun row => List.length row = numBins) data ->
  loopReads data (List.length data) numBins = Some <$> concat data.
Proof.
  intros Hrect. unfold loopReads.
  rewrite list_bind_concat. rewrite fmap_concat. f_equal.
  apply list_eq. intros i. rewrite !list_lookup_fmap.
  destruct (data !! i) as [row|] eqn:Hi.
  - rewrite lookup_seq_lt by (by eapply lookup_lt_Some). cbn.
    rewrite list_bind_singleton. unfold readCell. rewrite Hi. cbn.
    rewrite <- (Forall_lookup_1 _ _ _ _ Hrect Hi).
    by rewrite lookup_all_indices.
  - rewrite lookup_seq_ge by (by apply lookup_ge_None). done.
Qed.

Section Spectrogram.
Import Engine.
Variable dft_db : list Q -> nat -> option Q.

Lemma floor_db_floor v : -200 <= floor_db v.
Proof. destruct v as [q|]; cbn; [apply Q.le_max_l | apply Qle_refl]. Qed.

Lemma spectrum_row_length tr f start :
  List.length (spectrum_row dft_db tr f start) = List.length (kept_bins tr f).
Proof. unfold spectrum_row. by rewrite length_map. Qed.

Lemma spectrum_row_floor tr f start v :
  v ∈ spectrum_row dft_db tr f start -> -200 <= v.
Proof.
  unfold spectrum_row. intros (k & -> & _)%list_elem_of_fmap.
  apply floor_db_floor.
Qed.

(** C7.  With a track loaded and a positive maximum frequency,
    [compute_spectrogram] returns a matrix of rationals (so every
    entry is finite) whose rows all have the same length and whose
    entries are at least -200; and on such a matrix the loops of
    [drawSpectrogram] and [renderSpectrogramToCache], which take the
    bin count from row 0 and index every row with it, read every
    entry of the matrix and never read outside a row. *)
Theorem compute_spectrogram_rectangular_floored w tr max_freq :
  store w = Some tr ->
  0 < max_freq ->
  exists spec,
    compute_spectrogram dft_db max_freq w = (inr spec, w) /\
    let data := SpectrogramData.data spec in
    (forall row, row ∈ data -> List.length row = numBins_of data) /\
    (forall row v, row ∈ data -> v ∈ row -> -200 <= v) /\
    loopReads data (List.length data) (numBins_of data)
      = Some <$> concat data.
Proof.
  intros Hstore Hmf.
  rewrite (compute_spectrogram_ok dft_db w tr max_freq Hstore Hmf).
  eexists. split; [reflexivity|]. cbn [SpectrogramData.data].
  set (f := clamp_freq tr max_freq).
  set (starts := frame_starts (List.length (mono_mix tr))).
  assert (forall row, row ∈ map (spectrum_row dft_db tr f) starts ->
            List.length row = List.length (kept_bins tr f)) as Hlen.
  { intros row (start & -> & _)%list_elem_of_fmap.
    apply spectrum_row_length. }
  assert (forall row, row ∈ map (spectrum_row dft_db tr f) starts ->
            List.length row = numBins_of (map (spectrum_row dft_db tr f) starts))
    as Hrect.
  { intros row Hrow. rewrite (Hlen row Hrow).
    destruct starts as [|start starts'].
    - by apply elem_of_nil in Hrow.
    - change (numBins_of (map (spectrum_row dft_db tr f) (start :: starts')))
        with (List.length (spectrum_row dft_db tr f start)).
      by rewrite spectrum_row_length. }
  split; [exact Hrect|]. split.
  - intros row v (start & -> & _)%list_elem_of_fmap.
    apply spectrum_row_floor.
  - apply loopReads_rectangular. apply Forall_forall. exact Hrect.
Qed.
End Spectrogram.

Lemma compute_spectrogram_rectangular_floored_witness :
  exists spec,
    Engine.compute_spectrogram Engine.silence_db 3000 Engine.example
      = (inr spec, Engine.example) /\
    let data := SpectrogramData.data spec in
    (forall row, row ∈ data -> List.length row = numBins_of data) /\
    (forall row v, row ∈ data -> v ∈ row -> -200 <= v) /\
    loopReads data (List.length data) (numBins_of data) = Some <$> concat data.
Proof.
  apply (compute_spectrogram_rectangular_floored Engine.silence_db
           Engine.example Engine.silence 3000); reflexivity.
Defined.

(** On the 2560 frames of silence at 8 kHz, with a maximum frequency of
    3000 Hz: two rows, starting at 0 s and 0.064 s, of 769 bins each. *)
Example compute_spectrogram_silence_shape :
  match Engine.compute_spectrogram Engine.silence_db 3000 Engine.example with
  | (inr spec, _) =>
      (List.length (SpectrogramData.data spec),
       List.length <$> SpectrogramData.data spec,
       Qred <$> SpectrogramData.times spec,
       Qred (SpectrogramData.max_freq spec))
  | (inl _, _) => (0%nat, [], [], 0)
  end = (2%nat, [769; 769]%nat, [0; 8 # 125], 3000).
Proof. vm_compute. reflexivity. Qed.

(** On a ragged matrix the same loops go wrong silently: a short row is
    read past its end ([undefined]), a long row is cut off. *)
Example loopReads_short_row :
  loopReads [[1; 2]; [3]] 2 (numBins_of [[1; 2]; [3]])
    = [Some 1; Some 2; Some 3; None].
Proof. reflexivity. Qed.

Example loopReads_long_row :
  loopReads [[1]; [2; 3]] 2 (numBins_of [[1]; [2; 3]]) = [Some 1; Some 2].
Proof. reflexivity. Qed.

(** ** The component against the modelled engine *)

(** Importing the 8 kHz file with the initial [maxFreq] of 8000 Hz, twice
    its Nyquist rate: all four commands are invoked, no error is shown,
    and the spectrogram comes back for 4000 Hz. *)
Example loadAudio_above_nyquist :
  let host := Engine.host Engine.silence_db Engine.silence_forensics in
  let run := @loadAudio Engine.World host (mkSt initial_UI Engine.example) in
  snd run =
    [ReqOpen loadAudio_options;
     ReqInvoke load_audio [("path", ArgStr "/tmp/silence.wav")];
     ReqInvoke compute_spectrogram [("maxFreq", ArgNum 8000)];
     ReqInvoke analyze_forensics [];
     ReqInvoke get_audio_samples []]%string /\
  error (ui (snd (fst run))) = ""%string /\
  loading (ui (snd (fst run))) = false /\
  (SpectrogramData.max_freq <$> spectrogramData (ui (snd (fst run))))
    = Some (Engine.nyquist Engine.silence).
Proof. vm_compute. repeat split. Qed.

(** * Further properties of the component *)

(** ** The reactive clamp on the low-pass frequency *)

Lemma gtb_gt (a b : Q) : gtb a b = true <-> b < a.
Proof. unfold gtb. apply ltb_lt. Qed.

Lemma gtb_le (a b : Q) : gtb a b = false <-> a <= b.
Proof. unfold gtb. apply ltb_ge. Qed.

Lemma geb_ge (a b : Q) : geb a b = true <-> b <= a.
Proof. unfold geb. apply leb_le. Qed.

Lemma geb_lt (a b : Q) : geb a b = false <-> a < b.
Proof. unfold geb. apply leb_gt. Qed.

(** [drawSpectrogram] assigns to the two cached extremes and to the
    redraw flag, and to nothing else. *)
Lemma drawSpectrogram_frame u :
  exists m M r,
    drawSpectrogram u =
      set_spectrogramNeedsRedraw r (set_cachedMaxDb M (set_cachedMinDb m u)).
Proof.
  destruct u. unfold drawSpectrogram; cbn.
  repeat case_match; do 3 eexists; cbn; reflexivity.
Qed.

(** Rewrite [f (drawSpectrogram u)] to [f u] for the variables that
    rendering leaves alone. *)
Ltac draw_frame :=
  repeat match goal with
  | |- context [drawSpectrogram ?u] =>
      let m := fresh "m" in
      let M := fresh "M" in
      let r := fresh "r" in
      let E := fresh "E" in
      destruct (drawSpectrogram_frame u) as (m & M & r & E);
      rewrite E; clear E; ui_get_set
  end.

(** X1.  Typing a new value into the frequency input leaves
    [lowPassFreq <= maxFreq]; from separated bands, the bands are still
    separated afterwards exactly when the new [maxFreq] is at least
    [highPassFreq + 100]: below that, the low-pass frequency is clamped
    to less than 100 Hz above the high-pass frequency. *)
Theorem input_maxFreq_keeps_bands_iff (v : Q) (u : UI) :
  bandsSeparated u ->
  lowPassFreq (input_maxFreq v u) <= maxFreq (input_maxFreq v u) /\
  highPassFreq (input_maxFreq v u) = highPassFreq u /\
  (bandsSeparated (input_maxFreq v u) <-> highPassFreq u + 100 <= v).
Proof.
  unfold bandsSeparated, input_maxFreq, syncLowPass.
  destruct u; cbn. intros (H0 & Hsep & Hmax).
  destruct (gtb lowPassFreq0 v) eqn:Hgt; cbn.
  - apply gtb_gt in Hgt. repeat split; try lra.
  - apply gtb_le in Hgt. repeat split; try lra.
Qed.

Lemma input_maxFreq_keeps_bands_iff_witness :
  lowPassFreq (input_maxFreq 150 initial_UI) == 150 /\
  ~ bandsSeparated (input_maxFreq 150 initial_UI).
Proof.
  destruct (input_maxFreq_keeps_bands_iff 150 initial_UI) as (_ & _ & Hiff).
  { unfold bandsSeparated; cbn. lra. }
  split; [reflexivity|].
  intros Hsep. apply Hiff in Hsep. cbn in Hsep. lra.
Defined.

(** X2.  A drag re-establishes the separation of the bands from a state
    that has lost it, as far as the rounding [rnd] of doubles allows:
    dragging the high-pass line whenever [100 <= lowPassFreq <= maxFreq],
    whatever [highPassFreq] was, leaves
    [0 <= highPassFreq <= rnd (lowPassFreq - 100)]; dragging the low-pass
    line whenever [0 <= highPassFreq] and [highPassFreq + 100 <= maxFreq],
    whatever [lowPassFreq] was, leaves
    [rnd (highPassFreq + 100) <= lowPassFreq <= maxFreq].  Either way the
    bands are then separated by 100 Hz less at most
    [2^-53 * maxFreq + 2^-1075]. *)
Theorem handleCanvasMouseMove_drag_restores_bands
    (rnd : Q -> Q) (event : MouseEvent.t) (u : UI) cv sd info dragged :
  Double.rounding rnd ->
  rnd (maxFreq u) == maxFreq u ->
  canvas u = Some cv -> spectrogramData u = Some sd ->
  audioInfo u = Some info ->
  ~ rnd (Canvas.height cv - freqBarHeight) == 0 ->
  isSelecting u = false -> draggingFilter u = Some dragged ->
  match dragged with
  | highpass => 100 <= lowPassFreq u /\ lowPassFreq u <= maxFreq u
  | lowpass => 0 <= highPassFreq u /\ highPassFreq u + 100 <= maxFreq u
  end ->
  let u' := Double.handleCanvasMouseMove rnd event u in
  0 <= highPassFreq u' /\ lowPassFreq u' <= maxFreq u' /\
  match dragged with
  | highpass => highPassFreq u' <= rnd (lowPassFreq u' - 100)
  | lowpass => rnd (highPassFreq u' + 100) <= lowPassFreq u'
  end /\
  highPassFreq u' <= lowPassFreq u' - 100
                     + (Double.eps * maxFreq u' + Double.eta).
Proof.
  intros Hrnd Hmf Hcv Hsd Hinfo _ Hsel Hdrag Hpre u'.
  assert (0 < Double.eps) as Heps by done.
  subst u'. unfold Double.handleCanvasMouseMove.
  rewrite Hcv, Hsd, Hinfo, Hsel, Hdrag.
  destruct dragged; destruct Hpre as [H1 H2];
    rewrite !drawSpectrogram_highPassFreq, !drawSpectrogram_lowPassFreq,
      !drawSpectrogram_maxFreq; ui_get_set.
  - match goal with
    | |- context [Math.max 0 (Math.min ?newFreq (?r (?lp - 100)))] =>
        destruct (drag_highpass r Hrnd newFreq lp ltac:(lra)) as (? & ? & ?)
    end.
    pose proof (eps_scale (lowPassFreq u - 100) (maxFreq u) ltac:(lra)).
    repeat split; lra.
  - assert (rnd (highPassFreq u + 100) <= maxFreq u) as Hle.
    { rewrite <- Hmf. by apply (Double.rounding_monotone rnd Hrnd). }
    match goal with
    | |- context [Math.min ?mf (Math.max ?newFreq (?r (?hp + 100)))] =>
        destruct (drag_lowpass r Hrnd newFreq hp mf ltac:(lra) ltac:(lra))
          as (? & ? & ?)
    end.
    pose proof (eps_scale (highPassFreq u + 100) (maxFreq u) ltac:(lra)).
    repeat split; lra.
Qed.

Lemma handleCanvasMouseMove_drag_restores_bands_witness :
  let u := set_draggingFilter (Some highpass)
             (set_highPassFreq 5000
                (input_maxFreq 1000
                   (set_canvas (Some (Canvas.mk 800 430 0 0))
                      (set_audioInfo (Some (AudioInfo.mk 1 44100 2))
                         (set_spectrogramData
                            (Some (SpectrogramData.mk [[-80; -20]] [0] 8000))
                            initial_UI))))) in
  let u' := Double.handleCanvasMouseMove binary64
              (MouseEvent.mk 100 130 false) u in
  ~ bandsSeparated u /\
  0 <= highPassFreq u' /\ lowPassFreq u' <= maxFreq u' /\
  highPassFreq u' <= binary64 (lowPassFreq u' - 100) /\
  highPassFreq u' <= lowPassFreq u' - 100
                     + (Double.eps * maxFreq u' + Double.eta).
Proof.
  split.
  - intros (_ & Hsep & _). vm_compute in Hsep. by apply Hsep.
  - apply (handleCanvasMouseMove_drag_restores_bands binary64
             (MouseEvent.mk 100 130 false) _ (Canvas.mk 800 430 0 0)
             (SpectrogramData.mk [[-80; -20]] [0] 8000)
             (AudioInfo.mk 1 44100 2) highpass);
      try reflexivity.
    + apply binary64_rounding.
    + vm_compute. discriminate.
    + split; vm_compute; discriminate.
Defined.

(** ** The filter lines on the canvas *)

(** ** From a row to its frequency and back, in the arithmetic of doubles *)

Section RoundTrip.
Variable rnd : Q -> Q.
Hypothesis Hrnd : Double.rounding rnd.
Hypothesis rnd_one : rnd 1 == 1.

Lemma eta_le_eps : Double.eta <= Double.eps.
Proof. vm_compute. discriminate. Qed.

Lemma eps_small : Double.eps <= 1 # 1000.
Proof. vm_compute. discriminate. Qed.

Lemma eps_times_small (a : Q) : 0 <= a -> Double.eps * a <= (1 # 1000) * a.
Proof. intros Ha. apply Qmult_le_compat_r; [apply eps_small | done]. Qed.

(** A factor known up to [e], times [s]. *)
Lemma scale_bounds (s c x e : Q) :
  0 <= s -> x - e <= c <= x + e ->
  s * x - e * s <= s * c <= s * x + e * s.
Proof.
  intros Hs [Hlo Hhi].
  assert (0 <= s * (c - (x - e))) by (apply Qmult_le_0_compat; lra).
  assert (0 <= s * (x + e - c)) by (apply Qmult_le_0_compat; lra).
  split; lra.
Qed.

(** A rounding moves a number of magnitude at most [B] by at most
    [eps * (B + 1)]. *)
Lemma rounding_near (a B : Q) :
  - B <= a <= B ->
  a - Double.eps * (B + 1) <= rnd a <= a + Double.eps * (B + 1).
Proof.
  intros [Hlo Hhi]. pose proof (Double.rounding_error rnd Hrnd a) as Herr.
  pose proof eta_le_eps as Heta.
  assert (Qabs a <= B) as Habs by (apply Qabs_Qle_condition; lra).
  assert (Double.eps * Qabs a <= Double.eps * B) as Hscale
    by (by apply eps_scale).
  apply Qabs_Qle_condition in Herr as [Herr1 Herr2]. lra.
Qed.

Lemma rounding_unit (a : Q) : 0 <= a <= 1 -> 0 <= rnd a <= 1.
Proof.
  intros [Hlo Hhi]. split.
  - by apply (rounding_nonneg rnd Hrnd).
  - rewrite <- rnd_one. by apply (Double.rounding_monotone rnd Hrnd).
Qed.

Lemma rounding_below (a b : Q) : rnd b == b -> a <= b -> rnd a <= b.
Proof.
  intros Hb Hab. rewrite <- Hb. by apply (Double.rounding_monotone rnd Hrnd).
Qed.

Variables sh M : Q.
Hypothesis sh_ge_1 : 1 <= sh.
Hypothesis sh_double : rnd sh == sh.
Hypothesis M_ge_1 : 1 <= M.
Hypothesis M_double : rnd M == M.

(** The two conversions, of a row to a frequency (lines 1013-1015) and
    of a frequency to a row (lines 1004-1005), with the height [sh] of
    the spectrogram and the maximum frequency [M]. *)
Let toFreq (y : Q) : Q := rnd (M * rnd (1 - rnd (rnd (y - 30) / sh))).
Let toRow (f : Q) : Q := rnd (30 + rnd (sh * rnd (1 - rnd (f / M)))).

Lemma toFreq_range (y : Q) :
  30 <= y -> rnd (y - 30) <= sh -> 0 <= toFreq y <= M.
Proof.
  intros Hy Hd. unfold toFreq.
  assert (0 <= rnd (y - 30)) as Hd0 by (apply (rounding_nonneg rnd Hrnd); lra).
  assert (0 <= rnd (y - 30) / sh <= 1) as Hx.
  { split; [apply Qle_shift_div_l | apply Qle_shift_div_r]; lra. }
  apply rounding_unit in Hx.
  assert (0 <= rnd (1 - rnd (rnd (y - 30) / sh)) <= 1) as HA
    by (apply rounding_unit; lra).
  revert HA. generalize (rnd (1 - rnd (rnd (y - 30) / sh))). intros A HA.
  split.
  - apply (rounding_nonneg rnd Hrnd). apply Qmult_le_0_compat; lra.
  - apply rounding_below; [done|]. 
    assert (M * A <= M * 1) by (apply Qmult_le_l; lra). lra.
Qed.

Lemma row_of_toFreq (y : Q) :
  30 <= y -> rnd (y - 30) <= sh ->
  Qabs (toRow (toFreq y) - y) <= Double.eps * (12 * sh + y + 3).
Proof.
  intros Hy Hd. unfold toRow, toFreq.
  assert (0 < Double.eps) as HE by done.
  (* d *)
  destruct (rounding_near (y - 30) (y - 30) ltac:(lra)) as [Hd1 Hd2].
  assert (0 <= rnd (y - 30)) as Hd0 by (apply (rounding_nonneg rnd Hrnd); lra).
  set (d := rnd (y - 30)) in *.
  (* n *)
  assert (0 <= d / sh <= 1) as Hx.
  { split; [apply Qle_shift_div_l | apply Qle_shift_div_r]; lra. }
  assert (d == d / sh * sh) as Hdx by (field; lra).
  revert Hx Hdx. generalize (d / sh). intros x1 Hx Hdx.
  destruct (rounding_near x1 1 ltac:(lra)) as [Hn1 Hn2].
  pose proof (rounding_unit x1 Hx) as Hn.
  set (n := rnd x1) in *.
  (* A *)
  destruct (rounding_near (1 - n) 1 ltac:(lra)) as [HA1 HA2].
  pose proof (rounding_unit (1 - n) ltac:(lra)) as HA.
  set (A := rnd (1 - n)) in *.
  (* f *)
  assert (0 <= M * A <= M) as HMA.
  { split; [apply Qmult_le_0_compat; lra|].
    assert (M * A <= M * 1) by (apply Qmult_le_l; lra). lra. }
  destruct (rounding_near (M * A) M ltac:(lra)) as [Hf1 Hf2].
  assert (0 <= rnd (M * A) <= M) as Hf.
  { split; [apply (rounding_nonneg rnd Hrnd); lra | apply rounding_below; [done|lra]]. }
  set (f := rnd (M * A)) in *.
  (* g *)
  assert (A - 2 * Double.eps <= f / M <= A + 2 * Double.eps) as Hg.
  { pose proof (eps_scale 1 M M_ge_1).
    split; [apply Qle_shift_div_l | apply Qle_shift_div_r]; lra. }
  assert (0 <= f / M <= 1) as Hg01.
  { split; [apply Qle_shift_div_l | apply Qle_shift_div_r]; lra. }
  revert Hg Hg01. generalize (f / M). intros g Hg Hg01.
  (* q *)
  destruct (rounding_near g 1 ltac:(lra)) as [Hq1 Hq2].
  pose proof (rounding_unit g Hg01) as Hq.
  set (q := rnd g) in *.
  (* C *)
  destruct (rounding_near (1 - q) 1 ltac:(lra)) as [HC1 HC2].
  pose proof (rounding_unit (1 - q) ltac:(lra)) as HC.
  set (C := rnd (1 - q)) in *.
  assert (x1 - 10 * Double.eps <= C <= x1 + 10 * Double.eps) as HCx by lra.
  (* p *)
  assert (0 <= sh * C <= sh) as HsC.
  { split; [apply Qmult_le_0_compat; lra|].
    assert (sh * C <= sh * 1) by (apply Qmult_le_l; lra). lra. }
  assert (d - 10 * Double.eps * sh <= sh * C <= d + 10 * Double.eps * sh) as HsCd.
  { pose proof (scale_bounds sh C x1 (10 * Double.eps) ltac:(lra) HCx).
    rewrite Hdx. lra. }
  destruct (rounding_near (sh * C) sh ltac:(lra)) as [Hp1 Hp2].
  assert (0 <= rnd (sh * C) <= sh) as Hp.
  { split; [apply (rounding_nonneg rnd Hrnd); lra | apply rounding_below; [done|lra]]. }
  set (p := rnd (sh * C)) in *.
  (* the row *)
  destruct (rounding_near (30 + p) (30 + sh) ltac:(lra)) as [HY1 HY2].
  apply Qabs_Qle_condition. split; lra.
Qed.

Lemma toFreq_of_row (f : Q) :
  0 <= f <= M ->
  Qabs (toFreq (toRow f) - f) <= 81 * Double.eps * M.
Proof.
  intros Hf. unfold toRow, toFreq.
  assert (0 < Double.eps) as HE by done. pose proof eps_small as HE1.
  (* q *)
  assert (0 <= f / M <= 1) as Hg.
  { split; [apply Qle_shift_div_l | apply Qle_shift_div_r]; lra. }
  assert (f == M * (f / M)) as Hfg by (field; lra).
  revert Hg Hfg. generalize (f / M). intros g Hg Hfg.
  destruct (rounding_near g 1 ltac:(lra)) as [Hq1 Hq2].
  pose proof (rounding_unit g Hg) as Hq.
  set (q := rnd g) in *.
  (* C *)
  destruct (rounding_near (1 - q) 1 ltac:(lra)) as [HC1 HC2].
  pose proof (rounding_unit (1 - q) ltac:(lra)) as HC.
  set (C := rnd (1 - q)) in *.
  (* p *)
  assert (0 <= sh * C <= sh) as HsC.
  { split; [apply Qmult_le_0_compat; lra|].
    assert (sh * C <= sh * 1) by (apply Qmult_le_l; lra). lra. }
  destruct (rounding_near (sh * C) sh ltac:(lra)) as [Hp1 Hp2].
  assert (0 <= rnd (sh * C) <= sh) as Hp.
  { split; [apply (rounding_nonneg rnd Hrnd); lra
           | apply rounding_below; [done|lra]]. }
  set (p := rnd (sh * C)) in *.
  (* the row *)
  destruct (rounding_near (30 + p) (30 + sh) ltac:(lra)) as [HY1 HY2].
  set (Y := rnd (30 + p)) in *.
  pose proof (eps_times_small (30 + sh + 1) ltac:(lra)) as HEs.
  (* d *)
  destruct (rounding_near (Y - 30) (2 * sh + 31) ltac:(lra)) as [Hd1 Hd2].
  set (d := rnd (Y - 30)) in *.
  assert (sh * C - Double.eps * (4 * sh + 64) <= d
          <= sh * C + Double.eps * (4 * sh + 64)) as Hd by lra.
  (* n *)
  assert (C - 68 * Double.eps <= d / sh <= C + 68 * Double.eps) as Hx.
  { pose proof (eps_scale 1 sh sh_ge_1).
    split; [apply Qle_shift_div_l | apply Qle_shift_div_r]; lra. }
  revert Hx. generalize (d / sh). intros x Hx.
  destruct (rounding_near x 2 ltac:(lra)) as [Hn1 Hn2].
  set (n := rnd x) in *.
  (* o *)
  destruct (rounding_near (1 - n) 2 ltac:(lra)) as [Ho1 Ho2].
  set (o := rnd (1 - n)) in *.
  assert (g - 78 * Double.eps <= o <= g + 78 * Double.eps) as Hog by lra.
  (* the frequency *)
  assert (f - 78 * Double.eps * M <= M * o <= f + 78 * Double.eps * M) as HMo.
  { pose proof (scale_bounds M o g (78 * Double.eps) ltac:(lra) Hog).
    rewrite Hfg. lra. }
  pose proof (eps_times_small M ltac:(lra)) as HEM.
  assert (- (2 * M) <= M * o <= 2 * M) as HMo2 by lra.
  destruct (rounding_near (M * o) (2 * M) HMo2) as [HF1 HF2].
  pose proof (eps_scale 1 M M_ge_1).
  apply Qabs_Qle_condition. split; lra.
Qed.
End RoundTrip.

Section FilterLines.
Variable rnd : Q -> Q.
Hypothesis Hrnd : Double.rounding rnd.
Hypothesis rnd_one : rnd 1 == 1.

#[local] Instance rnd_Proper : Proper (Qeq ==> Qeq) rnd.
Proof. intros a b Hab. by apply (Double.rounding_proper rnd Hrnd). Qed.

(** The height of the spectrogram on a canvas of at least 31 rows. *)
Lemma spectrogramHeight_bounds (H : Q) :
  31 <= H ->
  let sh := rnd (H - freqBarHeight) in
  1 <= sh /\ rnd sh == sh /\ (rnd H == H -> sh <= H).
Proof.
  intros HH sh. subst sh. unfold freqBarHeight. split; [|split].
  - rewrite <- rnd_one. apply (Double.rounding_monotone rnd Hrnd). lra.
  - apply (Double.rounding_idempotent rnd Hrnd).
  - intros Hd. apply (rounding_below rnd Hrnd); [done | lra].
Qed.

(** X3.  Frequencies and rows of the canvas convert back and forth, up
    to the rounding [rnd] of doubles: on a canvas of at least 31 rows
    and with [maxFreq] at least 1, each filter line is drawn at a row
    that [yToFrequency] maps back to the frequency of that filter within
    [81 * 2^-53 * maxFreq]. *)
Theorem yToFrequency_of_filter_line (u : UI) cv :
  canvas u = Some cv ->
  31 <= Canvas.height cv -> 1 <= maxFreq u ->
  0 <= highPassFreq u <= maxFreq u -> 0 <= lowPassFreq u <= maxFreq u ->
  let '(highPassY, lowPassY) := Double.getFilterYPositions rnd u in
  Qabs (Double.yToFrequency rnd u highPassY - highPassFreq u)
    <= 81 * Double.eps * maxFreq u /\
  Qabs (Double.yToFrequency rnd u lowPassY - lowPassFreq u)
    <= 81 * Double.eps * maxFreq u.
Proof.
  intros Hcv HH HM Hhp Hlp.
  unfold Double.getFilterYPositions, Double.yToFrequency. rewrite Hcv.
  destruct (spectrogramHeight_bounds (Canvas.height cv) HH) as (Hsh & Hshd & _).
  split; apply (toFreq_of_row rnd Hrnd rnd_one); assumption.
Qed.

(** X5.  The dragged line follows the pointer, up to the rounding [rnd]
    of doubles: when a mouse move drags the high-pass line to a row [y]
    of the spectrogram area whose frequency is at most the limit
    [rnd (lowPassFreq - 100)], the line is drawn within
    [14 * 2^-53 * canvas.height] of [y] afterwards; likewise the
    low-pass line, for a frequency of at least
    [rnd (highPassFreq + 100)]. *)
Theorem handleCanvasMouseMove_line_under_pointer
    (event : MouseEvent.t) (u : UI) cv sd info dragged :
  canvas u = Some cv -> spectrogramData u = Some sd ->
  audioInfo u = Some info ->
  isSelecting u = false -> draggingFilter u = Some dragged ->
  31 <= Canvas.height cv -> rnd (Canvas.height cv) == Canvas.height cv ->
  1 <= maxFreq u -> rnd (maxFreq u) == maxFreq u ->
  let y := rnd (MouseEvent.clientY event - Canvas.rect_top cv) in
  freqBarHeight <= y <= Canvas.height cv ->
  match dragged with
  | highpass => Double.yToFrequency rnd u y <= rnd (lowPassFreq u - 100)
  | lowpass => rnd (highPassFreq u + 100) <= Double.yToFrequency rnd u y
  end ->
  let u' := Double.handleCanvasMouseMove rnd event u in
  let line :=
    match dragged with
    | highpass => fst (Double.getFilterYPositions rnd u')
    | lowpass => snd (Double.getFilterYPositions rnd u')
    end in
  Qabs (line - y) <= 14 * Double.eps * Canvas.height cv.
Proof.
  intros Hcv Hsd Hinfo Hsel Hdrag HH HHd HM HMd y [Hy1 Hy2] Hfreq u' line.
  destruct (spectrogramHeight_bounds (Canvas.height cv) HH)
    as (Hsh & Hshd & HshH). specialize (HshH HHd).
  set (sh := rnd (Canvas.height cv - freqBarHeight)) in *.
  unfold freqBarHeight in Hy1.
  assert (rnd (y - 30) <= sh) as Hd.
  { subst sh. unfold freqBarHeight.
    apply (Double.rounding_monotone rnd Hrnd). lra. }
  set (F := Double.yToFrequency rnd u y) in *.
  assert (F = rnd (maxFreq u * rnd (1 - rnd (rnd (y - 30) / sh)))) as HF.
  { subst F sh. unfold Double.yToFrequency. by rewrite Hcv. }
  assert (0 <= F <= maxFreq u) as HFr.
  { rewrite HF. apply (toFreq_range rnd Hrnd rnd_one); assumption. }
  assert (Qabs (rnd (30 + rnd (sh * rnd (1 - rnd (F / maxFreq u)))) - y)
          <= Double.eps * (12 * sh + y + 3)) as Htrip.
  { rewrite HF. apply (row_of_toFreq rnd Hrnd rnd_one); assumption. }
  assert (line == rnd (30 + rnd (sh * rnd (1 - rnd (F / maxFreq u))))) as ->.
  { subst line u'. unfold Double.handleCanvasMouseMove.
    rewrite Hcv, Hsd, Hinfo, Hsel, Hdrag. fold y. fold F.
    assert (Math.max 0 (Math.min (maxFreq u) F) == F) as Hclamp.
    { unfold Math.max, Math.min.
      rewrite (Q.min_r (maxFreq u)) by lra. rewrite Q.max_r; lra. }
    destruct dragged; unfold Double.getFilterYPositions; draw_frame;
      rewrite Hcv; cbn [fst snd]; fold sh; unfold freqBarHeight.
    - assert (Math.max 0
                (Math.min (Math.max 0 (Math.min (maxFreq u) F))
                   (rnd (lowPassFreq u - 100))) == F) as ->; [|reflexivity].
      unfold Math.max, Math.min in *. rewrite Hclamp.
      rewrite Q.min_l by done. rewrite Q.max_r; lra.
    - assert (Math.min (maxFreq u)
                (Math.max (Math.max 0 (Math.min (maxFreq u) F))
                   (rnd (highPassFreq u + 100))) == F) as ->; [|reflexivity].
      unfold Math.max, Math.min in *. rewrite Hclamp.
      rewrite Q.max_l by done. rewrite Q.min_r; lra. }
  eapply Qle_trans; [exact Htrip|].
  assert (14 * Double.eps * Canvas.height cv
          == Double.eps * (14 * Canvas.height cv)) as -> by ring.
  apply eps_scale. lra.
Qed.
End FilterLines.

Lemma yToFrequency_of_filter_line_witness :
  let u := set_canvas (Some (Canvas.mk 800 430 0 0)) initial_UI in
  let '(highPassY, lowPassY) := Double.getFilterYPositions binary64 u in
  (Qabs (Double.yToFrequency binary64 u highPassY - 100)
     <= 81 * Double.eps * 8000 /\
   Qabs (Double.yToFrequency binary64 u lowPassY - 8000)
     <= 81 * Double.eps * 8000) /\
  ~ Double.yToFrequency binary64 u highPassY == 100.
Proof.
  split.
  - apply (yToFrequency_of_filter_line binary64 binary64_rounding eq_refl
             (set_canvas (Some (Canvas.mk 800 430 0 0)) initial_UI)
             (Canvas.mk 800 430 0 0));
      try reflexivity; try (split; vm_compute; discriminate);
      vm_compute; discriminate.
  - vm_compute. discriminate.
Defined.

Lemma handleCanvasMouseMove_line_under_pointer_witness :
  let u := set_draggingFilter (Some lowpass)
             (set_canvas (Some (Canvas.mk 800 430 0 0))
                (set_audioInfo (Some (AudioInfo.mk 1 44100 2))
                   (set_spectrogramData
                      (Some (SpectrogramData.mk [[-80; -20]] [0] 8000))
                      initial_UI))) in
  let line :=
    snd (Double.getFilterYPositions binary64
           (Double.handleCanvasMouseMove binary64
              (MouseEvent.mk 100 31 false) u)) in
  Qabs (line - 31) <= 14 * Double.eps * 430 /\ ~ line == 31.
Proof.
  split.
  - apply (handleCanvasMouseMove_line_under_pointer binary64
             binary64_rounding eq_refl
             (MouseEvent.mk 100 31 false) _ (Canvas.mk 800 430 0 0)
             (SpectrogramData.mk [[-80; -20]] [0] 8000)
             (AudioInfo.mk 1 44100 2) lowpass);
      try reflexivity; try (split; vm_compute; discriminate);
      vm_compute; discriminate.
  - vm_compute. discriminate.
Defined.

(** X4.  With separated bands, on a canvas higher than the frequency bar
    and with a positive [maxFreq], both filter lines lie in the
    spectrogram area, between the frequency bar and the bottom of the
    canvas, and the low-pass line lies strictly above the high-pass
    line. *)
Theorem filter_lines_within_spectrogram (u : UI) cv :
  canvas u = Some cv ->
  freqBarHeight < Canvas.height cv -> 0 < maxFreq u ->
  bandsSeparated u ->
  let '(highPassY, lowPassY) := getFilterYPositions u in
  freqBarHeight <= lowPassY /\ lowPassY < highPassY /\
  highPassY <= Canvas.height cv.
Proof.
  unfold getFilterYPositions, bandsSeparated, freqBarHeight.
  intros -> Hh Hm (H0 & Hsep & Hmax).
  set (H := Canvas.height cv - 30).
  assert (0 < H) by (subst H; lra).
  assert (highPassFreq u / maxFreq u < lowPassFreq u / maxFreq u) as Hlt.
  { unfold Qdiv. apply Qmult_lt_r; [by apply Qinv_lt_0_compat | lra]. }
  assert (lowPassFreq u / maxFreq u <= 1) as Hle1.
  { apply Qle_shift_div_r; [done | lra]. }
  assert (0 <= highPassFreq u / maxFreq u) as Hge0.
  { apply Qle_shift_div_l; [done | lra]. }
  repeat split.
  - assert (0 <= H * (1 - lowPassFreq u / maxFreq u)); [|lra].
    apply Qmult_le_0_compat; lra.
  - assert (H * (1 - lowPassFreq u / maxFreq u)
            < H * (1 - highPassFreq u / maxFreq u)); [|lra].
    apply Qmult_lt_l; [done | lra].
  - assert (H * (1 - highPassFreq u / maxFreq u) <= H * 1); [|subst H; lra].
    apply Qmult_le_l; [done | lra].
Qed.

Lemma filter_lines_within_spectrogram_witness :
  let u := set_canvas (Some (Canvas.mk 800 430 0 0)) initial_UI in
  let '(highPassY, lowPassY) := getFilterYPositions u in
  freqBarHeight <= lowPassY /\ lowPassY < highPassY /\ highPassY <= 430.
Proof.
  apply (filter_lines_within_spectrogram
           (set_canvas (Some (Canvas.mk 800 430 0 0)) initial_UI)
           (Canvas.mk 800 430 0 0));
    [reflexivity | reflexivity | reflexivity |].
  unfold bandsSeparated; cbn. lra.
Defined.

(** ** Selecting a time range *)

(** X6.  Releasing the mouse button ends a drag and leaves the selection
    ordered: the two ends are the same two times as before, the start is
    not after the end, and the duration shown for the selection is
    unchanged. *)
Theorem handleCanvasMouseUp_orders_selection (u : UI) a b :
  selectionStart u = Some a -> selectionEnd u = Some b ->
  let u' := handleCanvasMouseUp u in
  exists a' b',
    selectionStart u' = Some a' /\ selectionEnd u' = Some b' /\
    a' <= b' /\ ((a', b') = (a, b) \/ (a', b') = (b, a)) /\
    getSelectionDuration u' == getSelectionDuration u /\
    draggingFilter u' = None /\ isSelecting u' = false.
Proof.
  intros Ha Hb u'. subst u'.
  unfold handleCanvasMouseUp, getSelectionDuration.
  ui_get_set. rewrite Ha, Hb.
  destruct (gtb a b) eqn:Hgt; ui_get_set; rewrite ?Ha, ?Hb.
  - apply gtb_gt in Hgt. exists b, a.
    repeat split; [lra | by right |].
    unfold Math.abs. rewrite <- (Qabs_opp (b - a)).
    apply Qabs_wd. ring.
  - apply gtb_le in Hgt. exists a, b.
    repeat split; [done | by left].
Qed.

Lemma handleCanvasMouseUp_orders_selection_witness :
  let u := set_selectionEnd (Some 1) (set_selectionStart (Some 3) initial_UI) in
  exists a' b',
    selectionStart (handleCanvasMouseUp u) = Some a' /\
    selectionEnd (handleCanvasMouseUp u) = Some b' /\ a' <= b'.
Proof.
  destruct (handleCanvasMouseUp_orders_selection
              (set_selectionEnd (Some 1)
                 (set_selectionStart (Some 3) initial_UI)) 3 1 eq_refl eq_refl)
    as (a' & b' & Ha' & Hb' & Hle & _).
  exists a', b'. auto.
Defined.

(** X7.  While a selection is being dragged, on a canvas wider than the
    legend and for a track of non-negative duration, a mouse move puts
    the end of the selection at a time of the track, between 0 and the
    duration, wherever the pointer is; the start of the selection and
    the two filter frequencies stay as they are. *)
Theorem handleCanvasMouseMove_selection_within_track
    (event : MouseEvent.t) (u : UI) cv sd info a :
  canvas u = Some cv -> spectrogramData u = Some sd ->
  audioInfo u = Some info ->
  isSelecting u = true -> selectionStart u = Some a ->
  ~ Canvas.width cv == legendWidth -> 0 <= AudioInfo.duration info ->
  let u' := handleCanvasMouseMove event u in
  (exists e, selectionEnd u' = Some e /\ 0 <= e <= AudioInfo.duration info) /\
  selectionStart u' = Some a /\
  highPassFreq u' = highPassFreq u /\ lowPassFreq u' = lowPassFreq u.
Proof.
  intros Hcv Hsd Hinfo Hsel Ha _ Hdur u'. subst u'.
  unfold handleCanvasMouseMove. rewrite Hcv, Hsd, Hinfo, Hsel, Ha.
  draw_frame. repeat split; [|done].
  eexists. split; [reflexivity|]. split; auto with jsnum.
Qed.

Lemma handleCanvasMouseMove_selection_within_track_witness :
  let u := set_isSelecting true
             (set_selectionStart (Some 1)
                (set_canvas (Some (Canvas.mk 860 430 0 0))
                   (set_audioInfo (Some (AudioInfo.mk 10 44100 2))
                      (set_spectrogramData
                         (Some (SpectrogramData.mk [[-80; -20]] [0] 8000))
                         initial_UI)))) in
  exists e,
    selectionEnd (handleCanvasMouseMove (MouseEvent.mk 2000 130 true) u)
      = Some e /\ e == 10.
Proof.
  destruct (handleCanvasMouseMove_selection_within_track
              (MouseEvent.mk 2000 130 true)
              (set_isSelecting true
                 (set_selectionStart (Some 1)
                    (set_canvas (Some (Canvas.mk 860 430 0 0))
                       (set_audioInfo (Some (AudioInfo.mk 10 44100 2))
                          (set_spectrogramData
                             (Some (SpectrogramData.mk [[-80; -20]] [0] 8000))
                             initial_UI)))))
              (Canvas.mk 860 430 0 0)
              (SpectrogramData.mk [[-80; -20]] [0] 8000)
              (AudioInfo.mk 10 44100 2) 1
              eq_refl eq_refl eq_refl eq_refl eq_refl)
    as [(e & He & _) _]; [vm_compute; discriminate | vm_compute; discriminate |].
  exists e. split; [exact He|].
  vm_compute in He. injection He as <-. reflexivity.
Defined.

(** ** The cached extremes of the spectrogram *)

Lemma scanStep_some (m M v : Q) :
  exists m1 M1,
    scanStep (Some m, Some M) (Some v) = (Some m1, Some M1) /\
    m1 <= m /\ M <= M1 /\ m1 <= v /\ v <= M1 /\
    (m1 = m \/ m1 = v) /\ (M1 = M \/ M1 = v).
Proof.
  cbn. destruct (gtb v M) eqn:HM, (ltb v m) eqn:Hm.
  all: first [apply gtb_gt in HM | apply gtb_le in HM].
  all: first [apply ltb_lt in Hm | apply ltb_ge in Hm].
  all: eexists _, _; split; [reflexivity|].
  all: repeat split; try lra; auto.
Qed.

Lemma foldl_scanStep_some (l : list Q) (m M : Q) :
  exists m' M',
    foldl scanStep (Some m, Some M) (Some <$> l) = (Some m', Some M') /\
    m' <= m /\ M <= M' /\
    (forall v, v ∈ l -> m' <= v /\ v <= M') /\
    (m' = m \/ m' ∈ l) /\ (M' = M \/ M' ∈ l).
Proof.
  revert m M. induction l as [|v l IH]; intros m M.
  - exists m, M. split; [reflexivity|]. split; [lra|]. split; [lra|].
    split; [|split; by left]. intros v Hv. by apply elem_of_nil in Hv.
  - cbn [fmap list_fmap foldl].
    destruct (scanStep_some m M v)
      as (m1 & M1 & -> & Hm1 & HM1 & Hv1 & Hv2 & Hmin1 & Hmax1).
    destruct (IH m1 M1) as (m' & M' & -> & Hm' & HM' & Hall & Hmin & Hmax).
    exists m', M'. split; [reflexivity|]. split; [lra|]. split; [lra|].
    split; [|split].
    + intros w [->|Hw]%elem_of_cons; [lra | by apply Hall].
    + destruct Hmin as [->|Hin]; [|right; by apply list_elem_of_further].
      destruct Hmin1 as [->| ->]; [by left | right; apply list_elem_of_here].
    + destruct Hmax as [->|Hin]; [|right; by apply list_elem_of_further].
      destruct Hmax1 as [->| ->]; [by left | right; apply list_elem_of_here].
Qed.

Lemma scanMinMax_rectangular (data : list (list Q)) v0 rest :
  Forall (fun row => List.length row = numBins_of data) data ->
  concat data = v0 :: rest ->
  exists m M,
    scanMinMax data (List.length data) (numBins_of data) = (Some m, Some M) /\
    (forall v, v ∈ concat data -> m <= v /\ v <= M) /\
    m ∈ concat data /\ M ∈ concat data.
Proof.
  intros Hrect Hne. unfold scanMinMax.
  rewrite (loopReads_rectangular data _ Hrect), Hne.
  cbn [fmap list_fmap foldl scanStep].
  destruct (foldl_scanStep_some rest v0 v0)
    as (m & M & -> & Hm & HM & Hall & Hmin & Hmax).
  exists m, M. split; [reflexivity|]. split; [|split].
  - intros v [->|Hv]%elem_of_cons; [lra | by apply Hall].
  - destruct Hmin as [->|?];
      [apply list_elem_of_here | by apply list_elem_of_further].
  - destruct Hmax as [->|?];
      [apply list_elem_of_here | by apply list_elem_of_further].
Qed.

(** X8.  Drawing a spectrogram whose rows all have the length of the
    first one, with the cache reset to 0 and 0 as [loadAudio] leaves it,
    stores the extremes of the data: afterwards every value of the
    matrix lies between [cachedMinDb] and [cachedMaxDb], both of which
    are values of the matrix, and the redraw flag is down. *)
Theorem drawSpectrogram_caches_extremes (u : UI) cv sd :
  ctx u = true -> canvas u = Some cv -> spectrogramData u = Some sd ->
  let data := SpectrogramData.data sd in
  data <> [] -> numBins_of data <> 0%nat ->
  Forall (fun row => List.length row = numBins_of data) data ->
  cachedMinDb u == 0 -> cachedMaxDb u == 0 ->
  let u' := drawSpectrogram u in
  (forall v, v ∈ concat data -> cachedMinDb u' <= v /\ v <= cachedMaxDb u') /\
  cachedMinDb u' ∈ concat data /\ cachedMaxDb u' ∈ concat data /\
  spectrogramNeedsRedraw u' = false.
Proof.
  intros Hctx Hcv Hsd data Hne Hbins Hrect Hmin Hmax u'. subst u'.
  unfold drawSpectrogram. rewrite Hctx, Hsd, Hcv. fold data.
  destruct (Nat.eqb_spec (List.length data) 0) as [Hlen|_].
  { by destruct data. }
  destruct (Nat.eqb_spec (numBins_of data) 0) as [|_]; [done|].
  apply Qeq_bool_iff in Hmin, Hmax. rewrite Hmin, Hmax. cbn [andb].
  assert (exists v0 rest, concat data = v0 :: rest) as (v0 & rest & Hcat).
  { destruct data as [|row data']; [done|].
    unfold numBins_of in Hbins. cbn in Hbins.
    destruct row as [|v0 row]; [done|]. cbn. eauto. }
  destruct (scanMinMax_rectangular data v0 rest Hrect Hcat)
    as (m & M & -> & Hall & Hm & HM).
  ui_get_set. auto.
Qed.

Lemma drawSpectrogram_caches_extremes_witness :
  let u := set_ctx true
             (set_canvas (Some (Canvas.mk 800 430 0 0))
                (set_spectrogramData
                   (Some (SpectrogramData.mk
                            [[-80; -20; -60]; [-75; -10; -90]]
                            [0; 512 # 44100] 8000))
                   initial_UI)) in
  cachedMinDb (drawSpectrogram u) ∈ [-80; -20; -60; -75; -10; -90] /\
  cachedMaxDb (drawSpectrogram u) ∈ [-80; -20; -60; -75; -10; -90].
Proof.
  destruct (drawSpectrogram_caches_extremes
              (set_ctx true
                 (set_canvas (Some (Canvas.mk 800 430 0 0))
                    (set_spectrogramData
                       (Some (SpectrogramData.mk
                                [[-80; -20; -60]; [-75; -10; -90]]
                                [0; 512 # 44100] 8000))
                       initial_UI)))
              (Canvas.mk 800 430 0 0)
              (SpectrogramData.mk [[-80; -20; -60]; [-75; -10; -90]]
                                  [0; 512 # 44100] 8000)
              eq_refl eq_refl eq_refl)
    as (_ & Hm & HM & _);
    [ discriminate | discriminate
    | repeat constructor | reflexivity | reflexivity | ].
  split; [exact Hm | exact HM].
Defined.

(** ** Colours *)

Lemma floor_byte (x : Q) : 0 <= x <= 255 -> (0 <= Math.floor x <= 255)%Z.
Proof.
  intros [H0 H255]. unfold Math.floor. split.
  - change 0%Z with (Qfloor 0). by apply Qfloor_resp_le.
  - change 255%Z with (Qfloor 255). by apply Qfloor_resp_le.
Qed.

Lemma floor_clamp_byte (x : Q) :
  (0 <= Math.floor (Math.max 0 (Math.min 255 x)) <= 255)%Z.
Proof.
  apply floor_byte. split; [auto with jsnum|].
  apply Math_max_lub; [lra | auto with jsnum].
Qed.

Lemma unit_clamp (x : Q) : 0 <= Math.max 0 (Math.min 1 x) <= 1.
Proof.
  split; [auto with jsnum|].
  apply Math_max_lub; [lra | auto with jsnum].
Qed.

Lemma neonBlend_byte (c0 c1 : Z) (localT : Q) :
  (0 <= c0 <= 255)%Z -> (0 <= c1 <= 255)%Z -> 0 <= localT <= 1 ->
  (0 <= neonBlend c0 c1 localT <= 255)%Z.
Proof.
  intros [Ha0 Ha1] [Hb0 Hb1] [Hl0 Hl1]. unfold neonBlend. apply floor_byte.
  set (a := inject_Z c0). set (b := inject_Z c1).
  assert (0 <= a <= 255) as [? ?].
  { subst a. split; [change 0 with (inject_Z 0) | change 255 with (inject_Z 255)];
      by rewrite <- Zle_Qle. }
  assert (0 <= b <= 255) as [? ?].
  { subst b. split; [change 0 with (inject_Z 0) | change 255 with (inject_Z 255)];
      by rewrite <- Zle_Qle. }
  assert (a + (b - a) * localT == a * (1 - localT) + b * localT) as -> by ring.
  split.
  - assert (0 <= a * (1 - localT)) by (apply Qmult_le_0_compat; lra).
    assert (0 <= b * localT) by (apply Qmult_le_0_compat; lra).
    lra.
  - assert (0 <= (255 - a) * (1 - localT)) by (apply Qmult_le_0_compat; lra).
    assert (0 <= (255 - b) * localT) by (apply Qmult_le_0_compat; lra).
    lra.
Qed.

(** For an argument that is a number, every colour function returns
    three integers between 0 and 255. *)
Lemma colours_of_numbers_are_bytes (value : Q) :
  Forall (fun c : Color.t =>
            (0 <= Color.r c <= 255)%Z /\ (0 <= Color.g c <= 255)%Z /\
            (0 <= Color.b c <= 255)%Z)
         [getSpectrogramColor value; getFrequencyColor value;
          getNeonDbColor value].
Proof.
  pose proof (unit_clamp value) as Ht.
  constructor; [|constructor; [|constructor; [|constructor]]].
  - unfold getSpectrogramColor; cbn [Color.r Color.g Color.b].
    repeat split; apply floor_clamp_byte.
  - unfold getFrequencyColor; cbn [Color.r Color.g Color.b].
    set (t := Math.max 0 (Math.min 1 value)) in *.
    repeat split; try lia; apply floor_byte; lra.
  - unfold getNeonDbColor.
    set (t := Math.max 0 (Math.min 1 value)) in *.
    unfold neonColors, neonSearch.
    repeat match goal with
    | |- context [geb t ?p0 && leb t ?p1] =>
        destruct (geb t p0) eqn:?; [destruct (leb t p1) eqn:?|]; cbn [andb]
    end;
    cbn [Color.r Color.g Color.b]; try (repeat split; lia).
    all: repeat match goal with
         | H : geb _ _ = true |- _ => apply geb_ge in H
         | H : leb _ _ = true |- _ => apply leb_le in H
         end.
    all: repeat split; apply neonBlend_byte; try lia.
    all: split;
      [ apply Qle_shift_div_l; [reflexivity | lra]
      | apply Qle_shift_div_r; [reflexivity | lra] ].
Qed.

(** X9.  For every argument but NaN (a number or an infinity), each of
    the three colour functions (the viridis map of the spectrogram, the
    gradient of the frequency bar, the rainbow of the legend) returns
    three integers between 0 and 255.  For NaN the viridis map returns
    three NaN, the gradient of the frequency bar NaN, NaN and 255, and
    the rainbow its last stop (180, 0, 255). *)
Theorem colours_are_bytes (value : number) :
  let byte (c : option Z) := exists z, c = Some z /\ (0 <= z <= 255)%Z in
  match value with
  | NaN =>
      getSpectrogramColor_of NaN = Rgb.mk None None None /\
      getFrequencyColor_of NaN = Rgb.mk None None (Some 255%Z) /\
      getNeonDbColor_of NaN = Rgb.mk (Some 180%Z) (Some 0%Z) (Some 255%Z)
  | _ =>
      Forall (fun c : Rgb.t => byte (Rgb.r c) /\ byte (Rgb.g c) /\ byte (Rgb.b c))
             [getSpectrogramColor_of value; getFrequencyColor_of value;
              getNeonDbColor_of value]
  end.
Proof.
  intros byte.
  assert (forall t, Forall (fun c : Rgb.t =>
                      byte (Rgb.r c) /\ byte (Rgb.g c) /\ byte (Rgb.b c))
                    [Rgb.of_color (getSpectrogramColor t);
                     Rgb.of_color (getFrequencyColor t);
                     Rgb.of_color (getNeonDbColor t)]) as Hnum.
  { intros t. pose proof (colours_of_numbers_are_bytes t) as Hb.
    apply Forall_cons_1 in Hb as [(? & ? & ?) Hb].
    apply Forall_cons_1 in Hb as [(? & ? & ?) Hb].
    apply Forall_cons_1 in Hb as [(? & ? & ?) _].
    unfold byte, Rgb.of_color; cbn [Rgb.r Rgb.g Rgb.b].
    repeat constructor; eauto. }
  destruct value as [q| |[|]]; [apply Hnum | done | apply Hnum | apply Hnum].
Qed.

(** ** The colour tables *)

(** X10.  The tables that [initColorLUTs] fills agree with the colour
    functions they replace: for every index [i] below 256, the three
    bytes of the viridis table at [3 i] are [getSpectrogramColor (i / 255)]
    and those of the frequency table are [getFrequencyColor (i / 255)];
    the dimmed table holds a grey of at most 38 with a blue of at most
    41. *)
Theorem initColorLUTs_agree (i : nat) :
  (i < 256)%nat ->
  let t := inject_Z (Z.of_nat i) / 255 in
  let at_ (lut : list Z) := (lut !! (i * 3)%nat, lut !! (i * 3 + 1)%nat,
                             lut !! (i * 3 + 2)%nat) in
  at_ (viridisLUT initColorLUTs)
    = (Some (Color.r (getSpectrogramColor t)),
       Some (Color.g (getSpectrogramColor t)),
       Some (Color.b (getSpectrogramColor t))) /\
  at_ (frequencyLUT initColorLUTs)
    = (Some (Color.r (getFrequencyColor t)),
       Some (Color.g (getFrequencyColor t)),
       Some (Color.b (getFrequencyColor t))) /\
  exists gray blue,
    at_ (dimmedLUT initColorLUTs) = (Some gray, Some gray, Some blue) /\
    (0 <= gray <= 38)%Z /\ (gray <= blue <= 41)%Z.
Proof.
  intros Hi.
  assert (forallb (fun i : nat =>
            let t := inject_Z (Z.of_nat i) / 255 in
            let v := viridisLUT initColorLUTs in
            let f := frequencyLUT initColorLUTs in
            let d := dimmedLUT initColorLUTs in
            bool_decide (v !! (i * 3)%nat = Some (Color.r (getSpectrogramColor t)))
            && bool_decide (v !! (i * 3 + 1)%nat = Some (Color.g (getSpectrogramColor t)))
            && bool_decide (v !! (i * 3 + 2)%nat = Some (Color.b (getSpectrogramColor t)))
            && bool_decide (f !! (i * 3)%nat = Some (Color.r (getFrequencyColor t)))
            && bool_decide (f !! (i * 3 + 1)%nat = Some (Color.g (getFrequencyColor t)))
            && bool_decide (f !! (i * 3 + 2)%nat = Some (Color.b (getFrequencyColor t)))
            && match d !! (i * 3)%nat, d !! (i * 3 + 1)%nat, d !! (i * 3 + 2)%nat with
               | Some gray, Some gray', Some blue =>
                   (gray =? gray')%Z && (0 <=? gray)%Z && (gray <=? 38)%Z
                   && (gray <=? blue)%Z && (blue <=? 41)%Z
               | _, _, _ => false
               end) (seq 0 256) = true) as Hall.
  { vm_compute. reflexivity. }
  rewrite forallb_forall in Hall.
  specialize (Hall i). cbv zeta in Hall. cbv zeta.
  rewrite !andb_true_iff, !bool_decide_eq_true in Hall.
  destruct Hall as ((((((-> & ->) & ->) & ->) & ->) & ->) & Hd);
    [apply in_seq; lia|].
  split; [reflexivity|]. split; [reflexivity|].
  destruct (dimmedLUT initColorLUTs !! (i * 3)%nat) as [gray|]; [|done].
  destruct (dimmedLUT initColorLUTs !! (i * 3 + 1)%nat) as [gray'|]; [|done].
  destruct (dimmedLUT initColorLUTs !! (i * 3 + 2)%nat) as [blue|]; [|done].
  rewrite !andb_true_iff in Hd.
  destruct Hd as ((((Heq%Z.eqb_eq & ?%Z.leb_le) & ?%Z.leb_le) & ?%Z.leb_le)
                  & ?%Z.leb_le).
  subst gray'. exists gray, blue. repeat split; done.
Qed.

Lemma initColorLUTs_agree_witness :
  (viridisLUT initColorLUTs !! 0%nat, viridisLUT initColorLUTs !! 1%nat,
   viridisLUT initColorLUTs !! 2%nat) = (Some 68%Z, Some 1%Z, Some 84%Z).
Proof.
  destruct (initColorLUTs_agree 0) as (Hv & _); [lia|]. exact Hv.
Defined.

(** ** The pixels of the cached spectrogram *)

Lemma lutIndex_range (val cachedMinDb_ dbRangeInv : Q) :
  exists k : nat,
    (k < 256)%nat /\ lutIndex val cachedMinDb_ dbRangeInv = Z.of_nat (k * 3).
Proof.
  unfold lutIndex.
  set (c := Z.max 0 (Z.min 255 (Math.floor ((val - cachedMinDb_) * dbRangeInv)))).
  assert (0 <= c <= 255)%Z by (subst c; lia).
  exists (Z.to_nat c). split; lia.
Qed.

Lemma initColorLUTs_bytes (k : nat) (inRange : bool) :
  (k < 256)%nat ->
  exists r g b,
    pixelColor initColorLUTs (Z.of_nat (k * 3)) inRange
      = (Some r, Some g, Some b, 255%Z) /\
    (0 <= r <= 255)%Z /\ (0 <= g <= 255)%Z /\ (0 <= b <= 255)%Z.
Proof.
  intros Hk.
  assert (forallb (fun k : nat =>
            forallb (fun inRange : bool =>
              match pixelColor initColorLUTs (Z.of_nat (k * 3)) inRange with
              | (Some r, Some g, Some b, a) =>
                  (a =? 255)%Z && (0 <=? r)%Z && (r <=? 255)%Z
                  && (0 <=? g)%Z && (g <=? 255)%Z
                  && (0 <=? b)%Z && (b <=? 255)%Z
              | _ => false
              end) [true; false]) (seq 0 256) = true) as Hall.
  { vm_compute. reflexivity. }
  rewrite forallb_forall in Hall.
  specialize (Hall k). rewrite forallb_forall in Hall.
  specialize (Hall ltac:(apply in_seq; lia) inRange
                ltac:(destruct inRange; cbn; auto)).
  destruct (pixelColor initColorLUTs (Z.of_nat (k * 3)) inRange)
    as [[[[r|] [g|]] [b|]] a]; try done.
  rewrite !andb_true_iff in Hall.
  destruct Hall as ((((((->%Z.eqb_eq & ?%Z.leb_le) & ?%Z.leb_le) & ?%Z.leb_le)
                       & ?%Z.leb_le) & ?%Z.leb_le) & ?%Z.leb_le).
  exists r, g, b. repeat split; done.
Qed.

(** X11.  The pixel loop never reads outside of the colour tables: for
    every cell it colours, the index it computes is a multiple of 3
    between 0 and 765, and the three table entries it reads there, in
    the viridis table or in the dimmed one, exist and are bytes. *)
Theorem renderSpectrogramToCache_reads_inside_tables
    (u : UI) (data : list (list Q)) (numFrames numBins : nat) lutIdx inRange :
  Some (lutIdx, inRange) ∈ renderSpectrogramToCache u data numFrames numBins ->
  (0 <= lutIdx <= 765)%Z /\ (lutIdx mod 3 = 0)%Z /\
  exists r g b,
    pixelColor initColorLUTs lutIdx inRange = (Some r, Some g, Some b, 255%Z) /\
    (0 <= r <= 255)%Z /\ (0 <= g <= 255)%Z /\ (0 <= b <= 255)%Z.
Proof.
  unfold renderSpectrogramToCache.
  intros ([val|] & Heq & _)%list_elem_of_fmap; [|discriminate].
  cbn in Heq. injection Heq as -> _.
  match goal with
  | |- context [lutIndex ?a ?b ?c] =>
      destruct (lutIndex_range a b c) as (k & Hk & ->)
  end.
  split; [lia|]. split; [|by apply initColorLUTs_bytes].
  rewrite Nat2Z.inj_mul. apply Z.mod_mul. lia.
Qed.

Lemma renderSpectrogramToCache_reads_inside_tables_witness :
  exists r g b,
    pixelColor initColorLUTs 765 true = (Some r, Some g, Some b, 255%Z) /\
    (0 <= r <= 255)%Z /\ (0 <= g <= 255)%Z /\ (0 <= b <= 255)%Z.
Proof.
  apply (renderSpectrogramToCache_reads_inside_tables
           (set_dynamicsHigh 0
              (set_dynamicsLow (-100)
                 (set_cachedMaxDb (-10) (set_cachedMinDb (-90) initial_UI))))
           [[-80; -20; -60]; [-75; -10; -90]] 2 3 765 true).
  vm_compute. do 4 apply list_elem_of_further. apply list_elem_of_here.
Defined.

Lemma shl2_small (v : Z) : (0 <= v < 2 ^ 29)%Z -> shl2 v = (4 * v)%Z.
Proof.
  intros Hv. unfold shl2, int32.
  assert ((v + 2 ^ 31) mod 2 ^ 32 - 2 ^ 31 = v)%Z as ->.
  { rewrite Z.mod_small; lia. }
  rewrite Z.shiftl_mul_pow2 by lia.
  rewrite Z.mod_small; lia.
Qed.

(** X12.  For an image of fewer than [2^29] pixels, the pixel loop
    writes every pixel exactly once: each cell of frame [x] and bin [y]
    goes to the four bytes at [4 p] for a pixel [p] of the image, two
    different cells go to different pixels, and every pixel is that of a
    cell.  Bin 0 fills the bottom row of the image. *)
Theorem pixelIndex_bijective (numFrames numBins : nat) :
  (Z.of_nat numFrames * Z.of_nat numBins < 2 ^ 29)%Z ->
  (forall x y, (x < numFrames)%nat -> (y < numBins)%nat ->
     exists p : nat,
       (p < numFrames * numBins)%nat /\
       pixelIndex numFrames numBins x y = (4 * Z.of_nat p)%Z) /\
  (forall x y x' y',
     (x < numFrames)%nat -> (y < numBins)%nat ->
     (x' < numFrames)%nat -> (y' < numBins)%nat ->
     pixelIndex numFrames numBins x y = pixelIndex numFrames numBins x' y' ->
     x = x' /\ y = y') /\
  (forall p, (p < numFrames * numBins)%nat ->
     exists x y, (x < numFrames)%nat /\ (y < numBins)%nat /\
       pixelIndex numFrames numBins x y = (4 * Z.of_nat p)%Z) /\
  (forall x, (x < numFrames)%nat -> (0 < numBins)%nat ->
     pixelIndex numFrames numBins x 0
       = (4 * (Z.of_nat (numBins - 1) * Z.of_nat numFrames + Z.of_nat x))%Z).
Proof.
  intros Hsize.
  assert (forall x y, (x < numFrames)%nat -> (y < numBins)%nat ->
            pixelIndex numFrames numBins x y
            = (4 * Z.of_nat ((numBins - 1 - y) * numFrames + x))%Z) as Hidx.
  { intros x y Hx Hy. unfold pixelIndex.
    rewrite shl2_small by nia. f_equal. nia. }
  split; [|split; [|split]].
  - intros x y Hx Hy. exists ((numBins - 1 - y) * numFrames + x)%nat.
    split; [nia | by apply Hidx].
  - intros x y x' y' Hx Hy Hx' Hy'. rewrite !Hidx by done. intros Heq.
    assert ((numBins - 1 - y) * numFrames + x
            = (numBins - 1 - y') * numFrames + x')%nat as Heq' by lia.
    assert (numBins - 1 - y = numBins - 1 - y')%nat by nia.
    split; nia.
  - intros p Hp.
    assert (0 < numFrames)%nat by (destruct numFrames; lia).
    exists (p mod numFrames)%nat, (numBins - 1 - p / numFrames)%nat.
    assert (p mod numFrames < numFrames)%nat by (apply Nat.mod_upper_bound; lia).
    assert (p / numFrames < numBins)%nat
      by (apply Nat.Div0.div_lt_upper_bound; lia).
    split; [done|]. split; [lia|].
    rewrite Hidx by (done || lia). f_equal. f_equal.
    replace (numBins - 1 - (numBins - 1 - p / numFrames))%nat
      with (p / numFrames)%nat by lia.
    pose proof (Nat.div_mod_eq p numFrames) as Hdm.
    rewrite (Nat.mul_comm (p / numFrames)). by symmetry.
  - intros x Hx Hbins. rewrite Hidx by done.
    rewrite Nat.sub_0_r. lia.
Qed.

Lemma pixelIndex_bijective_witness :
  (exists x y, (x < 2)%nat /\ (y < 3)%nat /\ pixelIndex 2 3 x y = 12%Z) /\
  pixelIndex 2 3 1 0 = 20%Z.
Proof.
  destruct (pixelIndex_bijective 2 3) as (_ & _ & Hsurj & Hbottom);
    [reflexivity|].
  split.
  - apply (Hsurj 3%nat). lia.
  - apply (Hbottom 1%nat); lia.
Defined.

(** ** The dynamics gate *)

Lemma gateSample_attenuates (lowAmp highAmp : Q) (samples i : nat) :
  0 <= highAmp ->
  let x := (inject_Z (Z.of_nat i) * 2) / inject_Z (Z.of_nat samples) - 1 in
  let q := gateSample lowAmp highAmp samples i in
  Math.abs q <= Math.abs x /\ (0 <= x -> 0 <= q) /\ (x <= 0 -> q <= 0) /\
  (lowAmp <= Math.abs x -> Math.abs x <= highAmp -> q = x).
Proof.
  intros Hhigh x q. subst q. unfold gateSample. fold x.
  unfold Math.abs.
  assert (0 <= Qabs x) as Ha0 by apply Qabs_nonneg.
  assert ((0 <= x /\ Qabs x == x) \/ (x <= 0 /\ Qabs x == - x)) as Hsign.
  { destruct (Qlt_le_dec x 0) as [Hneg|Hpos].
    - right. split; [lra|]. apply Qabs_neg. lra.
    - left. split; [done|]. by apply Qabs_pos. }
  set (a := Qabs x) in *.
  destruct (ltb a lowAmp) eqn:Hlow;
    [apply ltb_lt in Hlow | apply ltb_ge in Hlow].
  { split; [|split; [|split]].
    - apply Qabs_Qle_condition. destruct Hsign as [[? ?]|[? ?]]; lra.
    - intros; lra.
    - intros; lra.
    - intros; exfalso; lra. }
  destruct (gtb a highAmp) eqn:Hgt;
    [apply gtb_gt in Hgt | apply gtb_le in Hgt].
  2:{ split; [fold a; lra|]. split; [done|]. split; [done|]. done. }
  destruct (gtb x 0) eqn:Hx; [apply gtb_gt in Hx | apply gtb_le in Hx].
  - split; [|split; [|split]].
    + apply Qabs_Qle_condition. destruct Hsign as [[? ?]|[? ?]]; lra.
    + intros; lra.
    + intros; lra.
    + intros; exfalso; lra.
  - split; [|split; [|split]].
    + apply Qabs_Qle_condition. destruct Hsign as [[? ?]|[? ?]]; lra.
    + intros. destruct Hsign as [[? ?]|[? ?]]; lra.
    + intros. destruct Hsign as [[? ?]|[? ?]]; lra.
    + intros; exfalso; lra.
Qed.

Section GateCurve.
Variable pow : Q -> Q -> Q.
Hypothesis pow_nonneg : forall y, 0 <= pow 10 y.

Lemma makeDynamicsGateCurve_of_length samples lowDb highDb minDb maxDb :
  List.length (makeDynamicsGateCurve_of pow samples lowDb highDb minDb maxDb)
    = samples.
Proof.
  unfold makeDynamicsGateCurve_of.
  destruct (Qeq_bool (maxDb - minDb) 0).
  - rewrite (store_loop_length
               (fun i => Fnum ((inject_Z (Z.of_nat i) * 2)
                               / inject_Z (Z.of_nat samples) - 1))).
    apply length_replicate.
  - destruct (gateThresholds pow lowDb highDb minDb maxDb) as [lowAmp highAmp].
    rewrite (store_loop_length (fun i => Fnum (gateSample lowAmp highAmp samples i))).
    apply length_replicate.
Qed.

Lemma makeDynamicsGateCurve_of_lookup samples lowDb highDb minDb maxDb i :
  (i < samples)%nat ->
  makeDynamicsGateCurve_of pow samples lowDb highDb minDb maxDb !! i
    = Some (Fnum
        (if Qeq_bool (maxDb - minDb) 0 then
           (inject_Z (Z.of_nat i) * 2) / inject_Z (Z.of_nat samples) - 1
         else
           gateSample (fst (gateThresholds pow lowDb highDb minDb maxDb))
                      (snd (gateThresholds pow lowDb highDb minDb maxDb))
                      samples i)).
Proof.
  intros Hi. unfold makeDynamicsGateCurve_of.
  destruct (Qeq_bool (maxDb - minDb) 0).
  - apply (store_loop_lookup
             (fun i => Fnum ((inject_Z (Z.of_nat i) * 2)
                             / inject_Z (Z.of_nat samples) - 1)));
      [done | by rewrite length_replicate].
  - destruct (gateThresholds pow lowDb highDb minDb maxDb) as [lowAmp highAmp].
    apply (store_loop_lookup (fun i => Fnum (gateSample lowAmp highAmp samples i)));
      [done | by rewrite length_replicate].
Qed.

(** X13.  The dynamics gate never amplifies and never flips a sample:
    whatever the thresholds and the range, the curve has 8192 entries,
    and the entry for the input [x = 2 i / 8192 - 1] is a number of the
    sign of [x] and of at most its magnitude, hence between -1 and 1.
    When the range of the spectrogram is empty ([maxDb = minDb]), the
    curve is the identity. *)
Theorem makeDynamicsGateCurve_attenuates (lowDb highDb minDb maxDb : Q) :
  let curve := makeDynamicsGateCurve pow lowDb highDb minDb maxDb in
  Z.of_nat (List.length curve) = 8192%Z /\
  forall i v, curve !! i = Some v ->
    let x := (inject_Z (Z.of_nat i) * 2) / 8192 - 1 in
    exists q, v = Fnum q /\
      Math.abs q <= Math.abs x /\ Math.abs x <= 1 /\
      (0 <= x -> 0 <= q) /\ (x <= 0 -> q <= 0) /\
      (maxDb == minDb -> q = x).
Proof.
  intros curve. subst curve. unfold makeDynamicsGateCurve.
  set (n := Z.to_nat 8192).
  assert (0 < n)%nat as Hn by (subst n; lia).
  split; [rewrite makeDynamicsGateCurve_of_length; subst n; lia|].
  intros i v Hv. cbv zeta.
  set (x := inject_Z (Z.of_nat i) * 2 / 8192 - 1).
  assert (i < n)%nat as Hi.
  { apply lookup_lt_Some in Hv.
    by rewrite makeDynamicsGateCurve_of_length in Hv. }
  rewrite makeDynamicsGateCurve_of_lookup in Hv by done.
  injection Hv as <-. eexists. split; [reflexivity|].
  change (inject_Z (Z.of_nat n)) with 8192. fold x.
  assert (Math.abs x <= 1) as Hx1.
  { apply Qabs_Qle_condition. split.
    - apply (abscissa_lower n Hn i).
    - by apply (abscissa_upper n Hn i). }
  destruct (Qeq_bool (maxDb - minDb) 0) eqn:Hflat.
  - repeat split; try done; lra.
  - destruct (gateSample_attenuates
                (fst (gateThresholds pow lowDb highDb minDb maxDb))
                (snd (gateThresholds pow lowDb highDb minDb maxDb)) n i)
      as (Habs & Hpos & Hneg & _).
    { unfold gateThresholds; cbn [snd]. apply pow_nonneg. }
    change (inject_Z (Z.of_nat n)) with 8192 in *. fold x in Habs, Hpos, Hneg.
    repeat split; try done.
    intros Heq. exfalso.
    assert (Qeq_bool (maxDb - minDb) 0 = true) as Htrue
      by (apply Qeq_bool_iff; lra).
    congruence.
Qed.
End GateCurve.

Lemma makeDynamicsGateCurve_attenuates_witness :
  let curve := makeDynamicsGateCurve (fun _ _ => 1 # 2) (-60) (-20) (-90) (-10) in
  Z.of_nat (List.length curve) = 8192%Z /\
  forall i v, curve !! i = Some v ->
    let x := (inject_Z (Z.of_nat i) * 2) / 8192 - 1 in
    exists q, v = Fnum q /\
      Math.abs q <= Math.abs x /\ Math.abs x <= 1 /\
      (0 <= x -> 0 <= q) /\ (x <= 0 -> q <= 0) /\
      (-10 == -90 -> q = x).
Proof.
  apply (makeDynamicsGateCurve_attenuates (fun _ _ => 1 # 2)).
  intros y. lra.
Defined.

(** ** The normalisation gain *)

Lemma foldl_peakStep_infinite (samples : list f32) :
  foldl peakStep None samples = None.
Proof. induction samples as [|[q| |s] samples IH]; cbn; done. Qed.

Lemma foldl_peakStep (samples : list f32) (p0 peak : Q) :
  foldl peakStep (Some p0) samples = Some peak ->
  p0 <= peak /\ forall q, Fnum q ∈ samples -> Math.abs q <= peak.
Proof.
  revert p0. induction samples as [|s samples IH]; intros p0; cbn [foldl].
  - intros [= <-]. split; [lra|]. intros q Hq. by apply elem_of_nil in Hq.
  - destruct s as [q| |s]; cbn [peakStep].
    + destruct (gtb (Math.abs q) p0) eqn:Hgt;
        [apply gtb_gt in Hgt | apply gtb_le in Hgt];
        intros [Hle Hall]%IH; (split; [lra|]);
        intros q' [[= ->]|Hq']%elem_of_cons; try (by apply Hall); lra.
    + intros [Hle Hall]%IH. split; [done|].
      intros q' [[=]|Hq']%elem_of_cons. by apply Hall.
    + by rewrite foldl_peakStep_infinite.
Qed.

(** X14.  The normalisation gain brings no sample above the target
    level, up to the rounding of one quotient: for a buffer with a first
    channel, the gain is between 0 and 10, and every sample of that
    channel, multiplied by the gain, has a magnitude of at most the
    target level [10 ^ (normalizeTarget / 20)], as [Math.pow] returns
    it, times [1 + 2^-52], plus [2^-1075] times the sample for a
    quotient among the subnormal numbers.  Without a buffer the gain
    is 1. *)
Theorem calculateNormalizationGain_bounds (rnd : Q -> Q) (pow : Q -> Q -> Q)
    (buf : AudioBuffer.t) (normalizeTarget : Q) (samples : list f32) :
  Double.rounding rnd ->
  (forall y, 0 < pow 10 y) ->
  AudioBuffer.channelData buf !! 0%nat = Some samples ->
  calculateNormalizationGain_with pow rnd None normalizeTarget = Some 1 /\
  exists gain,
    calculateNormalizationGain_with pow rnd (Some buf) normalizeTarget
      = Some gain /\
    0 <= gain /\ gain <= 10 /\
    forall q, Fnum q ∈ samples ->
      Math.abs q * gain
        <= pow 10 (rnd (normalizeTarget / 20)) * (1 + 2 * Double.eps)
           + Math.abs q * Double.eta.
Proof.
  intros Hrnd Hpow Hch. split; [reflexivity|].
  unfold calculateNormalizationGain_with. rewrite Hch.
  set (T := pow 10 (rnd (normalizeTarget / 20))).
  assert (0 < T) as HT by apply Hpow.
  assert (0 < Double.eps) as Heps by done.
  assert (0 < Double.eta) as Heta by apply pow2_pos.
  destruct (foldl peakStep (Some 0) samples) as [peak|] eqn:Hfold.
  - destruct (foldl_peakStep samples 0 peak Hfold) as [Hpeak0 Hall].
    destruct (Qeq_bool peak 0) eqn:Hzero.
    + apply Qeq_bool_iff in Hzero.
      exists 1. split; [reflexivity|]. split; [lra|]. split; [lra|].
      intros q Hq. specialize (Hall q Hq).
      assert (0 <= Math.abs q) by apply Qabs_nonneg.
      assert (0 <= Math.abs q * Double.eta) by (apply Qmult_le_0_compat; lra).
      nra.
    + apply Qeq_bool_neq in Hzero.
      assert (0 < peak) as Hpos by lra.
      assert (0 < T / peak) as Hquot.
      { apply Qlt_shift_div_l; [done | lra]. }
      set (g := rnd (T / peak)).
      assert (0 <= g) as Hg.
      { rewrite <- (Double.rounding_0 rnd Hrnd).
        apply (Double.rounding_monotone rnd Hrnd). lra. }
      assert (g <= T / peak * (1 + Double.eps) + Double.eta) as Hup.
      { pose proof (Double.rounding_error rnd Hrnd (T / peak)) as Herr.
        rewrite (Qabs_pos (T / peak)) in Herr by lra.
        apply Qabs_Qle_condition in Herr as [_ Herr]. fold g in Herr. lra. }
      eexists. split; [reflexivity|]. split; [|split].
      * unfold Math.min. apply Q.min_glb; lra.
      * apply Math_min_le_r.
      * intros q Hq. specialize (Hall q Hq).
        assert (0 <= Math.abs q) as Hq0 by apply Qabs_nonneg.
        apply Qle_trans with (Math.abs q * g).
        { rewrite !(Qmult_comm (Math.abs q)).
          apply Qmult_le_compat_r; [apply Math_min_le_l | done]. }
        apply Qle_trans
          with (Math.abs q * (T / peak * (1 + Double.eps) + Double.eta)).
        { rewrite !(Qmult_comm (Math.abs q)).
          apply Qmult_le_compat_r; [done | done]. }
        assert (Math.abs q * (T / peak) <= T) as Hscale.
        { apply Qle_trans with (peak * (T / peak)).
          - apply Qmult_le_compat_r; lra.
          - assert (peak * (T / peak) == T) as -> by (field; lra). lra. }
        assert (0 <= T * Double.eps) by (apply Qmult_le_0_compat; lra).
        revert Hscale. generalize (T / peak). intros c Hscale. nra.
  - exists (Math.min 0 10). split; [reflexivity|].
    change (Math.min 0 10) with 0. split; [lra|]. split; [lra|].
    intros q _. assert (0 <= Math.abs q) by apply Qabs_nonneg.
    assert (0 <= Math.abs q * Double.eta) by (apply Qmult_le_0_compat; lra).
    nra.
Qed.

Lemma calculateNormalizationGain_bounds_witness :
  exists gain,
    calculateNormalizationGain_with (fun _ _ => 1 # 2) binary64
      (Some (AudioBuffer.mk 1 3 44100 [[Fnum (3 # 8); Fnan; Fnum (- (1 # 8))]]))
      (-6) = Some gain /\
    (3 # 8) * gain
      <= (1 # 2) * (1 + 2 * Double.eps) + (3 # 8) * Double.eta.
Proof.
  destruct (calculateNormalizationGain_bounds binary64 (fun _ _ => 1 # 2)
              (AudioBuffer.mk 1 3 44100 [[Fnum (3 # 8); Fnan; Fnum (- (1 # 8))]])
              (-6) [Fnum (3 # 8); Fnan; Fnum (- (1 # 8))])
    as (_ & gain & Hgain & _ & _ & Hq);
    [apply binary64_rounding | intros; lra | reflexivity |].
  exists gain. split; [exact Hgain|].
  apply (Hq (3 # 8)). apply list_elem_of_here.
Defined.

(** ** The transport *)

Section TransportProperties.

(** Reduce the projections and the assignments of the transport on a
    state given by its fields, and nothing else. *)
Ltac tr_cbn :=
  cbn [Transport.component Transport.audioContext Transport.present Transport.sourceNode Transport.sources Transport.startTime Transport.animationId
       Transport.effects Transport.normalizeGain Transport.amplifyGain Transport.connections
       Transport.set_component Transport.set_sourceNode Transport.set_sources Transport.set_startTime Transport.set_animationId
       Transport.set_normalizeGain Transport.set_amplifyGain Transport.set_connections Transport.on_component
       andb orb negb Source.started Source.id].

Tactic Notation "tr_cbn" "in" hyp(H) :=
  cbn [Transport.component Transport.audioContext Transport.present Transport.sourceNode Transport.sources Transport.startTime Transport.animationId
       Transport.effects Transport.normalizeGain Transport.amplifyGain Transport.connections
       Transport.set_component Transport.set_sourceNode Transport.set_sources Transport.set_startTime Transport.set_animationId
       Transport.set_normalizeGain Transport.set_amplifyGain Transport.set_connections Transport.on_component
       andb orb negb Source.started Source.id] in H.

Lemma elem_of_links_routes (routes : list (list AudioNode.t)) e :
  (exists r, r ∈ routes /\ e ∈ Transport.links r) <-> e ∈ mjoin (Transport.links <$> routes).
Proof.
  rewrite list_elem_of_join. split.
  - intros (r & Hr & He). exists (Transport.links r). split; [done|].
    by apply list_elem_of_fmap_2.
  - intros (l & He & (r & -> & Hr)%list_elem_of_fmap). by exists r.
Qed.

Ltac in_list :=
  repeat first [ apply list_elem_of_here | apply list_elem_of_further ].

Ltac cases_of H :=
  repeat (apply elem_of_cons in H as [->|H]; [in_list|]);
  by apply elem_of_nil in H.

(** The chain that [Transport.playAudio] builds is the one of the routes. *)
Lemma buildChain_routes t src g e :
  e ∈ Transport.buildChain t src g <->
  e ∈ g \/ exists r, r ∈ Transport.signalRoutes t src /\ e ∈ Transport.links r.
Proof.
  rewrite elem_of_links_routes.
  unfold Transport.buildChain, Transport.signalRoutes, Transport.multibandOn, Transport.connect, Transport.stage.
  destruct (Transport.present t AudioNode.dynamicsGateNode);
  destruct (Effects.multibandEnabled (Transport.effects t)
            && Transport.present t AudioNode.lowBandFilter
            && Transport.present t AudioNode.midBandFilter
            && Transport.present t AudioNode.highBandFilter
            && Transport.present t AudioNode.lowBandCompressor
            && Transport.present t AudioNode.midBandCompressor
            && Transport.present t AudioNode.highBandCompressor
            && Transport.present t AudioNode.multibandMerger);
  destruct (Effects.compressorEnabled (Transport.effects t)
            && Transport.present t AudioNode.compressorNode);
  destruct (Effects.saturationEnabled (Transport.effects t)
            && Transport.present t AudioNode.saturatorNode);
  destruct (Effects.limiterEnabled (Transport.effects t)
            && Transport.present t AudioNode.limiterNode);
  cbn [app Transport.links fmap list_fmap mjoin list_join];
  rewrite <- ?(assoc_L (++)); cbn [app].
  all: split;
    [ intros [?|H]%elem_of_app; [by left|right; cases_of H]
    | intros [?|H]; [apply elem_of_app; by left|];
      apply elem_of_app; right; cases_of H ].
Qed.

Lemma buildChain_ext t t' src g :
  Transport.effects t = Transport.effects t' -> Transport.present t = Transport.present t' ->
  Transport.buildChain t src g = Transport.buildChain t' src g.
Proof. unfold Transport.buildChain. by intros -> ->. Qed.

Lemma signalRoutes_ext t t' src :
  Transport.effects t = Transport.effects t' -> Transport.present t = Transport.present t' ->
  Transport.signalRoutes t src = Transport.signalRoutes t' src.
Proof. unfold Transport.signalRoutes, Transport.multibandOn. by intros -> ->. Qed.

Lemma elem_of_disconnect a g e :
  e ∈ Transport.disconnect a g <-> e ∈ g /\ fst e <> a.
Proof.
  unfold Transport.disconnect. rewrite !list_elem_of_In, filter_In, negb_true_iff.
  by rewrite bool_decide_eq_false.
Qed.

Lemma elem_of_disconnect_names (pr : AudioNode.name -> bool)
    (names : list AudioNode.name) g e :
  e ∈ foldl (fun g n => if pr n then Transport.disconnect (AudioNode.named n) g else g)
            g names
  <-> e ∈ g /\ forall n, n ∈ names -> pr n = true -> fst e <> AudioNode.named n.
Proof.
  revert g. induction names as [|n names IH]; intros g; cbn [foldl].
  - split; [intros He; split; [done|] | by intros [He _]].
    intros n Hn. by apply elem_of_nil in Hn.
  - rewrite IH. destruct (pr n) eqn:Hpr.
    + rewrite elem_of_disconnect. split.
      * intros [[He Hne] Hall]. split; [done|].
        intros n' [->|Hn']%elem_of_cons; [done | by apply Hall].
      * intros [He Hall]. split; [split; [done|]|].
        -- apply Hall; [apply list_elem_of_here | done].
        -- intros n' Hn'. apply Hall. by apply list_elem_of_further.
    + split.
      * intros [He Hall]. split; [done|].
        intros n' [->|Hn']%elem_of_cons; [congruence | by apply Hall].
      * intros [He Hall]. split; [done|].
        intros n' Hn'. apply Hall. by apply list_elem_of_further.
Qed.

Lemma elem_of_disconnectAll t e :
  e ∈ Transport.disconnectAll t <->
  e ∈ Transport.connections t /\
  forall n, Transport.present t n = true -> fst e <> AudioNode.named n.
Proof.
  unfold Transport.disconnectAll. rewrite elem_of_disconnect_names.
  split; intros [He Hall]; (split; [done|]).
  - intros n. apply Hall. destruct n; in_list.
  - intros n _. apply Hall.
Qed.

Lemma applyNormalization_frame pow t tn :
  Transport.applyNormalization pow t = Some tn ->
  tn = Transport.set_normalizeGain (Transport.normalizeGain tn) t.
Proof.
  unfold Transport.applyNormalization. destruct t; tr_cbn.
  destruct (Effects.normalizeEnabled _ && _).
  - destruct (calculateNormalizationGain _ _ _) as [gain|]; cbn; [|done].
    by intros [= <-].
  - by intros [= <-].
Qed.

Lemma playable_guard t :
  Transport.playable t ->
  Transport.audioContext t
  && bool_decide (is_Some (audioBuffer (Transport.component t)))
  && Transport.present t AudioNode.highPassFilter && Transport.present t AudioNode.lowPassFilter
  && Transport.present t AudioNode.volumeNode && Transport.present t AudioNode.amplifyNode
  && Transport.present t AudioNode.analyserNode = true.
Proof.
  intros (-> & Hbuf & -> & -> & -> & -> & ->).
  by rewrite bool_decide_true.
Qed.

(** What [Transport.playAudio] does before it starts the source. *)
Lemma playAudio_unfold pow now now' t tn :
  Transport.playable t -> Transport.applyNormalization pow t = Some tn ->
  let armed (started : bool) :=
    Transport.mk (Transport.component t) (Transport.audioContext t) (Transport.present t)
       (Some (Source.mk (Transport.sources t) started)) (S (Transport.sources t))
       (now - pausedAt (Transport.component t)) (Transport.animationId t) (Transport.effects t)
       (Transport.normalizeGain tn)
       (if Effects.normalizeEnabled (Transport.effects t)
        then Effects.amplify (Transport.effects t) * Transport.normalizeGain tn
        else Effects.amplify (Transport.effects t))
       (Transport.buildChain t (AudioNode.source (Transport.sources t)) (Transport.disconnectAll t)) in
  Transport.playAudio pow now now' t =
    if ltb (pausedAt (Transport.component t)) 0 then armed false
    else Transport.updatePlayhead now' (Transport.on_component (set_isPlaying true) (armed true)).
Proof.
  intros Hplay Hnorm. unfold Transport.playAudio.
  rewrite (playable_guard t Hplay), Hnorm. cbn [negb].
  rewrite (applyNormalization_frame pow t tn Hnorm).
  destruct t; tr_cbn. reflexivity.
Qed.

Lemma stopAudio_connections t :
  Transport.connections (Transport.stopAudio t) = Transport.connections t.
Proof.
  unfold Transport.stopAudio, Transport.stopAudio_throws.
  destruct t as [u ac pr [[id started]|] n st an fx ng ag g]; tr_cbn;
    [destruct started; tr_cbn|]; try done;
    match goal with |- context [spectrogramData ?u] =>
      by destruct (spectrogramData u) end.
Qed.

Lemma updatePlayhead_connections now t :
  Transport.connections (Transport.updatePlayhead now t) = Transport.connections t.
Proof.
  unfold Transport.updatePlayhead.
  destruct (isPlaying (Transport.component t)), (Transport.audioContext t),
    (audioInfo (Transport.component t)); try done.
  match goal with |- context [geb ?a ?b] => destruct (geb a b) end.
  - rewrite stopAudio_connections. by destruct t.
  - by destruct t.
Qed.

(** X15.  The connections that [playAudio] leaves are those of the
    routes of the signal, from the new source through the filters and
    every enabled effect, in the order of the chain, to the destination,
    and, of the connections there were before, those of nodes that the
    component does not hold (older sources); nothing bypasses a stage. *)
Theorem playAudio_connects_along_routes pow now now' t :
  Transport.playable t -> is_Some (Transport.applyNormalization pow t) ->
  forall e,
    e ∈ Transport.connections (Transport.playAudio pow now now' t) <->
    (e ∈ Transport.connections t /\
     forall n, Transport.present t n = true -> fst e <> AudioNode.named n)
    \/ exists r,
         r ∈ Transport.signalRoutes t (AudioNode.source (Transport.sources t))
         /\ e ∈ Transport.links r.
Proof.
  intros Hplay [tn Hnorm] e.
  rewrite (playAudio_unfold pow now now' t tn Hplay Hnorm). cbv zeta.
  assert (Transport.connections
            (if ltb (pausedAt (Transport.component t)) 0
             then _ else Transport.updatePlayhead now' _)
          = Transport.buildChain t (AudioNode.source (Transport.sources t))
              (Transport.disconnectAll t)) as ->.
  { destruct (ltb _ _); [done|]. by rewrite updatePlayhead_connections. }
  by rewrite buildChain_routes, elem_of_disconnectAll.
Qed.


(** A call of [playAudio] that goes through and starts before the end of
    the track. *)
Lemma playAudio_plays pow now now' t tn info :
  Transport.playable t -> Transport.applyNormalization pow t = Some tn ->
  audioInfo (Transport.component t) = Some info ->
  0 <= pausedAt (Transport.component t) ->
  now' - (now - pausedAt (Transport.component t)) < AudioInfo.duration info ->
  Transport.playAudio pow now now' t =
    Transport.mk
      (drawSpectrogram
         (set_currentTime (now' - (now - pausedAt (Transport.component t)))
            (set_isPlaying true (Transport.component t))))
      (Transport.audioContext t) (Transport.present t)
      (Some (Source.mk (Transport.sources t) true)) (S (Transport.sources t))
      (now - pausedAt (Transport.component t)) true (Transport.effects t)
      (Transport.normalizeGain tn)
      (if Effects.normalizeEnabled (Transport.effects t)
       then Effects.amplify (Transport.effects t) * Transport.normalizeGain tn
       else Effects.amplify (Transport.effects t))
      (Transport.buildChain t (AudioNode.source (Transport.sources t))
         (Transport.disconnectAll t)).
Proof.
  intros Hplay Hnorm Hinfo Hp Hend.
  rewrite (playAudio_unfold pow now now' t tn Hplay Hnorm). cbv zeta.
  apply ltb_ge in Hp. rewrite Hp.
  destruct Hplay as (Hac & _).
  unfold Transport.updatePlayhead; tr_cbn. ui_get_set.
  rewrite Hac, Hinfo. tr_cbn. ui_get_set.
  apply geb_lt in Hend. by rewrite Hend.
Qed.

Lemma applyNormalization_ext pow t t' :
  Transport.effects t = Transport.effects t' ->
  audioBuffer (Transport.component t) = audioBuffer (Transport.component t') ->
  is_Some (Transport.applyNormalization pow t) ->
  is_Some (Transport.applyNormalization pow t').
Proof.
  unfold Transport.applyNormalization. intros <- <-.
  destruct (Effects.normalizeEnabled _ && _); [|by eauto].
  destruct (calculateNormalizationGain _ _ _); cbn; [eauto|].
  by intros [? [=]].
Qed.


(** X18.  Seeking during playback restarts it at the clicked position
    with a new source.  When the [ended] event of the source that the
    seek has stopped is delivered after that, its handler finds
    [isPlaying] set and resets the transport: [isPlaying] is false and
    the position 0, while the new source is still the current one,
    started and not stopped, and a frame is pending. *)
Theorem seekAudio_then_ended_of_old_source
    pow (event : MouseEvent.t) (now now' now'' : Q) t cv sd info id :
  Transport.playable t -> is_Some (Transport.applyNormalization pow t) ->
  spectrogramData (Transport.component t) = Some sd ->
  canvas (Transport.component t) = Some cv ->
  audioInfo (Transport.component t) = Some info ->
  isPlaying (Transport.component t) = true ->
  Transport.sourceNode t = Some (Source.mk id true) ->
  let x := MouseEvent.clientX event - Canvas.rect_left cv in
  let y := MouseEvent.clientY event - Canvas.rect_top cv in
  let spectrogramWidth := Canvas.width cv - legendWidth in
  0 < spectrogramWidth -> x <= spectrogramWidth -> freqBarHeight <= y ->
  let seekTime :=
    Math.max 0 (Math.min (x / spectrogramWidth * AudioInfo.duration info)
                         (AudioInfo.duration info)) in
  now'' - (now' - seekTime) < AudioInfo.duration info ->
  let t1 := Transport.seekAudio pow event now now' now'' t in
  let t2 := Transport.onended t1 in
  (isPlaying (Transport.component t1) = true /\
   pausedAt (Transport.component t1) = seekTime /\
   Transport.sourceNode t1 = Some (Source.mk (Transport.sources t) true)) /\
  (isPlaying (Transport.component t2) = false /\
   currentTime (Transport.component t2) = 0 /\
   pausedAt (Transport.component t2) = 0 /\
   Transport.sourceNode t2 = Some (Source.mk (Transport.sources t) true) /\
   Transport.animationId t2 = true).
Proof.
  intros Hplay [tn Hnorm] Hsd Hcv Hinfo Hplaying Hsrc x y W HW Hx Hy
    seekTime Hend t1 t2.
  assert (0 <= seekTime) as Hseek0 by (subst seekTime; auto with jsnum).
  set (tp := Transport.on_component (set_currentTime seekTime)
               (Transport.on_component (set_pausedAt seekTime)
                  (Transport.pauseAudio now t))).
  assert (t1 = Transport.playAudio pow now' now'' tp) as E1.
  { subst t1 tp. unfold Transport.seekAudio.
    rewrite Hinfo, Hcv, Hsd. fold x y W.
    apply gtb_le in Hx. apply ltb_ge in Hy. rewrite Hx, Hy. cbn [orb].
    rewrite Hplaying. unfold Transport.pauseAudio_throws.
    rewrite Hsrc. destruct Hplay as (-> & _). cbn [andb negb Source.started].
    fold seekTime.
    destruct (Transport.pauseAudio now t) as [u2 ? ? ? ? ? ? ? ? ? ?].
    tr_cbn. by ui_get_set. }
  assert (tp = Transport.mk
                 (set_currentTime seekTime
                    (set_pausedAt seekTime
                       (set_isPlaying false
                          (set_pausedAt (now - Transport.startTime t)
                             (Transport.component t)))))
                 (Transport.audioContext t) (Transport.present t) None
                 (Transport.sources t) (Transport.startTime t) false
                 (Transport.effects t) (Transport.normalizeGain t)
                 (Transport.amplifyGain t) (Transport.connections t)) as Etp.
  { subst tp. destruct Hplay as (Hac & _). clear - Hsrc Hac.
    destruct t; tr_cbn in Hsrc; tr_cbn in Hac. subst.
    unfold Transport.pauseAudio; tr_cbn. reflexivity. }
  assert (Transport.playable tp) as Hplay'.
  { rewrite Etp. destruct Hplay as (? & ? & ? & ? & ? & ? & ?).
    unfold Transport.playable; tr_cbn. ui_get_set. done. }
  assert (is_Some (Transport.applyNormalization pow tp)) as [tn' Hnorm'].
  { apply (applyNormalization_ext pow t); [by rewrite Etp | | by eauto].
    rewrite Etp; tr_cbn. by ui_get_set. }
  assert (audioInfo (Transport.component tp) = Some info) as Hinfo'.
  { rewrite Etp; tr_cbn. by ui_get_set. }
  assert (pausedAt (Transport.component tp) = seekTime) as Hp'.
  { rewrite Etp; tr_cbn. by ui_get_set. }
  rewrite (playAudio_plays pow now' now'' tp tn' info Hplay' Hnorm' Hinfo') in E1
    by (rewrite Hp'; lra).
  rewrite Hp' in E1.
  assert (Transport.sources tp = Transport.sources t) as Hn by (by rewrite Etp).
  rewrite Hn in E1.
  subst t2. rewrite E1. unfold Transport.onended; tr_cbn.
  draw_frame. ui_get_set. tr_cbn. draw_frame. ui_get_set.
  split; [split; [done | split; done] | done].
Qed.


End TransportProperties.

Lemma playAudio_connects_along_routes_witness :
  (AudioNode.named AudioNode.dynamicsGateNode,
   AudioNode.named AudioNode.amplifyNode)
  ∈ Transport.connections
      (Transport.playAudio (fun _ _ => 1) 5 5 Transport.loaded).
Proof.
  apply (playAudio_connects_along_routes (fun _ _ => 1) 5 5 Transport.loaded).
  - unfold Transport.playable, Transport.loaded; cbn. repeat split; eauto.
  - vm_compute. eauto.
  - right. eexists. split; [apply list_elem_of_here|].
    vm_compute. do 3 apply list_elem_of_further. apply list_elem_of_here.
Defined.



Lemma seekAudio_then_ended_of_old_source_witness :
  let t := Transport.playAudio (fun _ _ => 1) 5 5 Transport.loaded in
  let t1 := Transport.seekAudio (fun _ _ => 1)
              (MouseEvent.mk 400 200 false) 6 6 6 t in
  let t2 := Transport.onended t1 in
  isPlaying (Transport.component t2) = false /\
  Transport.sourceNode t2 = Some (Source.mk 1 true).
Proof.
  destruct (seekAudio_then_ended_of_old_source (fun _ _ => 1)
              (MouseEvent.mk 400 200 false) 6 6 6
              (Transport.playAudio (fun _ _ => 1) 5 5 Transport.loaded)
              (Canvas.mk 860 430 0 0)
              (SpectrogramData.mk [[-80; -20]] [0] 8000)
              (AudioInfo.mk 10 44100 1) 0)
    as (_ & Hplaying & _ & _ & Hsrc & _).
  - vm_compute. repeat split; eauto.
  - vm_compute. eauto.
  - reflexivity.
  - reflexivity.
  - reflexivity.
  - reflexivity.
  - reflexivity.
  - reflexivity.
  - vm_compute; discriminate.
  - vm_compute; discriminate.
  - reflexivity.
  - split; [exact Hplaying | exact Hsrc].
Defined.



(** ** How an import and an export end *)

Lemma stopAudio_frame u :
  exists m M r,
    stopAudio u =
      set_spectrogramNeedsRedraw r
        (set_cachedMaxDb M
           (set_cachedMinDb m
              (set_pausedAt 0 (set_currentTime 0 (set_isPlaying false u))))).
Proof.
  unfold stopAudio. ui_get_set.
  destruct (spectrogramData u).
  - apply drawSpectrogram_frame.
  - destruct u. do 3 eexists. cbn. reflexivity.
Qed.

Section Settle.
Context {W : Type} `{Host W}.

Lemma run_throw {A B} (e : string) (k : A -> M W B) (s : St W) :
  (throw e ≫= k) s = (Throw e, s, []).
Proof. reflexivity. Qed.

(** Name the result of the body of a [try]. *)
Ltac name_body Hbody :=
  match goal with
  | |- context [match ?b (mkSt ?u ?w) with _ => _ end] =>
      let o := fresh "o" in
      let s' := fresh "s'" in
      let l := fresh "l" in
      destruct (b (mkSt u w)) as [[o s'] l] eqn:Hbody; revert Hbody
  end.

(** X21.  [loadAudio] always comes to an end without an exception of
    its own, whatever the dialog and the engine answer and whatever other
    handlers do while it waits; and once a file was chosen, the progress
    flag [loading] is down when it ends. *)
Theorem loadAudio_always_settles (s : St W) :
  outcome_of loadAudio s = Return tt /\
  forall path w1,
    host_open loadAudio_options (world s) = (Some path, w1) ->
    truthy path = true ->
    loading (ui (state_after loadAudio s)) = false.
Proof.
  destruct s as [u w]; cbn [ui world]. split.
  - unfold outcome_of, loadAudio, try_catch.
    name_body Hbody. intros _.
    destruct o as [[]|e]; reflexivity.
  - intros path w1 Hopen Hpath.
    unfold state_after, loadAudio, try_catch.
    name_body Hbody. unfold open.
    rewrite (run_ask _ _ _ _ _ _ _ _ Hopen), Hpath. run_sync.
    assert (forall e (s : St W) l0,
              loading (ui (prepend l0
                 ((assign (set_error e);; assign (set_loading false)) s)).1.2)
              = false) as Hhandler.
    { intros e [u0 w0] l0. rewrite run_assign. unfold assign, prepend; cbn.
      by ui_get_set. }
    unfold invoke_load_audio. run_await Hload.
    2:{ cbn. intros [= <- <- <-]. apply Hhandler. }
    run_sync. unfold invoke_compute_spectrogram. run_await Hspec.
    2:{ cbn. intros [= <- <- <-]. apply Hhandler. }
    run_sync. unfold invoke_analyze_forensics. run_await Hforensic.
    2:{ cbn. intros [= <- <- <-]. apply Hhandler. }
    run_sync. unfold invoke_get_audio_samples. run_await Hsamples.
    2:{ cbn. intros [= <- <- <-]. apply Hhandler. }
    unfold createAudioBuffer.
    destruct (buildAudioBuffer host_audioContext v2) as [buf|e].
    2:{ rewrite run_throw. cbn. intros [= <- <- <-]. apply Hhandler. }
    run_sync. unfold assign. cbn. intros [= <- <- <-]. cbn.
    by ui_get_set.
Qed.

(** X22.  When the engine rejects the chosen file and no other handler
    runs in between, [loadAudio] asks for nothing more, shows the
    rejection as [error] and lowers [loading]; playback is stopped, and
    the track loaded before stays in place (its info, its spectrogram,
    its playback buffer) under the path of the file that failed, which
    is what a later export takes its default name from. *)
Theorem loadAudio_failed_decode_keeps_track (s : St W) path w1 e w2 :
  (forall (w : W) u, host_meanwhile w u = u) ->
  host_open loadAudio_options (world s) = (Some path, w1) ->
  truthy path = true ->
  host_load_audio path w1 = (Err e, w2) ->
  let u' := ui (state_after loadAudio s) in
  issued loadAudio s
    = [ReqOpen loadAudio_options;
       ReqInvoke load_audio [("path", ArgStr path)]%string] /\
  error u' = e /\ loading u' = false /\ isPlaying u' = false /\
  filePath u' = path /\
  audioInfo u' = audioInfo (ui s) /\
  spectrogramData u' = spectrogramData (ui s) /\
  audioBuffer u' = audioBuffer (ui s).
Proof.
  destruct s as [u w]; cbn [ui world].
  intros Hidle Hopen Hpath Hload.
  unfold issued, state_after, loadAudio, try_catch.
  name_body Hbody. unfold open.
  rewrite (run_ask _ _ _ _ _ _ _ _ Hopen), Hpath. run_sync.
  ui_get_set. rewrite stopAudio_filePath. ui_get_set.
  unfold invoke_load_audio.
  rewrite (run_await_err _ _ _ _ _ _ _ _ Hload).
  cbn [prepend app]. intros [= <- <- <-].
  rewrite run_assign. unfold assign, prepend; cbn [ui world fst snd app].
  rewrite !Hidle.
  destruct (stopAudio_frame
              (set_error ""
                 (set_loadingStage "Opening file..."
                    (set_loading true (set_filePath path u)))))
    as (m & M & r & ->).
  ui_get_set. done.
Qed.

(** X23.  [exportAudio] always comes to an end without an exception of
    its own.  Once a file name was chosen for a selection of at least
    0.01 s, the busy flag [exportLoading] is down when it ends, whatever
    the engine answers and whatever runs in between, and a rejection by
    the engine is what [error] shows. *)
Theorem exportAudio_always_settles (s : St W) :
  outcome_of exportAudio s = Return tt /\
  forall info a b outputPath w1,
    audioInfo (ui s) = Some info ->
    selectionStart (ui s) = Some a -> selectionEnd (ui s) = Some b ->
    1 # 100 <= Math.max a b - Math.min a b ->
    host_save (exportAudio_options (filePath (ui s))) (world s)
      = (Some outputPath, w1) ->
    truthy outputPath = true ->
    exportLoading (ui (state_after exportAudio s)) = false /\
    forall e w2,
      host_export_audio outputPath (Math.min a b) (Math.max a b) w1
        = (Err e, w2) ->
      error (ui (state_after exportAudio s)) = e.
Proof.
  destruct s as [u w]; cbn [ui world]. split.
  - unfold outcome_of, exportAudio. run_sync.
    destruct (audioInfo u), (selectionStart u), (selectionEnd u);
      try reflexivity.
    destruct (ltb _ _); [reflexivity|].
    unfold try_catch. name_body Hbody. intros _.
    destruct o as [[]|e]; reflexivity.
  - intros info a b outputPath w1 Hinfo Ha Hb Hlong%ltb_ge Hsave Hpath.
    unfold state_after, exportAudio. run_sync.
    rewrite Hinfo, Ha, Hb, Hlong.
    unfold try_catch. name_body Hbody. run_sync. unfold save.
    rewrite (run_ask _ _ _ _ _ _ _ _ Hsave), Hpath. run_sync.
    unfold invoke_export_audio. run_await Hexport.
    + run_sync. unfold assign. cbn. intros [= <- <- <-]. cbn.
      split; [by ui_get_set|]. intros e w2 [=].
    + cbn. intros [= <- <- <-].
      rewrite run_assign. unfold assign, prepend; cbn.
      split; [by ui_get_set|]. intros e' w2 [= -> _]. by ui_get_set.
Qed.
End Settle.

Lemma loadAudio_always_settles_witness :
  loading (ui (state_after loadAudio (mkSt initial_UI Mock.example))) = false.
Proof.
  destruct (loadAudio_always_settles (mkSt initial_UI Mock.example))
    as [_ Hdown].
  apply (Hdown "/tmp/test_audio.wav"%string Mock.example); reflexivity.
Defined.

Lemma loadAudio_failed_decode_keeps_track_witness :
  let previous :=
    set_filePath "/tmp/first.wav"
      (set_audioInfo (Some (AudioInfo.mk 1 44100 2)) initial_UI) in
  let host :=
    Mock.mk (Some "/tmp/second.mp3"%string) None (Err "UnsupportedFormat"%string)
            (Err "NoTrack"%string) (Err "NoTrack"%string)
            (Err "NoTrack"%string) (Err "NoTrack"%string) in
  let u' := ui (state_after loadAudio (mkSt previous host)) in
  error u' = "UnsupportedFormat"%string /\
  filePath u' = "/tmp/second.mp3"%string /\
  audioInfo u' = Some (AudioInfo.mk 1 44100 2).
Proof.
  intros previous host.
  destruct (loadAudio_failed_decode_keeps_track (mkSt previous host)
              "/tmp/second.mp3"%string host "UnsupportedFormat"%string host)
    as (_ & He & _ & _ & Hf & Hi & _); try reflexivity.
  cbv zeta. rewrite He, Hf, Hi. repeat split.
Defined.

Lemma exportAudio_always_settles_witness :
  let u :=
    set_selectionEnd (Some (2 # 10))
      (set_selectionStart (Some (5 # 10))
         (set_filePath "/tmp/test_audio.wav"
            (set_audioInfo (Some (AudioInfo.mk 1 44100 2)) initial_UI))) in
  exportLoading (ui (state_after exportAudio (mkSt u Mock.example))) = false.
Proof.
  intros u.
  refine (proj1 (proj2 (exportAudio_always_settles (mkSt u Mock.example))
                   (AudioInfo.mk 1 44100 2) (5 # 10) (2 # 10)
                   "/tmp/out.wav"%string Mock.example _ _ _ _ _ _));
    try reflexivity.
  vm_compute; discriminate.
Defined.

(** ** The default name of an export *)

Lemma basename_from_no_slash (acc s : string) :
  ~ In ("/"%char : Ascii.ascii) (list_ascii_of_string s) ->
  basename_from acc s = acc.
Proof.
  induction s as [|c s IH]; cbn; [done|]. intros Hno.
  destruct (Ascii.eqb_spec c "/"%char) as [->|_]; [tauto|].
  apply IH. tauto.
Qed.

Lemma basename_from_slash (acc dir name : string) :
  ~ In ("/"%char : Ascii.ascii) (list_ascii_of_string name) ->
  basename_from acc (dir ++ String "/" name)%string = name.
Proof.
  intros Hno. revert acc.
  induction dir as [|c dir IH]; intros acc.
  - change (basename_from name name = name).
    by apply basename_from_no_slash.
  - change (basename_from acc (String c (dir ++ String "/" name)%string) = name).
    cbn [basename_from]. destruct (Ascii.eqb c "/"%char); apply IH.
Qed.

Lemma has_dot_app (s t : string) :
  has_dot (s ++ t)%string = has_dot s || has_dot t.
Proof.
  induction s as [|c s IH]; [done|].
  change (has_dot (String c (s ++ t)%string)
          = has_dot (String c s) || has_dot t).
  cbn [has_dot]. rewrite IH. by rewrite orb_assoc.
Qed.

Lemma strip_extension_last (stem ext : string) :
  has_dot ext = false -> truthy ext = true ->
  strip_extension (stem ++ String "." ext)%string = stem.
Proof.
  intros Hdot Hext. induction stem as [|c stem IH].
  - change (strip_extension (String "." ext) = ""%string).
    cbn. by rewrite Hdot, Hext.
  - change (strip_extension (String c (stem ++ String "." ext)%string)
            = String c stem).
    cbn [strip_extension]. rewrite has_dot_app.
    change (has_dot (String "." ext)) with true.
    rewrite orb_true_r, andb_false_r. cbn [negb andb]. by rewrite IH.
Qed.

(** X24.  The default name offered for an export is the name of the
    loaded file without its directory and without its last extension:
    for a path [dir/stem.ext] with a non-empty [stem] and a non-empty
    extension free of dots, the dialog is opened on
    [stem_selection.wav], whatever dots [stem] contains.  A file whose
    name is nothing but an extension, such as [.mp3], is offered as
    [export_selection.wav]. *)
Theorem exportAudio_default_name (dir stem ext : string) :
  ~ In ("/"%char : Ascii.ascii) (list_ascii_of_string stem) ->
  ~ In ("/"%char : Ascii.ascii) (list_ascii_of_string ext) ->
  has_dot ext = false -> truthy ext = true ->
  (truthy stem = true ->
   SaveOptions.defaultPath
     (exportAudio_options (dir ++ String "/" (stem ++ String "." ext))%string)
   = (stem ++ "_selection.wav")%string) /\
  SaveOptions.defaultPath
    (exportAudio_options (dir ++ String "/" (String "." ext))%string)
  = "export_selection.wav"%string.
Proof.
  intros Hstem Hext Hdot Hnonempty.
  assert (forall s : string,
            ~ In ("/"%char : Ascii.ascii) (list_ascii_of_string s) ->
            ~ In ("/"%char : Ascii.ascii)
                 (list_ascii_of_string (s ++ String "." ext)%string)) as Hname.
  { intros s Hs. induction s as [|c s IH].
    - change (~ In ("/"%char : Ascii.ascii)
                   (("."%char : Ascii.ascii) :: list_ascii_of_string ext)).
      intros [Heq|Hin]; [discriminate | done].
    - change (~ In ("/"%char : Ascii.ascii)
                   (c :: list_ascii_of_string (s ++ String "." ext)%string)).
      cbn [list_ascii_of_string In] in Hs.
      intros [Heq|Hin]; [tauto|]. apply IH; tauto. }
  unfold exportAudio_options, defaultName_of, basename; cbn [SaveOptions.defaultPath].
  split.
  - intros Htruthy.
    rewrite basename_from_slash by (by apply Hname).
    rewrite strip_extension_last by done. by rewrite Htruthy.
  - rewrite basename_from_slash by (apply (Hname ""%string); cbn; tauto).
    change (strip_extension (String "." ext))
      with (strip_extension ("" ++ String "." ext)%string).
    rewrite (strip_extension_last "" ext) by done. reflexivity.
Qed.

Lemma exportAudio_default_name_witness :
  SaveOptions.defaultPath (exportAudio_options "/music/live/song.v2.mp3")
  = "song.v2_selection.wav"%string.
Proof.
  apply (exportAudio_default_name "/music/live" "song.v2" "mp3");
    [ cbn; intuition discriminate | cbn; intuition discriminate
    | reflexivity | reflexivity | reflexivity ].
Defined.

(** ** Times as text *)

Lemma trunc_nonneg (q : Q) : 0 <= q -> trunc q = Qfloor q.
Proof. intros Hq%ltb_ge. unfold trunc. by rewrite Hq. Qed.

Lemma seconds_digits (k : nat) :
  (k <= 600)%nat ->
  String.length (padStart0 4 (fixedDigits 1 (Z.of_nat k))) = 4%nat /\
  (padStart0 4 (fixedDigits 1 (Z.of_nat k)) = "60.0"%string <-> k = 600%nat).
Proof.
  intros Hk.
  assert (forallb (fun k : nat =>
            let s := padStart0 4 (fixedDigits 1 (Z.of_nat k)) in
            (String.length s =? 4)%nat
            && bool_decide (bool_decide (s = "60.0"%string)
                            = bool_decide (k = 600%nat))) (seq 0 601) = true)
    as Hall.
  { vm_compute. reflexivity. }
  rewrite forallb_forall in Hall.
  specialize (Hall k ltac:(apply in_seq; lia)). cbv zeta in Hall.
  apply andb_true_iff in Hall as [Hlen%Nat.eqb_eq Heq%bool_decide_eq_true].
  split; [done|].
  split; intros Hs.
  - apply (bool_decide_eq_true (k = 600%nat)). rewrite <- Heq.
    by apply bool_decide_eq_true.
  - apply (bool_decide_eq_true (padStart0 4 (fixedDigits 1 (Z.of_nat k)) = "60.0"%string)).
    rewrite Heq. by apply bool_decide_eq_true.
Qed.

(** X25.  For a time that is not negative, [formatTime] writes the
    whole minutes, a colon and four characters for the seconds.  These
    read [60.0] exactly in the last twentieth of a second of a minute:
    the seconds are rounded to a tenth after the minutes were cut off,
    so that 59.96 s reads [0:60.0]. *)
Theorem formatTime_last_instant_of_minute (seconds : Q) :
  0 <= seconds ->
  let mins := Math.floor (seconds / 60) in
  let rest := seconds - 60 * inject_Z mins in
  exists secs,
    formatTime seconds = (pretty.pretty mins ++ ":" ++ secs)%string /\
    String.length secs = 4%nat /\
    (secs = "60.0"%string <-> 5995 # 100 <= rest).
Proof.
  intros Hsec mins rest.
  assert (0 <= seconds / 60) as Hq.
  { apply Qle_shift_div_l; lra. }
  assert (0 <= rest /\ rest < 60) as [Hr0 Hr1].
  { subst rest mins. unfold Math.floor.
    pose proof (Qfloor_le (seconds / 60)) as Hlo.
    pose proof (Qlt_floor (seconds / 60)) as Hhi.
    assert (seconds == seconds / 60 * 60) as Hs by (field; lra).
    rewrite inject_Z_plus in Hhi. change (inject_Z 1) with 1 in Hhi.
    revert Hlo Hhi Hs. generalize (inject_Z (Qfloor (seconds / 60))).
    generalize (seconds / 60). intros x f Hlo Hhi Hs.
    split; lra. }
  unfold formatTime, toFixed. fold mins.
  assert (remainder seconds 60 = rest) as ->.
  { unfold remainder. by rewrite trunc_nonneg. }
  apply ltb_ge in Hr0 as Hr0'. rewrite Hr0'.
  change (inject_Z (10 ^ Z.of_nat 1)) with 10.
  set (n := Qfloor (rest * 10 + (1 # 2))).
  assert (0 <= n <= 600)%Z as Hn.
  { subst n. split.
    - change 0%Z with (Qfloor 0). apply Qfloor_resp_le. lra.
    - pose proof (Qfloor_le (rest * 10 + (1 # 2))) as Hle.
      apply Z.lt_succ_r. rewrite Zlt_Qlt.
      change (inject_Z (Z.succ 600)) with 601. lra. }
  assert (n = 600%Z <-> 5995 # 100 <= rest) as Hedge.
  { subst n. split.
    - intros Heq. pose proof (Qfloor_le (rest * 10 + (1 # 2))) as Hle.
      rewrite Heq in Hle. change (inject_Z 600) with 600 in Hle. lra.
    - intros Hge. apply Z.le_antisymm; [lia|].
      change 600%Z with (Qfloor 600). apply Qfloor_resp_le. lra. }
  destruct (seconds_digits (Z.to_nat n)) as [Hlen Hiff]; [lia|].
  rewrite Z2Nat.id in Hlen, Hiff by lia.
  eexists. split; [reflexivity|]. split; [exact Hlen|].
  rewrite Hiff, <- Hedge. lia.
Qed.

Lemma formatTime_last_instant_of_minute_witness :
  exists secs,
    formatTime (5996 # 100) = ("0:" ++ secs)%string /\ secs = "60.0"%string.
Proof.
  destruct (formatTime_last_instant_of_minute (5996 # 100)) as
    (secs & Hfmt & _ & Hedge); [vm_compute; discriminate|].
  exists secs. split; [exact Hfmt|].
  apply Hedge. vm_compute; discriminate.
Defined.

(** The time display of an idle player, as the end-to-end test expects
    it. *)
Example formatTime_zero : formatTime 0 = "0:00.0"%string.
Proof. reflexivity. Qed.
